(** * ExtendedGraphicsProgramming: custom render passes

    A shallow embedding of the dual-thread render-pass core of the plugin
    (EGP_CustomRenderPasses.h / .cpp and EGP_GetMeshBatches.cpp) together
    with the properties stated about it.

    Conventions used throughout:
    - a C++ [int] / [int32] is a [Z]; arithmetic that the source performs
      on it is wrapped with [wrap32];
    - pointers and object handles are identifiers ([Z], 0 is [nullptr]);
    - [check(...)] is a fatal assertion: a function that can hit one
      returns an [option], [None] meaning that the assertion fired;
    - [ENQUEUE_RENDER_COMMAND] appends a command to an explicit FIFO which
      the render thread consumes in order. *)

From Stdlib Require Import ZArith Bool List Lia.
From stdpp Require Import base option list gmap fin_maps fin_sets.
Import ListNotations.

Open Scope Z_scope.

(** ** Machine integers *)

Module Int32.

Definition min_int : Z := - 2 ^ 31.
Definition max_int : Z := 2 ^ 31 - 1.

(** Two's complement wrap-around of a 32-bit signed integer. *)
Definition wrap32 (z : Z) : Z := (z + 2 ^ 31) mod 2 ^ 32 - 2 ^ 31.

Definition in_range (z : Z) : Prop := min_int <= z <= max_int.

End Int32.

(** ** Logging

    [UE_LOG] never changes control flow; the lines are kept so that
    "an error is reported" can be stated. *)

Inductive LogLine : Type :=
  (* "Tried to add a %s element to a %s view-filter! The operation failed." *)
  | Error_AddToOppositeFilter (isAddingAsWhitelist : bool)
  (* "Custom render pass '%s' can only hold %i components before some heap usage ..." *)
  | Warning_ArrayHeapUsage (numComponents : nat)
  (* "Render-thread proxy for custom render pass '%s' exceeds %i bytes (%i) ..." *)
  | Warning_ProxyHeapUsage (numBytes : nat).

(** ** EGP::FilterList<T, CompareFn> *)

Module EGP.

Section FilterList.

Context {T : Type}.
(** The [Comparator] member (defaults to [std::equal_to<T>]). *)
Variable Comparator : T -> T -> bool.

(** [isWhitelist] is a [TOptional<bool>], [elements] a [TArray<T>]. *)
Record FilterList : Type := mkFilterList {
  isWhitelist : option bool;
  elements : list T
}.

(** The constructor: no elements, the given (optional) polarity. *)
Definition FilterList_new (_isWhitelist : option bool) : FilterList :=
  {| isWhitelist := _isWhitelist; elements := [] |}.

(** The body of the [for] loop of [IsAllowed]: the first element the
    comparator matches sets [isListed] and breaks. *)
Fixpoint isListed_loop (es : list T) (t : T) : bool :=
  match es with
  | [] => false
  | element :: rest =>
      if Comparator element t then true else isListed_loop rest t
  end.

Definition IsAllowed (f : FilterList) (t : T) : bool :=
  match isWhitelist f with
  | None => true
  | Some w => Bool.eqb (isListed_loop (elements f) t) w
  end.

Definition IsAWhitelist (f : FilterList) : option bool := isWhitelist f.

(** [check(isWhitelist != true)] *)
Definition AddBlacklisted (f : FilterList) (t : T) : option FilterList :=
  if decide (isWhitelist f = Some true) then None
  else Some {| isWhitelist := Some false; elements := elements f ++ [t] |}.

(** [check(isWhitelist != false)] *)
Definition AddWhitelisted (f : FilterList) (t : T) : option FilterList :=
  if decide (isWhitelist f = Some false) then None
  else Some {| isWhitelist := Some true; elements := elements f ++ [t] |}.

(** [elements.RemoveAll([&](const T& t2) { return Comparator(t, t2); })] *)
Definition Remove (f : FilterList) (t : T) : FilterList :=
  {| isWhitelist := isWhitelist f;
     elements := List.filter (fun t2 => negb (Comparator t t2)) (elements f) |}.

Definition Configure (f : FilterList) (_isWhitelist : bool) : FilterList :=
  {| isWhitelist := Some _isWhitelist; elements := elements f |}.

Definition Clear (f : FilterList) (isNowWhitelist : option bool) : FilterList :=
  {| isWhitelist := isNowWhitelist; elements := [] |}.

Definition GetSize (f : FilterList) : nat := length (elements f).

(** *** The mutation lambdas of U_EGP_ViewFilter

    [UpdateFilterList], [ClearFilterList] and [ConfigureFilterList] each
    build a lambda [updateFilter] and run it once per thread copy. The
    lambda returns the new list and what it logged; [None] is a fired
    [check]. *)

Definition updateFilter (element : T) (isAdding isAddingAsWhitelist : bool)
    (filter : FilterList) : option (FilterList * list LogLine) :=
  if isAdding
     && bool_decide (is_Some (IsAWhitelist filter))
     && negb (bool_decide (IsAWhitelist filter = Some isAddingAsWhitelist))
  then Some (filter, [Error_AddToOppositeFilter isAddingAsWhitelist])
  else if isAdding then
    if isAddingAsWhitelist
    then f' ← AddWhitelisted filter element; Some (f', [])
    else f' ← AddBlacklisted filter element; Some (f', [])
  else Some (Remove filter element, []).

Definition updateFilter_clear (filter : FilterList)
    : option (FilterList * list LogLine) :=
  Some (Clear filter None, []).

Definition updateFilter_configure (makeWhitelist : bool) (filter : FilterList)
    : option (FilterList * list LogLine) :=
  Some (Configure filter makeWhitelist, []).

(** The requests a caller can make on one filter category. *)
Inductive Mutation : Type :=
  | MAdd (element : T) (isAddingAsWhitelist : bool)
  | MRemove (element : T)
  | MClear
  | MConfigure (makeWhitelist : bool).

Definition apply_mutation (m : Mutation) (filter : FilterList)
    : option (FilterList * list LogLine) :=
  match m with
  | MAdd e w => updateFilter e true w filter
  | MRemove e => updateFilter e false false filter
  | MClear => updateFilter_clear filter
  | MConfigure w => updateFilter_configure w filter
  end.

(** Runs the requests in order on one copy, accumulating the log. *)
Fixpoint apply_mutations (ms : list Mutation) (filter : FilterList)
    : option (FilterList * list LogLine) :=
  match ms with
  | [] => Some (filter, [])
  | m :: rest =>
      '(f1, l1) ← apply_mutation m filter;
      '(f2, l2) ← apply_mutations rest f1;
      Some (f2, l1 ++ l2)
  end.

Definition is_configure (m : Mutation) : bool :=
  match m with MConfigure _ => true | _ => false end.

(** Membership of [t] in the element list under the comparator. *)
Definition listed (f : FilterList) (t : T) : Prop :=
  exists element, In element (elements f) /\ Comparator element t = true.

(** Requests that neither clear nor reconfigure the list. *)
Definition is_add_or_remove (m : Mutation) : bool :=
  match m with MAdd _ _ | MRemove _ => true | _ => false end.

End FilterList.

Arguments FilterList : clear implicits.
Arguments Mutation : clear implicits.
Arguments MClear {T}.
Arguments MConfigure {T} makeWhitelist.

(** *** Provenance of the elements

    The list stores bare elements; to speak of "an element that was added
    as whitelisted" the same code is run on elements paired with the
    polarity of the request that added them. The pairing is invisible to
    the code: the comparator only looks at the element. *)

Section Provenance.

Context {T : Type}.
Variable Comparator : T -> T -> bool.

Definition Comparator_tagged (a b : T * bool) : bool := Comparator a.1 b.1.

Definition tag_mutation (m : Mutation T) : Mutation (T * bool) :=
  match m with
  | MAdd e w => MAdd (e, w) w
  | MRemove e => MRemove (e, false)
  | MClear => MClear
  | MConfigure w => MConfigure w
  end.

Definition untag (f : FilterList (T * bool)) : FilterList T :=
  {| isWhitelist := isWhitelist f; elements := List.map fst (elements f) |}.

Definition untag_result (r : FilterList (T * bool) * list LogLine)
    : FilterList T * list LogLine :=
  (untag r.1, r.2).

(** The list holds an element added as whitelisted and one added as
    blacklisted. *)
Definition holds_both_polarities (f : FilterList (T * bool)) : Prop :=
  exists e1 e2, In (e1, true) (elements f) /\ In (e2, false) (elements f).

(** Every element was added under the polarity the list has now. *)
Definition polarized (f : FilterList (T * bool)) : Prop :=
  forall e w, In (e, w) (elements f) -> isWhitelist f = Some w.

End Provenance.

End EGP.

(** ** Calling thread

    [IsInRenderingThread()] and [IsInGameThread()] as seen by the caller.
    Both are true when the engine renders on the game thread. *)

Record ThreadCtx : Type := mkThread {
  IsInRenderingThread : bool;
  IsInGameThread : bool
}.

Definition GameThread : ThreadCtx :=
  {| IsInRenderingThread := false; IsInGameThread := true |}.
Definition RenderThread : ThreadCtx :=
  {| IsInRenderingThread := true; IsInGameThread := false |}.

(** ** U_EGP_ViewFilter *)

Module ViewFilter.

Import EGP.

(** The engine objects a filter is tested against, reduced to the
    members the filter reads. Pointers and weak object pointers are
    identifiers compared with [std::equal_to]. *)
Record FSceneViewFamily : Type := {
  Scene : Z;
  RenderTarget : Z
}.

Record FSceneView : Type := {
  Family : FSceneViewFamily;
  PlayerIndex : Z;
  ViewActor : Z
}.

Record FSceneViewExtensionContext : Type := {
  sveScene : Z;
  sveViewport : Z
}.

Record U_EGP_ViewFilter : Type := {
  ExcludeAll : bool;
  byRenderTarget_GT : FilterList Z;
  byRenderTarget_RT : FilterList Z;
  byScene_GT : FilterList Z;
  byScene_RT : FilterList Z;
  byViewport_GT : FilterList Z;
  byViewport_RT : FilterList Z;
  byViewActor_GT : FilterList Z;
  byViewActor_RT : FilterList Z;
  byPlayerIndex_GT : FilterList Z;
  byPlayerIndex_RT : FilterList Z
}.

Definition equal_to : Z -> Z -> bool := Z.eqb.

(** [(rThread && x_RT.IsAllowed(v)) || (gThread && x_GT.IsAllowed(v))] *)
Definition allowed_on (th : ThreadCtx) (f_RT f_GT : FilterList Z) (v : Z) : bool :=
  (IsInRenderingThread th && IsAllowed equal_to f_RT v)
  || (IsInGameThread th && IsAllowed equal_to f_GT v).

(** [check(rThread || gThread)] *)
Definition check_thread (th : ThreadCtx) : option unit :=
  if IsInRenderingThread th || IsInGameThread th then Some tt else None.

Definition ShouldRenderFor_Viewport (th : ThreadCtx) (vf : U_EGP_ViewFilter)
    (viewport : Z) : option bool :=
  _ ← check_thread th;
  Some (negb (ExcludeAll vf)
        && allowed_on th (byViewport_RT vf) (byViewport_GT vf) viewport).

Definition ShouldRenderFor_Scene (th : ThreadCtx) (vf : U_EGP_ViewFilter)
    (scene : Z) : option bool :=
  _ ← check_thread th;
  Some (negb (ExcludeAll vf)
        && allowed_on th (byScene_RT vf) (byScene_GT vf) scene).

Definition ShouldRenderFor_SVEContext (th : ThreadCtx) (vf : U_EGP_ViewFilter)
    (sveContext : FSceneViewExtensionContext) : option bool :=
  s ← ShouldRenderFor_Scene th vf (sveScene sveContext);
  if s : bool then ShouldRenderFor_Viewport th vf (sveViewport sveContext)
  else Some false.

Definition ShouldRenderFor_Family (th : ThreadCtx) (vf : U_EGP_ViewFilter)
    (viewFamily : FSceneViewFamily) : option bool :=
  _ ← check_thread th;
  Some (negb (ExcludeAll vf)
        && allowed_on th (byScene_RT vf) (byScene_GT vf) (Scene viewFamily)
        && allowed_on th (byRenderTarget_RT vf) (byRenderTarget_GT vf)
                      (RenderTarget viewFamily)).

Definition ShouldRenderFor_View (th : ThreadCtx) (vf : U_EGP_ViewFilter)
    (view : FSceneView) : option bool :=
  _ ← check_thread th;
  fam ← ShouldRenderFor_Family th vf (Family view);
  Some (fam
        && allowed_on th (byPlayerIndex_RT vf) (byPlayerIndex_GT vf)
                      (PlayerIndex view)
        && allowed_on th (byViewActor_RT vf) (byViewActor_GT vf)
                      (ViewActor view)).

(** *** Mutation from any thread

    [UpdateFilterList], [ClearFilterList] and [ConfigureFilterList] take
    the two copies of one category by reference. The render-thread copy
    is always updated by an enqueued command; the game-thread copy at
    once when the caller is the game thread, otherwise by an
    [AsyncTask]. *)

Inductive Category : Type :=
  | ByRenderTarget | ByScene | ByViewport | ByViewActor | ByPlayerIndex.

Definition get_GT (c : Category) (vf : U_EGP_ViewFilter) : FilterList Z :=
  match c with
  | ByRenderTarget => byRenderTarget_GT vf
  | ByScene => byScene_GT vf
  | ByViewport => byViewport_GT vf
  | ByViewActor => byViewActor_GT vf
  | ByPlayerIndex => byPlayerIndex_GT vf
  end.

Definition get_RT (c : Category) (vf : U_EGP_ViewFilter) : FilterList Z :=
  match c with
  | ByRenderTarget => byRenderTarget_RT vf
  | ByScene => byScene_RT vf
  | ByViewport => byViewport_RT vf
  | ByViewActor => byViewActor_RT vf
  | ByPlayerIndex => byPlayerIndex_RT vf
  end.

Definition set_GT (c : Category) (f : FilterList Z) (vf : U_EGP_ViewFilter)
    : U_EGP_ViewFilter :=
  {| ExcludeAll := ExcludeAll vf;
     byRenderTarget_GT := match c with ByRenderTarget => f | _ => byRenderTarget_GT vf end;
     byRenderTarget_RT := byRenderTarget_RT vf;
     byScene_GT := match c with ByScene => f | _ => byScene_GT vf end;
     byScene_RT := byScene_RT vf;
     byViewport_GT := match c with ByViewport => f | _ => byViewport_GT vf end;
     byViewport_RT := byViewport_RT vf;
     byViewActor_GT := match c with ByViewActor => f | _ => byViewActor_GT vf end;
     byViewActor_RT := byViewActor_RT vf;
     byPlayerIndex_GT := match c with ByPlayerIndex => f | _ => byPlayerIndex_GT vf end;
     byPlayerIndex_RT := byPlayerIndex_RT vf |}.

Definition set_RT (c : Category) (f : FilterList Z) (vf : U_EGP_ViewFilter)
    : U_EGP_ViewFilter :=
  {| ExcludeAll := ExcludeAll vf;
     byRenderTarget_GT := byRenderTarget_GT vf;
     byRenderTarget_RT := match c with ByRenderTarget => f | _ => byRenderTarget_RT vf end;
     byScene_GT := byScene_GT vf;
     byScene_RT := match c with ByScene => f | _ => byScene_RT vf end;
     byViewport_GT := byViewport_GT vf;
     byViewport_RT := match c with ByViewport => f | _ => byViewport_RT vf end;
     byViewActor_GT := byViewActor_GT vf;
     byViewActor_RT := match c with ByViewActor => f | _ => byViewActor_RT vf end;
     byPlayerIndex_GT := byPlayerIndex_GT vf;
     byPlayerIndex_RT := match c with ByPlayerIndex => f | _ => byPlayerIndex_RT vf end |}.

(** A captured [updateFilter] lambda together with the category whose
    copy it was built for. *)
Definition PendingUpdate : Type := (Category * Mutation Z)%type.

(** The filter object, the two queues its mutators post to, and the log. *)
Record FilterState : Type := {
  filter : U_EGP_ViewFilter;
  renderCommands : list PendingUpdate;
  gameThreadTasks : list PendingUpdate;
  filterLog : list LogLine
}.

Definition run_on_GT (u : PendingUpdate) (s : FilterState) : option FilterState :=
  '(f', l) ← apply_mutation equal_to u.2 (get_GT u.1 (filter s));
  Some {| filter := set_GT u.1 f' (filter s);
          renderCommands := renderCommands s;
          gameThreadTasks := gameThreadTasks s;
          filterLog := filterLog s ++ l |}.

Definition run_on_RT (u : PendingUpdate) (s : FilterState) : option FilterState :=
  '(f', l) ← apply_mutation equal_to u.2 (get_RT u.1 (filter s));
  Some {| filter := set_RT u.1 f' (filter s);
          renderCommands := renderCommands s;
          gameThreadTasks := gameThreadTasks s;
          filterLog := filterLog s ++ l |}.

(** The shared body of the three mutators: post to the render thread,
    then update the game-thread copy now or through a posted task. *)
Definition post_update (th : ThreadCtx) (u : PendingUpdate) (s : FilterState)
    : option FilterState :=
  let s1 := {| filter := filter s;
               renderCommands := renderCommands s ++ [u];
               gameThreadTasks := gameThreadTasks s;
               filterLog := filterLog s |} in
  if IsInGameThread th then run_on_GT u s1
  else Some {| filter := filter s1;
               renderCommands := renderCommands s1;
               gameThreadTasks := gameThreadTasks s1 ++ [u];
               filterLog := filterLog s1 |}.

Definition UpdateFilterList (th : ThreadCtx) (c : Category) (element : Z)
    (isAdding isAddingAsWhitelist : bool) (s : FilterState) : option FilterState :=
  post_update th
    (c, if isAdding then MAdd element isAddingAsWhitelist else MRemove element) s.

Definition ClearFilterList (th : ThreadCtx) (c : Category) (s : FilterState)
    : option FilterState :=
  post_update th (c, MClear) s.

Definition ConfigureFilterList (th : ThreadCtx) (c : Category)
    (makeWhitelist : bool) (s : FilterState) : option FilterState :=
  post_update th (c, MConfigure makeWhitelist) s.

(** The render thread runs its oldest pending filter command. *)
Definition render_thread_step (s : FilterState) : option FilterState :=
  match renderCommands s with
  | [] => Some s
  | u :: rest =>
      run_on_RT u {| filter := filter s;
                     renderCommands := rest;
                     gameThreadTasks := gameThreadTasks s;
                     filterLog := filterLog s |}
  end.

(** *** The public mutators

    One group of four per category; each is a call of one of the three
    templates above on the category's two copies. *)

Definition FilterByActor th (actor : Z) (isWhitelist : bool) :=
  UpdateFilterList th ByViewActor actor true isWhitelist.
Definition RemoveByActor th (actor : Z) :=
  UpdateFilterList th ByViewActor actor false false.
Definition ConfigureByActor th (isWhitelist : bool) :=
  ConfigureFilterList th ByViewActor isWhitelist.
Definition ClearsByActor th := ClearFilterList th ByViewActor.

Definition FilterByPlayerIdx th (playerIdx : Z) (isWhitelist : bool) :=
  UpdateFilterList th ByPlayerIndex playerIdx true isWhitelist.
Definition RemoveByPlayerIdx th (playerIdx : Z) :=
  UpdateFilterList th ByPlayerIndex playerIdx false false.
Definition ConfigureByPlayerIdx th (isWhitelist : bool) :=
  ConfigureFilterList th ByPlayerIndex isWhitelist.
Definition ClearsByPlayerIdx th := ClearFilterList th ByPlayerIndex.

Definition FilterByViewport th (viewport : Z) (isWhitelist : bool) :=
  UpdateFilterList th ByViewport viewport true isWhitelist.
Definition RemoveByViewport th (viewport : Z) :=
  UpdateFilterList th ByViewport viewport false false.
Definition ConfigureByViewport th (isWhitelist : bool) :=
  ConfigureFilterList th ByViewport isWhitelist.
Definition ClearsByViewport th := ClearFilterList th ByViewport.

Definition FilterByScene th (scene : Z) (isWhitelist : bool) :=
  UpdateFilterList th ByScene scene true isWhitelist.
Definition RemoveByScene th (scene : Z) :=
  UpdateFilterList th ByScene scene false false.
Definition ConfigureByScene th (isWhitelist : bool) :=
  ConfigureFilterList th ByScene isWhitelist.
Definition ClearsByScene th := ClearFilterList th ByScene.

(** The overloads taking a [const FRenderTarget*]. *)
Definition FilterByRenderTarget th (rt : Z) (isWhitelist : bool) :=
  UpdateFilterList th ByRenderTarget rt true isWhitelist.
Definition RemoveByRenderTarget th (rt : Z) :=
  UpdateFilterList th ByRenderTarget rt false false.
Definition ConfigureByRenderTarget th (isWhitelist : bool) :=
  ConfigureFilterList th ByRenderTarget isWhitelist.
Definition ClearsByRenderTarget th := ClearFilterList th ByRenderTarget.

(** A [UTextureRenderTarget], reduced to the resource pointer that
    [GameThread_GetRenderTargetResource()] returns (0 while the resource
    is not initialised). A null [UTextureRenderTarget*] is [None]. *)
Record UTextureRenderTarget : Type := {
  GameThread_GetRenderTargetResource : Z
}.

(** The overloads taking a [UTextureRenderTarget*] (game thread only). *)
Definition FilterByRenderTarget_UObject (th : ThreadCtx)
    (rt : option UTextureRenderTarget) (isWhitelist : bool) (s : FilterState)
    : option FilterState :=
  if IsInGameThread th then
    match rt with
    | None => UpdateFilterList th ByRenderTarget 0 true isWhitelist s
    | Some target =>
        let resource := GameThread_GetRenderTargetResource target in
        if negb (resource =? 0) then FilterByRenderTarget th resource isWhitelist s
        else Some s
    end
  else None.

Definition RemoveByRenderTarget_UObject (th : ThreadCtx)
    (rt : option UTextureRenderTarget) (s : FilterState) : option FilterState :=
  if IsInGameThread th then
    match rt with
    | None => UpdateFilterList th ByRenderTarget 0 true false s
    | Some target =>
        let resource := GameThread_GetRenderTargetResource target in
        if negb (resource =? 0) then RemoveByRenderTarget th resource s
        else Some s
    end
  else None.

(** The game thread runs its oldest posted task. *)
Definition game_thread_step (s : FilterState) : option FilterState :=
  match gameThreadTasks s with
  | [] => Some s
  | u :: rest =>
      run_on_GT u {| filter := filter s;
                     renderCommands := renderCommands s;
                     gameThreadTasks := rest;
                     filterLog := filterLog s |}
  end.

(** *** The activation functors of the scene-view-extensions

    Each returns a [TOptional<bool>]: [None] is "no opinion", [Some false]
    a veto. *)

(** F_EGP_RenderPassSceneViewExtension: only in scenes of this world and
    only while the extension has not been killed. *)
Definition testWorld (World : Z) (stopAllRendering : bool) (contextWorld : Z)
    : option bool :=
  if negb stopAllRendering && (contextWorld =? World) then None else Some false.

(** T_EGP_RenderPassSceneViewExtension: only in views the pass's filter
    accepts. The outer [option] is the thread assertion of the filter. *)
Definition testFilter (th : ThreadCtx) (vf : U_EGP_ViewFilter)
    (c : FSceneViewExtensionContext) : option (option bool) :=
  r ← ShouldRenderFor_SVEContext th vf c;
  Some (if r : bool then None else Some false).

(** *** Vocabulary for the two copies *)

Definition Category_eqb (a b : Category) : bool :=
  match a, b with
  | ByRenderTarget, ByRenderTarget
  | ByScene, ByScene
  | ByViewport, ByViewport
  | ByViewActor, ByViewActor
  | ByPlayerIndex, ByPlayerIndex => true
  | _, _ => false
  end.

(** The lambdas of a queue that were built for category [c], oldest
    first. *)
Definition pending_for (c : Category) (queue : list PendingUpdate)
    : list (Mutation Z) :=
  snd <$> List.filter (fun u => Category_eqb u.1 c) queue.

(** The copy of category [c] a thread holds once it has run everything
    that is queued for it now. *)
Definition eventual_RT (c : Category) (s : FilterState) : option (FilterList Z) :=
  fst <$> apply_mutations equal_to (pending_for c (renderCommands s))
                          (get_RT c (filter s)).

Definition eventual_GT (c : Category) (s : FilterState) : option (FilterList Z) :=
  fst <$> apply_mutations equal_to (pending_for c (gameThreadTasks s))
                          (get_GT c (filter s)).

(** The two threads are heading for the same list in every category. *)
Definition in_sync (s : FilterState) : Prop :=
  forall c, eventual_RT c s = eventual_GT c s.

End ViewFilter.

(** ** T_EGP_PerViewData<TData> *)

Module PerViewData.

Import Int32.

(** Engine value types, with the operators the cache uses.
    [FIntPoint::operator-] and [FIntRect::Size] subtract component-wise
    on [int32]. *)
Record FIntPoint : Type := {
  X : Z;
  Y : Z
}.

Record FIntRect : Type := {
  Min : FIntPoint;
  Max : FIntPoint
}.

Definition FIntPoint_sub (a b : FIntPoint) : FIntPoint :=
  {| X := wrap32 (X a - X b); Y := wrap32 (Y a - Y b) |}.

Definition FIntPoint_ne (a b : FIntPoint) : bool :=
  negb (X a =? X b) || negb (Y a =? Y b).

Definition Size (r : FIntRect) : FIntPoint :=
  {| X := wrap32 (X (Max r) - X (Min r)); Y := wrap32 (Y (Max r) - Y (Min r)) |}.

Definition FIntRect_ne (a b : FIntRect) : bool :=
  FIntPoint_ne (Min a) (Min b) || FIntPoint_ne (Max a) (Max b).

(** What the cache reads from an [FViewInfo]: [State->GetViewKey()],
    [ViewRect] and [GetFeatureLevel()]. *)
Record FViewInfo : Type := {
  ViewKey : Z;
  ViewRect : FIntRect;
  GetFeatureLevel : Z
}.

(** Calls made into the user's [TData], in program order. *)
Inductive UserCall : Type :=
  | Call_Construct (view : FViewInfo) (viewportSubset : FIntRect)
  | Call_Resample (view : FViewInfo)
                  (oldResolution newResolution oldToNewPixelOffset : FIntPoint).

Section PerViewData.

Context {TData NewDataArgs : Type}.
(** [TData{ graph, view, view.ViewRect, constructorArgs... }] *)
Variable TData_new : FViewInfo -> FIntRect -> NewDataArgs -> TData.
(** [TData::Resample(graph, view, oldResolution, newResolution, offset)] *)
Variable Resample : TData -> FViewInfo -> FIntPoint -> FIntPoint -> FIntPoint -> TData.

Record ViewData : Type := {
  User : TData;
  PixelSubset : FIntRect;
  FeatureLevel : Z;
  FramesSinceAccess : Z
}.

Record T_EGP_PerViewData : Type := {
  CleanupFrameThreshold : Z;
  CleanupPreventionByViewID : gset Z;
  dataByViewID : gmap Z ViewData
}.

Definition with_data (p : T_EGP_PerViewData) (m : gmap Z ViewData)
    : T_EGP_PerViewData :=
  {| CleanupFrameThreshold := CleanupFrameThreshold p;
     CleanupPreventionByViewID := CleanupPreventionByViewID p;
     dataByViewID := m |}.

Definition with_FramesSinceAccess (d : ViewData) (n : Z) : ViewData :=
  {| User := User d; PixelSubset := PixelSubset d;
     FeatureLevel := FeatureLevel d; FramesSinceAccess := n |}.

(** One iteration of the loop of [Tick]. [dataByViewID[viewID]] asserts
    that the key is present. *)
Definition Tick_view (p : T_EGP_PerViewData) (viewID : Z)
    (m : gmap Z ViewData) : option (gmap Z ViewData) :=
  if decide (viewID ∈ CleanupPreventionByViewID p) then Some m
  else
    data ← m !! viewID;
    if FramesSinceAccess data >? CleanupFrameThreshold p
    then Some (delete viewID m)
    else Some (<[viewID := with_FramesSinceAccess data
                             (wrap32 (FramesSinceAccess data + 1))]> m).

Fixpoint Tick_loop (p : T_EGP_PerViewData) (viewIDBuffer : list Z)
    (m : gmap Z ViewData) : option (gmap Z ViewData) :=
  match viewIDBuffer with
  | [] => Some m
  | viewID :: rest => m' ← Tick_view p viewID m; Tick_loop p rest m'
  end.

Definition Tick (th : ThreadCtx) (p : T_EGP_PerViewData)
    : option T_EGP_PerViewData :=
  if IsInRenderingThread th then
    let viewIDBuffer := (map_to_list (dataByViewID p)).*1 in
    m' ← Tick_loop p viewIDBuffer (dataByViewID p);
    Some (with_data p m')
  else None.

(** Returns the cache, the [TData] handed back to the caller and the
    calls made into the user's type. *)
Definition DataForView (th : ThreadCtx) (view : FViewInfo)
    (constructorArgs : NewDataArgs) (p : T_EGP_PerViewData)
    : option (T_EGP_PerViewData * TData * list UserCall) :=
  if IsInRenderingThread th then
    let viewID := ViewKey view in
    let '(data, calls) :=
      match dataByViewID p !! viewID with
      | Some data => (data, [])
      | None =>
          ({| User := TData_new view (ViewRect view) constructorArgs;
              PixelSubset := ViewRect view;
              FeatureLevel := GetFeatureLevel view;
              FramesSinceAccess := 0 |},
           [Call_Construct view (ViewRect view)])
      end in
    let data := with_FramesSinceAccess data 0 in
    let '(data, calls) :=
      if FIntRect_ne (PixelSubset data) (ViewRect view) then
        ({| User := Resample (User data) view
                      (Size (PixelSubset data)) (Size (ViewRect view))
                      (FIntPoint_sub (Min (ViewRect view)) (Min (PixelSubset data)));
            PixelSubset := ViewRect view;
            FeatureLevel := FeatureLevel data;
            FramesSinceAccess := FramesSinceAccess data |},
         calls ++ [Call_Resample view
                     (Size (PixelSubset data)) (Size (ViewRect view))
                     (FIntPoint_sub (Min (ViewRect view)) (Min (PixelSubset data)))])
      else (data, calls) in
    Some (with_data p (<[viewID := data]> (dataByViewID p)), User data, calls)
  else None.

Definition DoesDataExistForView (view : FViewInfo) (p : T_EGP_PerViewData) : bool :=
  bool_decide (is_Some (dataByViewID p !! ViewKey view)).

(** What one [Tick] does to the entry of one view, read off the loop
    body. *)
Definition Tick_entry (p : T_EGP_PerViewData) (viewID : Z) (entry : option ViewData)
    : option ViewData :=
  if decide (viewID ∈ CleanupPreventionByViewID p) then entry
  else
    data ← entry;
    if FramesSinceAccess data >? CleanupFrameThreshold p then None
    else Some (with_FramesSinceAccess data (wrap32 (FramesSinceAccess data + 1))).

(** [ForEachView]: the calls made to the lambda, in iteration order. *)
Definition ForEachView (p : T_EGP_PerViewData) : list (Z * TData * Z) :=
  (fun kv => (kv.1, User kv.2, FeatureLevel kv.2)) <$> map_to_list (dataByViewID p).

(** A frame history of the cache: ticks and accesses, in order. *)
Inductive Op : Type :=
  | OpTick
  | OpDataForView (view : FViewInfo) (constructorArgs : NewDataArgs).

Definition run_op (th : ThreadCtx) (o : Op) (p : T_EGP_PerViewData)
    : option T_EGP_PerViewData :=
  match o with
  | OpTick => Tick th p
  | OpDataForView view args =>
      r ← DataForView th view args p; Some r.1.1
  end.

Fixpoint run_ops (th : ThreadCtx) (ops : list Op) (p : T_EGP_PerViewData)
    : option T_EGP_PerViewData :=
  match ops with
  | [] => Some p
  | o :: rest => p' ← run_op th o p; run_ops th rest p'
  end.

Definition is_access_of (viewID : Z) (o : Op) : bool :=
  match o with
  | OpTick => false
  | OpDataForView view _ => ViewKey view =? viewID
  end.

Definition is_tick (o : Op) : bool :=
  match o with OpTick => true | _ => false end.

Definition count_ticks (ops : list Op) : nat :=
  length (List.filter is_tick ops).

(** [accessed_between_ticks viewID fresh ops]: no two ticks of [ops]
    follow each other without a [DataForView] of [viewID] in between;
    [fresh] tells whether the view was accessed since the last tick. *)
Fixpoint accessed_between_ticks (viewID : Z) (fresh : bool) (ops : list Op) : bool :=
  match ops with
  | [] => true
  | OpTick :: rest => fresh && accessed_between_ticks viewID false rest
  | OpDataForView view _ :: rest =>
      accessed_between_ticks viewID (fresh || (ViewKey view =? viewID)) rest
  end.

End PerViewData.

End PerViewData.

(** ** EGP::GetDynamicMeshElementRange *)

Module MeshBatches.

(** [TRange<int32>]: a pair of bounds. [FInt32Range(A, B)] is the
    half-open range from [A] inclusive to [B] exclusive; [Empty()] is the
    range between two exclusive bounds on the default value. *)
Inductive TRangeBound : Type :=
  | Exclusive (value : Z)
  | Inclusive (value : Z)
  | Open.

Record FInt32Range : Type := {
  LowerBound : TRangeBound;
  UpperBound : TRangeBound
}.

Definition FInt32Range_Empty : FInt32Range :=
  {| LowerBound := Exclusive 0; UpperBound := Exclusive 0 |}.

Definition FInt32Range_make (A B : Z) : FInt32Range :=
  {| LowerBound := Inclusive A; UpperBound := Exclusive B |}.

Record FPrimitiveViewRelevance : Type := {
  bStaticRelevance : bool;
  bDynamicRelevance : bool
}.

(** The three per-primitive arrays of [FViewInfo] the function indexes.
    Indexing an engine array out of range is a fatal range check. *)
Record FViewInfo : Type := {
  PrimitiveViewRelevanceMap : list FPrimitiveViewRelevance;
  PrimitiveVisibilityMap : list bool;
  DynamicMeshElementRanges : list (Z * Z)
}.

(** [primitiveIndex] is a [uint32]. [None] is a fired assertion. *)
Definition GetDynamicMeshElementRange (info : FViewInfo) (primitiveIndex : N)
    : option FInt32Range :=
  if (N.of_nat (length (PrimitiveViewRelevanceMap info)) <=? primitiveIndex)%N
  then Some FInt32Range_Empty
  else
    visible ← PrimitiveVisibilityMap info !! N.to_nat primitiveIndex;
    if visible : bool then
      ViewRelevance ← PrimitiveViewRelevanceMap info !! N.to_nat primitiveIndex;
      if bDynamicRelevance ViewRelevance then
        range ← DynamicMeshElementRanges info !! N.to_nat primitiveIndex;
        Some (FInt32Range_make range.1 range.2)
      else Some FInt32Range_Empty
    else Some FInt32Range_Empty.

(** *** GetStaticMeshElements and ForEachBatch *)

Definition GetLowerBoundValue (r : FInt32Range) : option Z :=
  match LowerBound r with
  | Exclusive v | Inclusive v => Some v
  | Open => None
  end.

Definition GetUpperBoundValue (r : FInt32Range) : option Z :=
  match UpperBound r with
  | Exclusive v | Inclusive v => Some v
  | Open => None
  end.

(** Indexing an engine array with an [int]: a negative or too large index
    is a fatal range check. *)
Definition at_index {A} (l : list A) (i : Z) : option A :=
  if i <? 0 then None else l !! Z.to_nat i.

(** A static mesh batch of a primitive: its [Id] indexes the view's
    [StaticMeshVisibilityMap]; [ownerProxy] is
    [PrimitiveSceneInfo->Proxy]. *)
Record FStaticMeshBatch : Type := {
  Id : Z;
  ownerProxy : Z
}.

Record FPrimitiveSceneInfo : Type := {
  IsIndexValid : bool;
  GetIndex : Z;
  StaticMeshes : list FStaticMeshBatch
}.

(** A primitive's scene proxy as the two functions use it. [GetLOD] is
    its answer for the view at hand; mesh batches are identified by
    numbers. *)
Record FPrimitiveSceneProxy : Type := {
  GetLOD : Z;
  GetMeshDescription : Z -> list Z;
  GetPrimitiveSceneInfo : option FPrimitiveSceneInfo
}.

Record FMeshBatchAndRelevance : Type := {
  Mesh : Z;
  PrimitiveSceneProxy : Z
}.

(** [~0ull] *)
Definition all_elements_mask : Z := 2 ^ 64 - 1.

(** [uint64 lod = proxy->GetLOD(&view)]: the [int] converted to
    [uint64], and converted back to [int32] for [GetMeshDescription].
    The shift [uint64{1} << lod] is undefined for a count of 64 or more,
    which is [None] here. Returns the mask and the extended [output]. *)
Definition GetStaticMeshElements (proxy : FPrimitiveSceneProxy) (output : list Z)
    : option (Z * list Z) :=
  let lod := GetLOD proxy mod 2 ^ 64 in
  let output := output ++ GetMeshDescription proxy (Int32.wrap32 lod) in
  if lod <? 64 then Some (Z.shiftl 1 lod, output) else None.

(** A call of the batch processor of [ForEachBatch]. *)
Inductive BatchKind : Type :=
  | StaticBatch (staticMesh : FStaticMeshBatch)
  | DynamicBatch (mesh : Z).

Record BatchCall : Type := {
  callBatch : BatchKind;
  elementMask : Z;
  callProxy : Z;
  staticMeshIDIfApplicable : Z
}.

(** The loop over [sceneInfo->StaticMeshes], from index [staticMeshIdx]. *)
Fixpoint static_loop (StaticMeshVisibilityMap : list bool)
    (staticMeshes : list FStaticMeshBatch) (staticMeshIdx : Z)
    : option (list BatchCall) :=
  match staticMeshes with
  | [] => Some []
  | staticMesh :: rest =>
      visible ← at_index StaticMeshVisibilityMap (Id staticMesh);
      calls ← static_loop StaticMeshVisibilityMap rest (staticMeshIdx + 1);
      Some (if visible : bool
            then {| callBatch := StaticBatch staticMesh;
                    elementMask := all_elements_mask;
                    callProxy := ownerProxy staticMesh;
                    staticMeshIDIfApplicable := staticMeshIdx |} :: calls
            else calls)
  end.

(** The loop over the dynamic element range: [count] iterations from
    [batchI]. *)
Fixpoint dynamic_loop (DynamicMeshElements : list FMeshBatchAndRelevance)
    (batchI : Z) (count : nat) : option (list BatchCall) :=
  match count with
  | O => Some []
  | S count' =>
      data ← at_index DynamicMeshElements batchI;
      calls ← dynamic_loop DynamicMeshElements (batchI + 1) count';
      Some ({| callBatch := DynamicBatch (Mesh data);
               elementMask := all_elements_mask;
               callProxy := PrimitiveSceneProxy data;
               staticMeshIDIfApplicable := -1 |} :: calls)
  end.

(** [ForEachBatch]: the calls made to the batch processor, in order.
    [StaticMeshVisibilityMap] and [DynamicMeshElements] are the two
    further arrays of the view that it reads. *)
Definition ForEachBatch (viewInfo : FViewInfo)
    (StaticMeshVisibilityMap : list bool)
    (DynamicMeshElements : list FMeshBatchAndRelevance)
    (proxy : option FPrimitiveSceneProxy) : option (list BatchCall) :=
  match proxy with
  | None => Some []
  | Some proxy =>
      match GetPrimitiveSceneInfo proxy with
      | None => Some []
      | Some sceneInfo =>
          if negb (IsIndexValid sceneInfo) then Some []
          else
            let primitiveIdx := GetIndex sceneInfo in
            visible ← at_index (PrimitiveVisibilityMap viewInfo) primitiveIdx;
            if negb visible then Some []
            else
              primitiveRelevance ←
                at_index (PrimitiveViewRelevanceMap viewInfo) primitiveIdx;
              staticCalls ←
                (if bStaticRelevance primitiveRelevance
                 then static_loop StaticMeshVisibilityMap (StaticMeshes sceneInfo) 0
                 else Some []);
              dynamicCalls ←
                (if bDynamicRelevance primitiveRelevance then
                   let primI := GetIndex sceneInfo in
                   dynamicElementRange ←
                     (if IsIndexValid sceneInfo then
                        visibleAgain ← at_index (PrimitiveVisibilityMap viewInfo) primI;
                        if visibleAgain : bool then
                          range ← at_index (DynamicMeshElementRanges viewInfo) primI;
                          Some (FInt32Range_make range.1 range.2)
                        else Some FInt32Range_Empty
                      else Some FInt32Range_Empty);
                   lower ← GetLowerBoundValue dynamicElementRange;
                   upper ← GetUpperBoundValue dynamicElementRange;
                   dynamic_loop DynamicMeshElements lower (Z.to_nat (upper - lower))
                 else Some []);
              Some (staticCalls ++ dynamicCalls)
      end
  end.

(** The three per-primitive arrays have one slot per primitive. *)
Definition consistent_view (info : FViewInfo) : Prop :=
  length (PrimitiveVisibilityMap info) = length (PrimitiveViewRelevanceMap info)
  /\ length (DynamicMeshElementRanges info) = length (PrimitiveViewRelevanceMap info).

End MeshBatches.

(** ** Components, passes and the pass subsystem *)

Module RenderPasses.

(** [ProxyData_t]: the bytes of a component's render proxy. *)
Definition ProxyData_t : Type := list Byte.byte.

(** 512 unless EGP_CUSTOMRENDERPASS_MAXPROXYBYTESIZE is defined. *)
Definition MaxInlineProxyByteSize : nat := 512.

(** The inline capacity of the per-tick component array. *)
Definition StackCount : nat := 256.

(** A component object. [IsValid] is the engine's [IsValid(c)] on the
    object; the last two members live on the render thread. *)
Record U_EGP_RenderPassComponent : Type := {
  IsValid : bool;
  Target : Z;
  EnabledInCustomPass : bool;
  GetAttachParent : Z;
  renderThreadProxy : ProxyData_t;
  renderThreadTarget : Z
}.

(** A pass object. [stopAllRendering] is the flag of the pass's
    scene-view-extension (set by [KillRendering]). *)
Record U_EGP_RenderPass : Type := {
  GetClass : Z;
  Components_GameThread : list Z;
  ComponentProxies_RenderThread : gmap Z ProxyData_t;
  stopAllRendering : bool;
  warnedAboutArrayHeapUsage : bool;
  warnedAboutProxyHeapUsage : bool
}.

Record U_EGP_RenderPassSubsystem : Type := {
  passes : gmap Z Z;
  dyingPassFences : gmap Z Z;
  isCurrentlyDying : bool
}.

Section Engine.

(** [float], only ever passed along. *)
Context {float : Type}.

(** The lambdas handed to [ENQUEUE_RENDER_COMMAND], with their captures.
    [RenderFence] is what [FRenderCommandFence::BeginFence] posts: the
    fence is complete once the render thread has reached it. *)
Inductive RenderCommand : Type :=
  | CopyCustomPassProxy (component : Z) (newProxy : ProxyData_t) (newTarget : Z)
  | UpdateCustomRenderPassProxies (_this : Z) (scene : Z) (deltaSeconds : float)
                                  (components : list Z)
  | InitPass (newPass : Z)
  | CleanupPass (pass : Z) (isExternalCall : bool)
  | RenderFence (fence : Z).

(** Everything the two threads share: the object store, the subsystem of
    the world, the render command queue and the fences reached so far.
    [worldScene] is [GetWorld()->Scene] when the subsystem has a world;
    [nextObject] numbers the objects made by [NewObject] and
    [std::make_unique]. *)
Record Engine : Type := {
  worldScene : option Z;
  subsystem : U_EGP_RenderPassSubsystem;
  passObjects : gmap Z U_EGP_RenderPass;
  componentObjects : gmap Z U_EGP_RenderPassComponent;
  renderQueue : list RenderCommand;
  completedFences : gset Z;
  nextObject : Z;
  engineLog : list LogLine
}.

(** *** A state and failure monad over [Engine] *)

Definition M (A : Type) : Type := Engine -> option (A * Engine).

Definition ret {A} (a : A) : M A := fun e => Some (a, e).
Definition bind {A B} (c : M A) (k : A -> M B) : M B :=
  fun e => match c e with
           | Some (a, e') => k a e'
           | None => None
           end.
Definition fail {A} : M A := fun _ => None.
Definition get : M Engine := fun e => Some (e, e).
Definition put (e : Engine) : M unit := fun _ => Some (tt, e).
Definition check (b : bool) : M unit := if b then ret tt else fail.
Definition lift {A} (o : option A) : M A :=
  match o with Some a => ret a | None => fail end.

Notation "x <-- c ;; k" := (bind c (fun x => k))
  (at level 100, c at next level, right associativity).
Notation "c ;;; k" := (bind c (fun _ => k))
  (at level 100, right associativity).

Fixpoint forM_ {A} (l : list A) (body : A -> M unit) : M unit :=
  match l with
  | [] => ret tt
  | a :: rest => body a ;;; forM_ rest body
  end.

Definition set_subsystem (s : U_EGP_RenderPassSubsystem) : M unit :=
  fun e => Some (tt, {| worldScene := worldScene e; subsystem := s;
                        passObjects := passObjects e;
                        componentObjects := componentObjects e;
                        renderQueue := renderQueue e;
                        completedFences := completedFences e;
                        nextObject := nextObject e;
                        engineLog := engineLog e |}).

Definition set_pass (p : Z) (o : U_EGP_RenderPass) : M unit :=
  fun e => Some (tt, {| worldScene := worldScene e; subsystem := subsystem e;
                        passObjects := <[p := o]> (passObjects e);
                        componentObjects := componentObjects e;
                        renderQueue := renderQueue e;
                        completedFences := completedFences e;
                        nextObject := nextObject e;
                        engineLog := engineLog e |}).

Definition set_component (c : Z) (o : U_EGP_RenderPassComponent) : M unit :=
  fun e => Some (tt, {| worldScene := worldScene e; subsystem := subsystem e;
                        passObjects := passObjects e;
                        componentObjects := <[c := o]> (componentObjects e);
                        renderQueue := renderQueue e;
                        completedFences := completedFences e;
                        nextObject := nextObject e;
                        engineLog := engineLog e |}).

(** [ENQUEUE_RENDER_COMMAND] *)
Definition ENQUEUE_RENDER_COMMAND (cmd : RenderCommand) : M unit :=
  fun e => Some (tt, {| worldScene := worldScene e; subsystem := subsystem e;
                        passObjects := passObjects e;
                        componentObjects := componentObjects e;
                        renderQueue := renderQueue e ++ [cmd];
                        completedFences := completedFences e;
                        nextObject := nextObject e;
                        engineLog := engineLog e |}).

Definition UE_LOG (l : LogLine) : M unit :=
  fun e => Some (tt, {| worldScene := worldScene e; subsystem := subsystem e;
                        passObjects := passObjects e;
                        componentObjects := componentObjects e;
                        renderQueue := renderQueue e;
                        completedFences := completedFences e;
                        nextObject := nextObject e;
                        engineLog := engineLog e ++ [l] |}).

(** A fresh object identity. *)
Definition new_object : M Z :=
  fun e => Some (nextObject e,
                 {| worldScene := worldScene e; subsystem := subsystem e;
                    passObjects := passObjects e;
                    componentObjects := componentObjects e;
                    renderQueue := renderQueue e;
                    completedFences := completedFences e;
                    nextObject := nextObject e + 1;
                    engineLog := engineLog e |}).

Definition mark_fence_complete (f : Z) : M unit :=
  fun e => Some (tt, {| worldScene := worldScene e; subsystem := subsystem e;
                        passObjects := passObjects e;
                        componentObjects := componentObjects e;
                        renderQueue := renderQueue e;
                        completedFences := {[f]} ∪ completedFences e;
                        nextObject := nextObject e;
                        engineLog := engineLog e |}).

(** Dereferencing an object pointer; a missing object is a crash. *)
Definition deref_pass (p : Z) : M U_EGP_RenderPass :=
  e <-- get ;; lift (passObjects e !! p).
Definition deref_component (c : Z) : M U_EGP_RenderPassComponent :=
  e <-- get ;; lift (componentObjects e !! c).

(** [IsValid(c)] on a pointer. *)
Definition IsValid_ptr (e : Engine) (c : Z) : bool :=
  match componentObjects e !! c with
  | Some o => IsValid o
  | None => false
  end.

(** *** U_EGP_RenderPass *)

Definition with_Components_GameThread (o : U_EGP_RenderPass) (cs : list Z)
    : U_EGP_RenderPass :=
  {| GetClass := GetClass o; Components_GameThread := cs;
     ComponentProxies_RenderThread := ComponentProxies_RenderThread o;
     stopAllRendering := stopAllRendering o;
     warnedAboutArrayHeapUsage := warnedAboutArrayHeapUsage o;
     warnedAboutProxyHeapUsage := warnedAboutProxyHeapUsage o |}.

Definition with_ComponentProxies_RenderThread (o : U_EGP_RenderPass)
    (m : gmap Z ProxyData_t) : U_EGP_RenderPass :=
  {| GetClass := GetClass o; Components_GameThread := Components_GameThread o;
     ComponentProxies_RenderThread := m;
     stopAllRendering := stopAllRendering o;
     warnedAboutArrayHeapUsage := warnedAboutArrayHeapUsage o;
     warnedAboutProxyHeapUsage := warnedAboutProxyHeapUsage o |}.

Definition with_stopAllRendering (o : U_EGP_RenderPass) (b : bool)
    : U_EGP_RenderPass :=
  {| GetClass := GetClass o; Components_GameThread := Components_GameThread o;
     ComponentProxies_RenderThread := ComponentProxies_RenderThread o;
     stopAllRendering := b;
     warnedAboutArrayHeapUsage := warnedAboutArrayHeapUsage o;
     warnedAboutProxyHeapUsage := warnedAboutProxyHeapUsage o |}.

Definition with_warnedAboutArrayHeapUsage (o : U_EGP_RenderPass) (b : bool)
    : U_EGP_RenderPass :=
  {| GetClass := GetClass o; Components_GameThread := Components_GameThread o;
     ComponentProxies_RenderThread := ComponentProxies_RenderThread o;
     stopAllRendering := stopAllRendering o;
     warnedAboutArrayHeapUsage := b;
     warnedAboutProxyHeapUsage := warnedAboutProxyHeapUsage o |}.

Definition with_warnedAboutProxyHeapUsage (o : U_EGP_RenderPass) (b : bool)
    : U_EGP_RenderPass :=
  {| GetClass := GetClass o; Components_GameThread := Components_GameThread o;
     ComponentProxies_RenderThread := ComponentProxies_RenderThread o;
     stopAllRendering := stopAllRendering o;
     warnedAboutArrayHeapUsage := warnedAboutArrayHeapUsage o;
     warnedAboutProxyHeapUsage := b |}.

(** [TSet::Add]: nothing changes when the element is already there. *)
Definition TSet_Add (c : Z) (s : list Z) : list Z :=
  if bool_decide (c ∈ s) then s else s ++ [c].

Definition TSet_Remove (c : Z) (s : list Z) : list Z :=
  List.filter (fun c' => negb (c' =? c)) s.

Definition RegisterPassComponent (th : ThreadCtx) (_this component : Z) : M unit :=
  check (IsInGameThread th) ;;;
  o <-- deref_pass _this ;;
  set_pass _this (with_Components_GameThread o
                    (TSet_Add component (Components_GameThread o))).

Definition UnregisterPassComponent (th : ThreadCtx) (_this component : Z) : M unit :=
  check (IsInGameThread th) ;;;
  o <-- deref_pass _this ;;
  set_pass _this (with_Components_GameThread o
                    (TSet_Remove component (Components_GameThread o))).

(** The game-thread half of the per-frame tick: snapshot the valid
    registered components and post one command carrying them. *)
Definition collect_valid (registered : list Z) : M (list Z) :=
  e <-- get ;; ret (List.filter (IsValid_ptr e) registered).

Definition Tick_GameThread (_this : Z) (thisWorldScene : Z) (deltaSeconds : float)
    : M unit :=
  o <-- deref_pass _this ;;
  components <-- collect_valid (Components_GameThread o) ;;
  (if negb (warnedAboutArrayHeapUsage o) && (StackCount <? length components)%nat
   then UE_LOG (Warning_ArrayHeapUsage (length components)) ;;;
        set_pass _this (with_warnedAboutArrayHeapUsage o true)
   else ret tt) ;;;
  ENQUEUE_RENDER_COMMAND
    (UpdateCustomRenderPassProxies _this thisWorldScene deltaSeconds components).

(** *** U_EGP_RenderPassComponent::TickComponent

    [newProxy] is what the component's [ConstructProxyData_GameThread]
    wrote this frame. [Cast<UPrimitiveComponent>(object)] is the object
    itself when it is a primitive component and null otherwise (and for
    null); [IsA_UPrimitiveComponent] is the engine's class test. *)
Definition Cast_UPrimitiveComponent (IsA_UPrimitiveComponent : Z -> bool)
    (object : Z) : Z :=
  if negb (object =? 0) && IsA_UPrimitiveComponent object then object else 0.

Definition TickComponent (IsA_UPrimitiveComponent : Z -> bool) (_this : Z)
    (newProxy : ProxyData_t) : M unit :=
  o <-- deref_component _this ;;
  let newTarget :=
    Cast_UPrimitiveComponent IsA_UPrimitiveComponent (GetAttachParent o) in
  ENQUEUE_RENDER_COMMAND (CopyCustomPassProxy _this newProxy newTarget).

(** *** The render thread *)

(** The pass's overridable per-frame render-thread hook. *)
Variable Tick_RenderThread : U_EGP_RenderPass -> Z -> float -> U_EGP_RenderPass.

(** The hook of the base class: an empty body. *)
Definition Tick_RenderThread_base (o : U_EGP_RenderPass) (thisScene : Z)
    (gameThreadDeltaSeconds : float) : U_EGP_RenderPass := o.

Definition GetProxy_RenderThread (th : ThreadCtx) (c : Z) : M ProxyData_t :=
  check (IsInRenderingThread th) ;;;
  o <-- deref_component c ;;
  ret (renderThreadProxy o).

(** One iteration of the loop of the UpdateCustomRenderPassProxies lambda. *)
Definition add_component_proxy (th : ThreadCtx) (_this c : Z) : M unit :=
  proxy <-- GetProxy_RenderThread th c ;;
  o <-- deref_pass _this ;;
  (if negb (warnedAboutProxyHeapUsage o) && (MaxInlineProxyByteSize <? length proxy)%nat
   then UE_LOG (Warning_ProxyHeapUsage (length proxy)) ;;;
        set_pass _this (with_warnedAboutProxyHeapUsage o true)
   else ret tt) ;;;
  o <-- deref_pass _this ;;
  set_pass _this (with_ComponentProxies_RenderThread o
                    (<[c := proxy]> (ComponentProxies_RenderThread o))).

(** The first half of the lambda: [Reset()] then the loop. *)
Definition rebuild_proxies (th : ThreadCtx) (_this : Z) (components : list Z)
    : M unit :=
  o <-- deref_pass _this ;;
  set_pass _this (with_ComponentProxies_RenderThread o ∅) ;;;
  forM_ components (add_component_proxy th _this).

Definition run_command (th : ThreadCtx) (cmd : RenderCommand) : M unit :=
  match cmd with
  | CopyCustomPassProxy c newProxy newTarget =>
      o <-- deref_component c ;;
      set_component c {| IsValid := IsValid o; Target := Target o;
                         EnabledInCustomPass := EnabledInCustomPass o;
                         GetAttachParent := GetAttachParent o;
                         renderThreadProxy := newProxy;
                         renderThreadTarget := newTarget |}
  | UpdateCustomRenderPassProxies _this scene deltaSeconds components =>
      rebuild_proxies th _this components ;;;
      o <-- deref_pass _this ;;
      set_pass _this (Tick_RenderThread o scene deltaSeconds)
  | InitPass newPass =>
      (* InitThisPass_RenderThread() { } *)
      _ <-- deref_pass newPass ;; ret tt
  | CleanupPass pass isExternalCall =>
      (* CleanupThisPass_RenderThread: SceneViewExtension->KillRendering() *)
      o <-- deref_pass pass ;;
      set_pass pass (with_stopAllRendering o true)
  | RenderFence fence => mark_fence_complete fence
  end.

(** The render thread takes the oldest command and runs it. *)
Definition render_thread_step : M unit :=
  fun e =>
    match renderQueue e with
    | [] => Some (tt, e)
    | cmd :: rest =>
        run_command RenderThread cmd
          {| worldScene := worldScene e; subsystem := subsystem e;
             passObjects := passObjects e;
             componentObjects := componentObjects e;
             renderQueue := rest;
             completedFences := completedFences e;
             nextObject := nextObject e;
             engineLog := engineLog e |}
    end.

Fixpoint render_thread_steps (n : nat) : M unit :=
  match n with
  | O => ret tt
  | S n' => render_thread_step ;;; render_thread_steps n'
  end.

(** *** U_EGP_RenderPassSubsystem *)

Definition with_passes (s : U_EGP_RenderPassSubsystem) (m : gmap Z Z)
    : U_EGP_RenderPassSubsystem :=
  {| passes := m; dyingPassFences := dyingPassFences s;
     isCurrentlyDying := isCurrentlyDying s |}.

Definition with_dyingPassFences (s : U_EGP_RenderPassSubsystem) (m : gmap Z Z)
    : U_EGP_RenderPassSubsystem :=
  {| passes := passes s; dyingPassFences := m;
     isCurrentlyDying := isCurrentlyDying s |}.

Definition with_isCurrentlyDying (s : U_EGP_RenderPassSubsystem) (b : bool)
    : U_EGP_RenderPassSubsystem :=
  {| passes := passes s; dyingPassFences := dyingPassFences s;
     isCurrentlyDying := b |}.

Definition get_subsystem : M U_EGP_RenderPassSubsystem :=
  e <-- get ;; ret (subsystem e).

(** [check(GetWorld())] *)
Definition GetWorld : M Z :=
  e <-- get ;; lift (worldScene e).

(** A pass as [NewObject] and [InitThisPass_GameThread] leave it. *)
Definition NewObject_pass (type : Z) : U_EGP_RenderPass :=
  {| GetClass := type; Components_GameThread := [];
     ComponentProxies_RenderThread := ∅;
     stopAllRendering := false;
     warnedAboutArrayHeapUsage := false;
     warnedAboutProxyHeapUsage := false |}.

Definition GetPass (th : ThreadCtx) (type : Z) (createIfNeeded : bool)
    : M (option Z) :=
  check (IsInGameThread th) ;;;
  _ <-- GetWorld ;;
  s <-- get_subsystem ;;
  match passes s !! type with
  | Some found => ret (Some found)
  | None =>
      if negb createIfNeeded then ret None
      else
        newPass <-- new_object ;;
        set_pass newPass (NewObject_pass type) ;;;
        set_subsystem (with_passes s (<[type := newPass]> (passes s))) ;;;
        ENQUEUE_RENDER_COMMAND (InitPass newPass) ;;;
        ret (Some newPass)
  end.

(** The tail of [DestroyPass_Impl_GameThread]: the fence is added to
    [dyingPassFences], the cleanup command is posted and the fence begun. *)
Definition fenced_cleanup (pass : Z) (isExternalCall : bool) : M bool :=
  fence <-- new_object ;;
  s <-- get_subsystem ;;
  set_subsystem (with_dyingPassFences s (<[pass := fence]> (dyingPassFences s))) ;;;
  _ <-- GetWorld ;;
  ENQUEUE_RENDER_COMMAND (CleanupPass pass isExternalCall) ;;;
  ENQUEUE_RENDER_COMMAND (RenderFence fence) ;;;
  ret true.

Definition DestroyPass_Impl_GameThread (th : ThreadCtx) (type : Z)
    (isExternalCall : bool) : M bool :=
  check (IsInGameThread th) ;;;
  s <-- get_subsystem ;;
  match passes s !! type with
  | None => ret false
  | Some pass =>
      if isCurrentlyDying s then
        if negb isExternalCall then ret true
        else fenced_cleanup pass isExternalCall
      else
        check isExternalCall ;;;
        set_subsystem (with_passes s (delete type (passes s))) ;;;
        fenced_cleanup pass isExternalCall
  end.

Definition DestroyPass_GameThread (th : ThreadCtx) (type : Z) : M bool :=
  DestroyPass_Impl_GameThread th type true.

Definition BeginDestroy (th : ThreadCtx) : M unit :=
  s <-- get_subsystem ;;
  set_subsystem (with_isCurrentlyDying s true) ;;;
  forM_ (map_to_list (passes s))
        (fun type =>
           o <-- deref_pass type.2 ;;
           _ <-- DestroyPass_Impl_GameThread th (GetClass o) false ;;
           ret tt) ;;;
  s <-- get_subsystem ;;
  set_subsystem (with_passes s ∅).

Definition IsFenceComplete (e : Engine) (fence : Z) : bool :=
  bool_decide (fence ∈ completedFences e).

(** [Algo::AllOf] over [dyingPassFences]. *)
Definition IsReadyForFinishDestroy (e : Engine) : bool :=
  forallb (fun kvp => IsFenceComplete e kvp.2)
          (map_to_list (dyingPassFences (subsystem e))).

Definition FinishDestroy : M unit :=
  s <-- get_subsystem ;;
  set_subsystem (with_dyingPassFences s ∅).

(** The subsystem's per-frame tick: the passes are copied to a buffer
    which is then iterated. The buffer is a member that is empty between
    ticks ([check(passBuffer.IsEmpty())] on entry, [Empty()] on exit), so
    it is a local here. The order in which the range-for walks the
    [TMap] is the engine's; [TMap_order] gives it. *)
Definition Tick (TMap_order : gmap Z Z -> list (Z * Z)) (deltaSeconds : float)
    : M unit :=
  scene <-- GetWorld ;;
  s <-- get_subsystem ;;
  let passBuffer := (TMap_order (passes s)).*2 in
  forM_ passBuffer (fun pass => Tick_GameThread pass scene deltaSeconds).

(** A world with a scene, an empty subsystem and nothing queued. *)
Definition Engine_init (scene : Z) : Engine :=
  {| worldScene := Some scene;
     subsystem := {| passes := ∅; dyingPassFences := ∅; isCurrentlyDying := false |};
     passObjects := ∅;
     componentObjects := ∅;
     renderQueue := [];
     completedFences := ∅;
     nextObject := 1;
     engineLog := [] |}.

(** Running a computation for its final state. *)
Definition exec {A} (c : M A) (e : Engine) : option Engine :=
  r ← c e; Some r.2.

(** *** Component activation and deactivation

    [GetPassType()] is the component's virtual answer and
    [DestructProxyData_GameThread] its virtual destructor hook; both are
    arguments. The component lives in the world of this engine state, so
    [IsValid(world)] is whether there is one, and the subsystem is that
    world's. The line [BeginPlay] logs is handed back. *)

Inductive PlayLog : Type :=
  (* "%s component created but there's no world/subsystem for custom render passes! ..." *)
  | Error_NoWorldOrSubsystem.

Definition BeginPlay (th : ThreadCtx) (_this passType : Z) : M (list PlayLog) :=
  e <-- get ;;
  match worldScene e with
  | None => ret [Error_NoWorldOrSubsystem]
  | Some _ =>
      pass <-- GetPass th passType true ;;
      e' <-- get ;;
      match pass with
      | Some p =>
          if bool_decide (is_Some (passObjects e' !! p))
          then RegisterPassComponent th p _this ;;; ret []
          else ret [Error_NoWorldOrSubsystem]
      | None => ret [Error_NoWorldOrSubsystem]
      end
  end.

Definition EndPlay (th : ThreadCtx) (_this passType : Z)
    (DestructProxyData_GameThread : M unit) : M unit :=
  e <-- get ;;
  (match worldScene e with
   | None => ret tt
   | Some _ =>
       pass <-- GetPass th passType true ;;
       e' <-- get ;;
       match pass with
       | Some p =>
           if bool_decide (is_Some (passObjects e' !! p))
           then UnregisterPassComponent th p _this
           else ret tt
       | None => ret tt
       end
   end) ;;;
  DestructProxyData_GameThread.

(** *** T_EGP_RenderPassSceneViewExtension::ForEachComponent_RenderThread

    [SceneProxy] gives the scene proxy of a primitive component (0 when
    it has none); a component's target is its [renderThreadTarget] (0
    when null). The result lists the calls made to the lambda. *)

Record ComponentVisit : Type := {
  visitedComponent : Z;
  visitedProxy : ProxyData_t;
  visitedPrimitive : Z;
  visitedSceneProxy : Z
}.

Fixpoint ForEachComponent_loop (e : Engine) (SceneProxy : Z -> Z)
    (entries : list (Z * ProxyData_t)) : list ComponentVisit :=
  match entries with
  | [] => []
  | (_component, proxyBytes) :: rest =>
      match componentObjects e !! _component with
      | Some o =>
          if IsValid o then
            let primitiveComponent := renderThreadTarget o in
            if (primitiveComponent =? 0) || (SceneProxy primitiveComponent =? 0)
            then []  (* return *)
            else {| visitedComponent := _component;
                    visitedProxy := proxyBytes;
                    visitedPrimitive := primitiveComponent;
                    visitedSceneProxy := SceneProxy primitiveComponent |}
                 :: ForEachComponent_loop e SceneProxy rest
          else ForEachComponent_loop e SceneProxy rest  (* continue *)
      | None => ForEachComponent_loop e SceneProxy rest  (* continue *)
      end
  end.

(** [usesComponents] is whether [ComponentType] is not [void]. The
    order in which the range-for walks the pass's [TMap] is the engine's;
    [TMap_order] gives it. *)
Definition ForEachComponent_RenderThread (th : ThreadCtx) (usesComponents : bool)
    (SceneProxy : Z -> Z)
    (TMap_order : gmap Z ProxyData_t -> list (Z * ProxyData_t))
    (Pass : Z) : M (list ComponentVisit) :=
  check (IsInRenderingThread th) ;;;
  check usesComponents ;;;
  o <-- deref_pass Pass ;;
  e <-- get ;;
  ret (ForEachComponent_loop e SceneProxy
         (TMap_order (ComponentProxies_RenderThread o))).

(** *** Vocabulary for the properties *)

(** Every fence of a dying pass has been reached by the render thread. *)
Definition all_fences_complete (e : Engine) : Prop :=
  forall pass fence,
    dyingPassFences (subsystem e) !! pass = Some fence ->
    fence ∈ completedFences e.

(** Every fence of a dying pass is complete or still ahead of the render
    thread in its queue. *)
Definition fences_begun (e : Engine) : Prop :=
  forall pass fence,
    dyingPassFences (subsystem e) !! pass = Some fence ->
    fence ∈ completedFences e \/ In (RenderFence fence) (renderQueue e).

(** [e'] differs from [e] at most in its objects and its log: the world,
    the subsystem, the queue, the fences and the allocator are the same. *)
Definition only_objects_changed (e e' : Engine) : Prop :=
  worldScene e' = worldScene e
  /\ subsystem e' = subsystem e
  /\ renderQueue e' = renderQueue e
  /\ completedFences e' = completedFences e
  /\ nextObject e' = nextObject e.

Definition touches_only_objects {A} (c : M A) : Prop :=
  forall e a e', c e = Some (a, e') -> only_objects_changed e e'.

(** Two component objects that differ at most in [EnabledInCustomPass]. *)
Definition same_but_enabled (a b : U_EGP_RenderPassComponent) : Prop :=
  IsValid a = IsValid b
  /\ Target a = Target b
  /\ GetAttachParent a = GetAttachParent b
  /\ renderThreadProxy a = renderThreadProxy b
  /\ renderThreadTarget a = renderThreadTarget b.

(** Two engine states that differ at most in the [EnabledInCustomPass]
    flags of their components. *)
Definition same_up_to_enabled (e1 e2 : Engine) : Prop :=
  worldScene e1 = worldScene e2
  /\ subsystem e1 = subsystem e2
  /\ passObjects e1 = passObjects e2
  /\ renderQueue e1 = renderQueue e2
  /\ completedFences e1 = completedFences e2
  /\ nextObject e1 = nextObject e2
  /\ engineLog e1 = engineLog e2
  /\ forall c, option_Forall2 same_but_enabled
                 (componentObjects e1 !! c) (componentObjects e2 !! c).

(** Two computations that, run from such states, fail together or end in
    such states with results related by [RA]. *)
Definition M_rel {A} (RA : A -> A -> Prop) (c1 c2 : M A) : Prop :=
  forall e1 e2,
    same_up_to_enabled e1 e2 ->
    option_Forall2 (fun r1 r2 => RA r1.1 r2.1 /\ same_up_to_enabled r1.2 r2.2)
                   (c1 e1) (c2 e2).

(** An iteration order lists the entries of the map, each once. *)
Definition enumerates {V : Type} (TMap_order : gmap Z V -> list (Z * V))
    (m : gmap Z V) : Prop :=
  TMap_order m ≡ₚ map_to_list m.

(** The snapshot [Tick_GameThread] takes of a pass: its registered
    components that are valid. *)
Definition valid_components (e : Engine) (pass : Z) : list Z :=
  match passObjects e !! pass with
  | Some o => List.filter (IsValid_ptr e) (Components_GameThread o)
  | None => []
  end.

(** The engine state with another render queue. *)
Definition with_renderQueue (e : Engine) (q : list RenderCommand) : Engine :=
  {| worldScene := worldScene e; subsystem := subsystem e;
     passObjects := passObjects e;
     componentObjects := componentObjects e;
     renderQueue := q;
     completedFences := completedFences e;
     nextObject := nextObject e;
     engineLog := engineLog e |}.

(** The component has a target on the render thread and the target has a
    scene proxy. *)
Definition has_scene_proxy (e : Engine) (SceneProxy : Z -> Z) (c : Z) : bool :=
  match componentObjects e !! c with
  | Some o =>
      negb (renderThreadTarget o =? 0)
      && negb (SceneProxy (renderThreadTarget o) =? 0)
  | None => false
  end.

End Engine.

Arguments RenderCommand : clear implicits.
Arguments Engine : clear implicits.
Arguments M : clear implicits.

End RenderPasses.

(** * Sample inputs *)

Module Samples.

Import PerViewData.

(** User data that counts how often it was resampled. *)
Definition Counter_new (_ : FViewInfo) (_ : FIntRect) (_ : unit) : Z := 0.
Definition Counter_Resample (u : Z) (_ : FViewInfo) (_ _ _ : FIntPoint) : Z := u + 1.

Definition rect (x0 y0 x1 y1 : Z) : FIntRect :=
  {| Min := {| X := x0; Y := y0 |}; Max := {| X := x1; Y := y1 |} |}.

Definition entry7 : @ViewData Z :=
  {| User := 0; PixelSubset := rect 0 0 100 100;
     FeatureLevel := 3; FramesSinceAccess := 0 |}.

Definition entry9 : @ViewData Z :=
  {| User := 0; PixelSubset := rect 0 0 50 50;
     FeatureLevel := 3; FramesSinceAccess := 0 |}.

(** The default threshold, view 9 protected, views 7 and 9 cached. *)
Definition cache : @T_EGP_PerViewData Z :=
  {| CleanupFrameThreshold := 60;
     CleanupPreventionByViewID := {[9]};
     dataByViewID := <[7 := entry7]> {[9 := entry9]} |}.

Definition view7_resized : FViewInfo :=
  {| ViewKey := 7; ViewRect := rect 10 20 50 60; GetFeatureLevel := 3 |}.

Definition view9 : FViewInfo :=
  {| ViewKey := 9; ViewRect := rect 0 0 50 50; GetFeatureLevel := 3 |}.

Definition view7 : FViewInfo :=
  {| ViewKey := 7; ViewRect := rect 0 0 100 100; GetFeatureLevel := 3 |}.

(** Two ticks during which view 7 is left alone. *)
Definition history : list (@Op unit) :=
  [OpTick; OpDataForView view9 tt; OpTick].

(** Three ticks with view 7 accessed before each. *)
Definition busy_history : list (@Op unit) :=
  [OpDataForView view7 tt; OpTick; OpDataForView view9 tt;
   OpDataForView view7_resized tt; OpTick; OpDataForView view7 tt; OpTick].

(** A world whose subsystem holds one pass of class 5 (object 1), as
    [GetPass(5, true)] leaves it. *)
Definition engine_with_pass : RenderPasses.Engine unit :=
  {| RenderPasses.worldScene := Some 100;
     RenderPasses.subsystem :=
       {| RenderPasses.passes := {[5 := 1]};
          RenderPasses.dyingPassFences := ∅;
          RenderPasses.isCurrentlyDying := false |};
     RenderPasses.passObjects := {[1 := RenderPasses.NewObject_pass 5]};
     RenderPasses.componentObjects := ∅;
     RenderPasses.renderQueue := [RenderPasses.InitPass 1];
     RenderPasses.completedFences := ∅;
     RenderPasses.nextObject := 2;
     RenderPasses.engineLog := [] |}.

(** The same world after a pass of another class (object 3) was
    destroyed: its cleanup and the marker of its fence 4 are still
    queued. *)
Definition engine_with_dying_pass : RenderPasses.Engine unit :=
  {| RenderPasses.worldScene := Some 100;
     RenderPasses.subsystem :=
       {| RenderPasses.passes := {[5 := 1]};
          RenderPasses.dyingPassFences := {[3 := 4]};
          RenderPasses.isCurrentlyDying := false |};
     RenderPasses.passObjects :=
       <[1 := RenderPasses.NewObject_pass 5]> {[3 := RenderPasses.NewObject_pass 6]};
     RenderPasses.componentObjects := ∅;
     RenderPasses.renderQueue :=
       [RenderPasses.CleanupPass 3 true; RenderPasses.RenderFence 4];
     RenderPasses.completedFences := ∅;
     RenderPasses.nextObject := 5;
     RenderPasses.engineLog := [] |}.

(** A valid component with the given flag and published proxy. *)
Definition component (enabled : bool) (proxy : RenderPasses.ProxyData_t)
    : RenderPasses.U_EGP_RenderPassComponent :=
  {| RenderPasses.IsValid := true;
     RenderPasses.Target := 0;
     RenderPasses.EnabledInCustomPass := enabled;
     RenderPasses.GetAttachParent := 20;
     RenderPasses.renderThreadProxy := proxy;
     RenderPasses.renderThreadTarget := 20 |}.

Definition components (enabled : bool)
    : gmap Z RenderPasses.U_EGP_RenderPassComponent :=
  <[10 := component enabled [Byte.x01]]>
    (<[11 := component enabled [Byte.x02]]>
       {[12 := component enabled [Byte.x03]]}).

Definition pass_with_10_11 : RenderPasses.U_EGP_RenderPass :=
  RenderPasses.with_Components_GameThread (RenderPasses.NewObject_pass 5) [10; 11].

(** Pass 1 initialised, components 10 and 11 registered with it,
    component 12 not; every component has the given flag. *)
Definition engine_with_components (enabled : bool) : RenderPasses.Engine unit :=
  {| RenderPasses.worldScene := Some 100;
     RenderPasses.subsystem :=
       {| RenderPasses.passes := {[5 := 1]};
          RenderPasses.dyingPassFences := ∅;
          RenderPasses.isCurrentlyDying := false |};
     RenderPasses.passObjects := {[1 := pass_with_10_11]};
     RenderPasses.componentObjects := components enabled;
     RenderPasses.renderQueue := [];
     RenderPasses.completedFences := ∅;
     RenderPasses.nextObject := 2;
     RenderPasses.engineLog := [] |}.

(** The same world before any component registered. *)
Definition engine_before_registration : RenderPasses.Engine unit :=
  {| RenderPasses.worldScene := Some 100;
     RenderPasses.subsystem :=
       {| RenderPasses.passes := {[5 := 1]};
          RenderPasses.dyingPassFences := ∅;
          RenderPasses.isCurrentlyDying := false |};
     RenderPasses.passObjects := {[1 := RenderPasses.NewObject_pass 5]};
     RenderPasses.componentObjects := components true;
     RenderPasses.renderQueue := [RenderPasses.InitPass 1];
     RenderPasses.completedFences := ∅;
     RenderPasses.nextObject := 2;
     RenderPasses.engineLog := [] |}.

(** A frame in which components 10 and 11 register (12 does not), the
    pass ticks and the render thread catches up; and a frame in which 11
    unregisters, the pass ticks again and the render thread catches up
    again. *)
Definition first_frame : RenderPasses.M unit unit :=
  RenderPasses.bind (RenderPasses.RegisterPassComponent GameThread 1 10) (fun _ =>
  RenderPasses.bind (RenderPasses.RegisterPassComponent GameThread 1 11) (fun _ =>
  RenderPasses.bind (RenderPasses.Tick_GameThread 1 100 tt) (fun _ =>
  RenderPasses.render_thread_steps RenderPasses.Tick_RenderThread_base 2))).

Definition second_frame : RenderPasses.M unit unit :=
  RenderPasses.bind (RenderPasses.UnregisterPassComponent GameThread 1 11) (fun _ =>
  RenderPasses.bind (RenderPasses.Tick_GameThread 1 100 tt) (fun _ =>
  RenderPasses.render_thread_steps RenderPasses.Tick_RenderThread_base 1)).

Definition table_of_pass_1 (e : RenderPasses.Engine unit)
    : option (gmap Z RenderPasses.ProxyData_t) :=
  RenderPasses.ComponentProxies_RenderThread <$> RenderPasses.passObjects e !! 1.

(** A blacklist holding 1, and a run of add, remove and clear requests. *)
Definition blacklist_of_1 : EGP.FilterList Z :=
  {| EGP.isWhitelist := Some false; EGP.elements := [1] |}.

Definition requests : list (EGP.Mutation Z) :=
  [EGP.MAdd 1 true; EGP.MAdd 2 false; EGP.MRemove 1; EGP.MClear; EGP.MAdd 3 false].

(** The iteration order of a [TMap] that was filled in the order [keys]
    and never removed from. *)
Definition filled_in_order {V : Type} (keys : list Z) (m : gmap Z V)
    : list (Z * V) :=
  omap (fun k => pair k <$> m !! k) keys.

(** A world in which the pass of class 6 (object 3) has been destroyed
    and cleaned up: its fence 4 is complete. Pass 1 is alive, and its
    initialisation and one update are still queued. *)
Definition engine_after_cleanup : RenderPasses.Engine unit :=
  {| RenderPasses.worldScene := Some 100;
     RenderPasses.subsystem :=
       {| RenderPasses.passes := {[5 := 1]};
          RenderPasses.dyingPassFences := {[3 := 4]};
          RenderPasses.isCurrentlyDying := false |};
     RenderPasses.passObjects :=
       <[1 := RenderPasses.NewObject_pass 5]>
         {[3 := RenderPasses.with_stopAllRendering (RenderPasses.NewObject_pass 6) true]};
     RenderPasses.componentObjects := ∅;
     RenderPasses.renderQueue :=
       [RenderPasses.InitPass 1;
        RenderPasses.UpdateCustomRenderPassProxies 1 100 tt []];
     RenderPasses.completedFences := {[4]};
     RenderPasses.nextObject := 5;
     RenderPasses.engineLog := [] |}.

(** The same world once the render thread has run both commands. *)
Definition engine_after_cleanup_idle : RenderPasses.Engine unit :=
  RenderPasses.with_renderQueue engine_after_cleanup [].

(** A world with two passes, of class 6 (object 1, made first) and of
    class 5 (object 2, made second). *)
Definition engine_with_two_passes : RenderPasses.Engine unit :=
  {| RenderPasses.worldScene := Some 100;
     RenderPasses.subsystem :=
       {| RenderPasses.passes := <[6 := 1]> {[5 := 2]};
          RenderPasses.dyingPassFences := ∅;
          RenderPasses.isCurrentlyDying := false |};
     RenderPasses.passObjects :=
       <[1 := RenderPasses.NewObject_pass 6]> {[2 := pass_with_10_11]};
     RenderPasses.componentObjects := components true;
     RenderPasses.renderQueue := [];
     RenderPasses.completedFences := ∅;
     RenderPasses.nextObject := 3;
     RenderPasses.engineLog := [] |}.

(** A valid component that has no target on the render thread yet. *)
Definition untargeted_component : RenderPasses.U_EGP_RenderPassComponent :=
  {| RenderPasses.IsValid := true;
     RenderPasses.Target := 0;
     RenderPasses.EnabledInCustomPass := true;
     RenderPasses.GetAttachParent := 0;
     RenderPasses.renderThreadProxy := [Byte.x02];
     RenderPasses.renderThreadTarget := 0 |}.

Definition proxy_table : gmap Z RenderPasses.ProxyData_t :=
  <[10 := [Byte.x01]]> (<[11 := [Byte.x02]]> {[12 := [Byte.x03]]}).

Definition pass_with_table : RenderPasses.U_EGP_RenderPass :=
  RenderPasses.with_ComponentProxies_RenderThread
    (RenderPasses.with_Components_GameThread (RenderPasses.NewObject_pass 5)
       [10; 11; 12])
    proxy_table.

(** Pass 1 with the proxy table rebuilt from components 10, 11 and 12
    in that order; components 10 and 12 target primitive 20, component
    11 targets nothing. *)
Definition engine_rendering : RenderPasses.Engine unit :=
  {| RenderPasses.worldScene := Some 100;
     RenderPasses.subsystem :=
       {| RenderPasses.passes := {[5 := 1]};
          RenderPasses.dyingPassFences := ∅;
          RenderPasses.isCurrentlyDying := false |};
     RenderPasses.passObjects := {[1 := pass_with_table]};
     RenderPasses.componentObjects :=
       <[10 := component true [Byte.x01]]>
         (<[11 := untargeted_component]> {[12 := component true [Byte.x03]]});
     RenderPasses.renderQueue := [];
     RenderPasses.completedFences := ∅;
     RenderPasses.nextObject := 2;
     RenderPasses.engineLog := [] |}.

(** Primitive 20 has scene proxy 30; no other primitive has one. *)
Definition SceneProxy_of (primitive : Z) : Z :=
  if primitive =? 20 then 30 else 0.

(** A view with one primitive, visible, with static and dynamic
    relevance and the dynamic elements 1 and 2; the primitive has three
    static batches, the second of which is not visible. *)
Definition mesh_view : MeshBatches.FViewInfo :=
  {| MeshBatches.PrimitiveViewRelevanceMap :=
       [{| MeshBatches.bStaticRelevance := true;
           MeshBatches.bDynamicRelevance := true |}];
     MeshBatches.PrimitiveVisibilityMap := [true];
     MeshBatches.DynamicMeshElementRanges := [(1, 3)] |}.

Definition static_visibility : list bool := [true; false; true].

Definition dynamic_elements : list MeshBatches.FMeshBatchAndRelevance :=
  [{| MeshBatches.Mesh := 100; MeshBatches.PrimitiveSceneProxy := 7 |};
   {| MeshBatches.Mesh := 101; MeshBatches.PrimitiveSceneProxy := 7 |};
   {| MeshBatches.Mesh := 102; MeshBatches.PrimitiveSceneProxy := 7 |};
   {| MeshBatches.Mesh := 103; MeshBatches.PrimitiveSceneProxy := 8 |}].

Definition primitive_scene_info : MeshBatches.FPrimitiveSceneInfo :=
  {| MeshBatches.IsIndexValid := true;
     MeshBatches.GetIndex := 0;
     MeshBatches.StaticMeshes :=
       [{| MeshBatches.Id := 0; MeshBatches.ownerProxy := 7 |};
        {| MeshBatches.Id := 1; MeshBatches.ownerProxy := 7 |};
        {| MeshBatches.Id := 2; MeshBatches.ownerProxy := 7 |}] |}.

Definition primitive_proxy : MeshBatches.FPrimitiveSceneProxy :=
  {| MeshBatches.GetLOD := 2;
     MeshBatches.GetMeshDescription := fun lod => [lod];
     MeshBatches.GetPrimitiveSceneInfo := Some primitive_scene_info |}.

(** A filter object as constructed: nothing excluded, every list
    unconfigured, nothing queued. *)
Definition fresh_filter : ViewFilter.U_EGP_ViewFilter :=
  {| ViewFilter.ExcludeAll := false;
     ViewFilter.byRenderTarget_GT := EGP.FilterList_new None;
     ViewFilter.byRenderTarget_RT := EGP.FilterList_new None;
     ViewFilter.byScene_GT := EGP.FilterList_new None;
     ViewFilter.byScene_RT := EGP.FilterList_new None;
     ViewFilter.byViewport_GT := EGP.FilterList_new None;
     ViewFilter.byViewport_RT := EGP.FilterList_new None;
     ViewFilter.byViewActor_GT := EGP.FilterList_new None;
     ViewFilter.byViewActor_RT := EGP.FilterList_new None;
     ViewFilter.byPlayerIndex_GT := EGP.FilterList_new None;
     ViewFilter.byPlayerIndex_RT := EGP.FilterList_new None |}.

Definition fresh_filter_state : ViewFilter.FilterState :=
  {| ViewFilter.filter := fresh_filter;
     ViewFilter.renderCommands := [];
     ViewFilter.gameThreadTasks := [];
     ViewFilter.filterLog := [] |}.

End Samples.

(** * Properties *)

(** ** FilterList *)

Section FilterListFacts.

Import EGP.

Context {T : Type}.
Variable Comparator : T -> T -> bool.

Lemma isListed_loop_existsb (es : list T) (t : T) :
  isListed_loop Comparator es t = existsb (fun element => Comparator element t) es.
Proof.
  induction es as [|e es IH]; simpl; [reflexivity|].
  destruct (Comparator e t); simpl; auto.
Qed.

Lemma isListed_loop_listed (f : FilterList T) (t : T) :
  isListed_loop Comparator (elements f) t = true <-> listed Comparator f t.
Proof.
  rewrite isListed_loop_existsb, existsb_exists. unfold listed. reflexivity.
Qed.

(** C7. An unconfigured list allows every candidate; a whitelist allows
    exactly the candidates the comparator finds among its elements and a
    blacklist exactly those it does not find; in both configured cases
    the answer is the comparison of "is listed" with "is a whitelist". *)
Theorem C7_IsAllowed_semantics (f : FilterList T) (t : T) :
  match isWhitelist f with
  | None => IsAllowed Comparator f t = true
  | Some w =>
      IsAllowed Comparator f t
        = Bool.eqb (existsb (fun element => Comparator element t) (elements f)) w
      /\ (IsAllowed Comparator f t = true <->
            (listed Comparator f t <-> w = true))
      /\ match w with
         | true => IsAllowed Comparator f t = true <-> listed Comparator f t
         | false => IsAllowed Comparator f t = true <-> ~ listed Comparator f t
         end
  end.
Proof.
  unfold IsAllowed. destruct (isWhitelist f) as [w|]; [|reflexivity].
  rewrite <- isListed_loop_existsb.
  pose proof (isListed_loop_listed f t) as Hl.
  destruct (isListed_loop Comparator (elements f) t) eqn:E; destruct w; simpl;
    intuition congruence.
Qed.

End FilterListFacts.

Section FilterUpdateFacts.

Import EGP.

Context {T : Type}.
Variable Comparator : T -> T -> bool.

(** The guard of [updateFilter] fires exactly on an add against a list
    of the other polarity. *)
Lemma updateFilter_guard (f : FilterList T) (w : bool) :
  bool_decide (is_Some (IsAWhitelist f))
  && negb (bool_decide (IsAWhitelist f = Some w)) = true
  <-> isWhitelist f = Some (negb w).
Proof.
  unfold IsAWhitelist. destruct (isWhitelist f) as [[]|]; destruct w; simpl;
    split; intros H; try discriminate; try reflexivity.
Qed.

Lemma updateFilter_rejects (f : FilterList T) (e : T) (w : bool) :
  isWhitelist f = Some (negb w) ->
  updateFilter Comparator e true w f = Some (f, [Error_AddToOppositeFilter w]).
Proof.
  intros H. unfold updateFilter.
  apply updateFilter_guard in H. simpl. rewrite H. reflexivity.
Qed.

Lemma updateFilter_accepts (f : FilterList T) (e : T) (w : bool) :
  isWhitelist f <> Some (negb w) ->
  updateFilter Comparator e true w f
  = Some ({| isWhitelist := Some w; elements := elements f ++ [e] |}, []).
Proof.
  intros H. unfold updateFilter. simpl.
  destruct (bool_decide (is_Some (IsAWhitelist f))
            && negb (bool_decide (IsAWhitelist f = Some w))) eqn:G.
  - apply updateFilter_guard in G. contradiction.
  - clear G. destruct w; unfold AddWhitelisted, AddBlacklisted; simpl in H.
    + destruct (decide (isWhitelist f = Some false)); [contradiction|reflexivity].
    + destruct (decide (isWhitelist f = Some true)); [contradiction|reflexivity].
Qed.

Lemma updateFilter_remove (f : FilterList T) (e : T) (w : bool) :
  updateFilter Comparator e false w f = Some (Remove Comparator f e, []).
Proof. reflexivity. Qed.

(** No request ever reaches a [check] of [FilterList]. *)
Lemma apply_mutation_total (m : Mutation T) (f : FilterList T) :
  is_Some (apply_mutation Comparator m f).
Proof.
  destruct m as [e w|e| |w]; simpl; eauto.
  destruct (decide (isWhitelist f = Some (negb w))) as [H|H].
  - rewrite (updateFilter_rejects f e w H). eauto.
  - rewrite (updateFilter_accepts f e w H). eauto.
Qed.

Lemma apply_mutations_total (ms : list (Mutation T)) (f : FilterList T) :
  is_Some (apply_mutations Comparator ms f).
Proof.
  revert f. induction ms as [|m ms IH]; intros f; simpl; [eauto|].
  destruct (apply_mutation_total m f) as [[f1 l1] ->]. simpl.
  destruct (IH f1) as [[f2 l2] ->]. simpl. eauto.
Qed.

End FilterUpdateFacts.

Section FilterPolarityFacts.

Import EGP.

Context {T : Type}.
Variable Comparator : T -> T -> bool.

Lemma untag_Remove (f : FilterList (T * bool)) (e : T) (w : bool) :
  untag (Remove (Comparator_tagged Comparator) f (e, w))
  = Remove Comparator (untag f) e.
Proof.
  unfold untag, Remove. simpl. f_equal.
  induction (elements f) as [|[a b] l IH]; simpl; [reflexivity|].
  unfold Comparator_tagged at 1. simpl.
  destruct (Comparator e a); simpl; [exact IH | f_equal; exact IH].
Qed.

(** Erasing the provenance commutes with every request: the tagged run is
    the run of the code, plus bookkeeping. *)
Lemma apply_mutation_untag (m : Mutation T) (f : FilterList (T * bool)) :
  apply_mutation Comparator m (untag f)
  = untag_result <$> apply_mutation (Comparator_tagged Comparator) (tag_mutation m) f.
Proof.
  destruct m as [e w|e| |w]; simpl; try reflexivity.
  - destruct (decide (isWhitelist f = Some (negb w))) as [H|H].
    + rewrite (updateFilter_rejects _ f (e, w) w H).
      rewrite (updateFilter_rejects _ (untag f) e w H). reflexivity.
    + rewrite (updateFilter_accepts _ f (e, w) w H).
      rewrite (updateFilter_accepts _ (untag f) e w H). simpl.
      unfold untag_result, untag. simpl. rewrite List.map_app. reflexivity.
  - rewrite !updateFilter_remove. simpl. unfold untag_result. simpl.
    rewrite untag_Remove. reflexivity.
Qed.

Lemma apply_mutations_untag (ms : list (Mutation T)) (f : FilterList (T * bool)) :
  apply_mutations Comparator ms (untag f)
  = untag_result <$> apply_mutations (Comparator_tagged Comparator)
                                     (List.map tag_mutation ms) f.
Proof.
  revert f. induction ms as [|m ms IH]; intros f; simpl; [reflexivity|].
  rewrite apply_mutation_untag.
  destruct (apply_mutation (Comparator_tagged Comparator) (tag_mutation m) f)
    as [[f1 l1]|]; simpl; [|reflexivity].
  change (untag_result (f1, l1)).1 with (untag f1). rewrite IH.
  destruct (apply_mutations (Comparator_tagged Comparator)
              (List.map tag_mutation ms) f1) as [[f2 l2]|]; reflexivity.
Qed.

Lemma polarized_step (m : Mutation T) (f f' : FilterList (T * bool)) l :
  is_configure m = false ->
  polarized f ->
  apply_mutation (Comparator_tagged Comparator) (tag_mutation m) f = Some (f', l) ->
  polarized f'.
Proof.
  intros Hm Hp. destruct m as [e w|e| |w]; simpl; try discriminate.
  - destruct (decide (isWhitelist f = Some (negb w))) as [H|H].
    + rewrite (updateFilter_rejects _ f (e, w) w H). intros [= <- _]. exact Hp.
    + rewrite (updateFilter_accepts _ f (e, w) w H). intros [= <- _].
      intros e' w' Hin. simpl in *. apply in_app_or in Hin as [Hin|Hin].
      * apply Hp in Hin. rewrite Hin in H.
        destruct w, w'; try reflexivity; exfalso; apply H; reflexivity.
      * destruct Hin as [[= <- <-]|[]]. reflexivity.
  - rewrite updateFilter_remove. intros [= <- _].
    intros e' w' Hin. simpl in *. apply filter_In in Hin as [Hin _].
    exact (Hp _ _ Hin).
  - unfold updateFilter_clear. intros [= <- _]. intros e' w' [].
Qed.

Lemma polarized_run (ms : list (Mutation T)) (f f' : FilterList (T * bool)) l :
  forallb (fun m => negb (is_configure m)) ms = true ->
  polarized f ->
  apply_mutations (Comparator_tagged Comparator) (List.map tag_mutation ms) f
    = Some (f', l) ->
  polarized f'.
Proof.
  revert f l. induction ms as [|m ms IH]; intros f l Hms Hp; simpl.
  - intros [= <- _]. exact Hp.
  - simpl in Hms. apply andb_true_iff in Hms as [Hm Hms].
    apply negb_true_iff in Hm.
    destruct (apply_mutation (Comparator_tagged Comparator) (tag_mutation m) f)
      as [[f1 l1]|] eqn:E1; simpl; [|discriminate].
    destruct (apply_mutations (Comparator_tagged Comparator)
                (List.map tag_mutation ms) f1) as [[f2 l2]|] eqn:E2; simpl;
      [|discriminate].
    intros [= <- _].
    apply (IH f1 l2 Hms (polarized_step m f f1 l1 Hm Hp E1) E2).
Qed.

Lemma polarized_not_both (f : FilterList (T * bool)) :
  polarized f -> ~ holds_both_polarities f.
Proof.
  intros Hp (e1 & e2 & H1 & H2).
  apply Hp in H1. apply Hp in H2. congruence.
Qed.

(** Add, remove and clear requests on a fresh list: no assertion fires,
    the run is the erasure of the tagged run, and the elements all carry
    one polarity. *)
Lemma polarity_kept (ms : list (Mutation T)) (initial : option bool) :
  forallb (fun m => negb (is_configure m)) ms = true ->
  exists f' l,
    apply_mutations (Comparator_tagged Comparator) (List.map tag_mutation ms)
                    (FilterList_new initial) = Some (f', l)
    /\ apply_mutations Comparator ms (FilterList_new initial) = Some (untag f', l)
    /\ ~ holds_both_polarities f'.
Proof.
  intros Hms.
  destruct (apply_mutations_total (Comparator_tagged Comparator)
              (List.map tag_mutation ms)
              (FilterList_new initial)) as [[f' l] Hrun].
  exists f', l. split; [exact Hrun|split].
  - change (@FilterList_new T initial) with (untag (@FilterList_new (T * bool) initial)).
    rewrite apply_mutations_untag, Hrun. reflexivity.
  - apply polarized_not_both.
    eapply polarized_run; [exact Hms| |exact Hrun].
    intros e' w' [].
Qed.

End FilterPolarityFacts.

Section ViewFilterUpdateFacts.

Import EGP ViewFilter.

Lemma set_GT_get_GT (c : Category) (vf : U_EGP_ViewFilter) :
  set_GT c (get_GT c vf) vf = vf.
Proof. destruct vf, c; reflexivity. Qed.

Lemma set_RT_get_RT (c : Category) (vf : U_EGP_ViewFilter) :
  set_RT c (get_RT c vf) vf = vf.
Proof. destruct vf, c; reflexivity. Qed.

(** On the game thread the rejected add leaves the whole filter object as
    it was; the render-thread copy gets its own run of the same lambda. *)
Lemma UpdateFilterList_rejected_on_game_thread
    (c : Category) (element : Z) (w : bool) (s : FilterState) :
  isWhitelist (get_GT c (filter s)) = Some (negb w) ->
  UpdateFilterList GameThread c element true w s
  = Some {| filter := filter s;
            renderCommands := renderCommands s ++ [(c, MAdd element w)];
            gameThreadTasks := gameThreadTasks s;
            filterLog := filterLog s ++ [Error_AddToOppositeFilter w] |}.
Proof.
  intros H. unfold UpdateFilterList, post_update, run_on_GT. simpl.
  rewrite (updateFilter_rejects equal_to _ element w H). simpl.
  rewrite set_GT_get_GT. reflexivity.
Qed.

Lemma render_thread_step_rejected
    (c : Category) (element : Z) (w : bool) (s : FilterState) rest :
  renderCommands s = (c, MAdd element w) :: rest ->
  isWhitelist (get_RT c (filter s)) = Some (negb w) ->
  render_thread_step s
  = Some {| filter := filter s;
            renderCommands := rest;
            gameThreadTasks := gameThreadTasks s;
            filterLog := filterLog s ++ [Error_AddToOppositeFilter w] |}.
Proof.
  intros Hq H. unfold render_thread_step, run_on_RT. rewrite Hq. simpl.
  rewrite (updateFilter_rejects equal_to _ element w H). simpl.
  rewrite set_RT_get_RT. reflexivity.
Qed.

End ViewFilterUpdateFacts.

(** C4. An add against a list of the other polarity is a
    logged no-op: the lambda of [UpdateFilterList] hands the list back
    unchanged together with one error line and no assertion fires; on the
    game thread the whole filter object is unchanged and the same request
    is queued for the render-thread copy. After any sequence of add,
    remove and clear requests on a fresh list no assertion has fired and
    the list never holds an element added as whitelisted together with
    one added as blacklisted. *)
Theorem C4_opposite_add_rejected_and_polarity_kept
    {T : Type} (Comparator : T -> T -> bool)
    (f0 : EGP.FilterList T) (e : T) (w : bool)
    (ms : list (EGP.Mutation T)) (initial : option bool)
    (Hopposite : EGP.isWhitelist f0 = Some (negb w))
    (Hms : forallb (fun m => negb (EGP.is_configure m)) ms = true) :
  EGP.updateFilter Comparator e true w f0
    = Some (f0, [Error_AddToOppositeFilter w])
  /\ (forall c element s,
        EGP.isWhitelist (ViewFilter.get_GT c (ViewFilter.filter s)) = Some (negb w) ->
        exists s',
          ViewFilter.UpdateFilterList GameThread c element true w s = Some s'
          /\ ViewFilter.filter s' = ViewFilter.filter s
          /\ ViewFilter.filterLog s'
             = ViewFilter.filterLog s ++ [Error_AddToOppositeFilter w])
  /\ exists f' l,
       EGP.apply_mutations (EGP.Comparator_tagged Comparator)
                           (List.map EGP.tag_mutation ms)
                           (EGP.FilterList_new initial) = Some (f', l)
       /\ EGP.apply_mutations Comparator ms (EGP.FilterList_new initial)
          = Some (EGP.untag f', l)
       /\ ~ EGP.holds_both_polarities f'.
Proof.
  split; [apply updateFilter_rejects; exact Hopposite|].
  split; [|apply polarity_kept; exact Hms].
  intros c element s H.
  rewrite (UpdateFilterList_rejected_on_game_thread c element w s H).
  eexists. split; [reflexivity|]. split; reflexivity.
Qed.

Lemma C4_witness :
  EGP.updateFilter Z.eqb 2 true true Samples.blacklist_of_1
    = Some (Samples.blacklist_of_1, [Error_AddToOppositeFilter true])
  /\ (forall c element s,
        EGP.isWhitelist (ViewFilter.get_GT c (ViewFilter.filter s)) = Some (negb true) ->
        exists s',
          ViewFilter.UpdateFilterList GameThread c element true true s = Some s'
          /\ ViewFilter.filter s' = ViewFilter.filter s
          /\ ViewFilter.filterLog s'
             = ViewFilter.filterLog s ++ [Error_AddToOppositeFilter true])
  /\ exists f' l,
       EGP.apply_mutations (EGP.Comparator_tagged Z.eqb)
                           (List.map EGP.tag_mutation Samples.requests)
                           (EGP.FilterList_new None) = Some (f', l)
       /\ EGP.apply_mutations Z.eqb Samples.requests (EGP.FilterList_new None)
          = Some (EGP.untag f', l)
       /\ ~ EGP.holds_both_polarities f'.
Proof.
  apply (C4_opposite_add_rejected_and_polarity_kept
           Z.eqb Samples.blacklist_of_1 2 true Samples.requests None);
    reflexivity.
Defined.

(** [Configure] is outside that invariant. It changes the mode and keeps
    the elements, and nothing in it looks at the list, although the
    header says of the configuring calls that this cannot be done after
    an element has been added: add 1 as whitelisted, reconfigure the
    list as a blacklist, add 2 as blacklisted. Nothing is rejected, and
    the list holds elements of both polarities. *)
Lemma Configure_after_add_admits_both_polarities :
  ~ (forall (ms : list (EGP.Mutation Z)) f' l,
       EGP.apply_mutations (EGP.Comparator_tagged Z.eqb)
                           (List.map EGP.tag_mutation ms)
                           (EGP.FilterList_new None) = Some (f', l) ->
       l = [] ->
       ~ EGP.holds_both_polarities f').
Proof.
  intros H.
  apply (H [EGP.MAdd 1 true; EGP.MConfigure false; EGP.MAdd 2 false]
           {| EGP.isWhitelist := Some false;
              EGP.elements := [(1, true); (2, false)] |} []);
    [reflexivity | reflexivity |].
  exists 1, 2. simpl. auto.
Qed.

(** ** ViewFilter *)

Section ViewFilterFacts.

Import EGP ViewFilter.

Lemma allowed_on_GameThread (f_RT f_GT : FilterList Z) (v : Z) :
  allowed_on GameThread f_RT f_GT v = IsAllowed equal_to f_GT v.
Proof. reflexivity. Qed.

Lemma allowed_on_RenderThread (f_RT f_GT : FilterList Z) (v : Z) :
  allowed_on RenderThread f_RT f_GT v = IsAllowed equal_to f_RT v.
Proof. unfold allowed_on. simpl. apply orb_false_r. Qed.

(** The full-view test written out: the thread assertion, then the
    conjunction of [!ExcludeAll] and the four sub-filters. *)
Lemma ShouldRenderFor_View_unfold (th : ThreadCtx) (vf : U_EGP_ViewFilter)
    (view : FSceneView) :
  ShouldRenderFor_View th vf view
  = if IsInRenderingThread th || IsInGameThread th then
      Some (negb (ExcludeAll vf)
            && allowed_on th (byScene_RT vf) (byScene_GT vf) (Scene (Family view))
            && allowed_on th (byRenderTarget_RT vf) (byRenderTarget_GT vf)
                          (RenderTarget (Family view))
            && allowed_on th (byPlayerIndex_RT vf) (byPlayerIndex_GT vf)
                          (PlayerIndex view)
            && allowed_on th (byViewActor_RT vf) (byViewActor_GT vf)
                          (ViewActor view))
    else None.
Proof.
  unfold ShouldRenderFor_View, ShouldRenderFor_Family, check_thread.
  destruct (IsInRenderingThread th || IsInGameThread th); reflexivity.
Qed.

(** C6. On either thread the full-view test answers true exactly when
    [ExcludeAll] is off and the scene, render-target, player-index and
    view-actor filters (the copies of the calling thread) each allow the
    view's attribute; it never asserts there, so as soon as one of the
    five conditions fails the answer is false. The viewport filter plays
    no part. In general the answer is the conjunction of the five
    conditions, each sub-filter being asked on the calling thread's
    side. *)
Theorem C6_ShouldRenderFor_View_iff (vf : U_EGP_ViewFilter) (view : FSceneView) :
  (ShouldRenderFor_View GameThread vf view = Some true <->
     ExcludeAll vf = false
     /\ IsAllowed equal_to (byScene_GT vf) (Scene (Family view)) = true
     /\ IsAllowed equal_to (byRenderTarget_GT vf) (RenderTarget (Family view)) = true
     /\ IsAllowed equal_to (byPlayerIndex_GT vf) (PlayerIndex view) = true
     /\ IsAllowed equal_to (byViewActor_GT vf) (ViewActor view) = true)
  /\ (ShouldRenderFor_View RenderThread vf view = Some true <->
     ExcludeAll vf = false
     /\ IsAllowed equal_to (byScene_RT vf) (Scene (Family view)) = true
     /\ IsAllowed equal_to (byRenderTarget_RT vf) (RenderTarget (Family view)) = true
     /\ IsAllowed equal_to (byPlayerIndex_RT vf) (PlayerIndex view) = true
     /\ IsAllowed equal_to (byViewActor_RT vf) (ViewActor view) = true)
  /\ (ShouldRenderFor_View GameThread vf view = Some true
      \/ ShouldRenderFor_View GameThread vf view = Some false)
  /\ (ShouldRenderFor_View RenderThread vf view = Some true
      \/ ShouldRenderFor_View RenderThread vf view = Some false)
  /\ (forall th,
        ShouldRenderFor_View th vf view = Some true <->
          (IsInRenderingThread th || IsInGameThread th = true)
          /\ ExcludeAll vf = false
          /\ allowed_on th (byScene_RT vf) (byScene_GT vf) (Scene (Family view)) = true
          /\ allowed_on th (byRenderTarget_RT vf) (byRenderTarget_GT vf)
                        (RenderTarget (Family view)) = true
          /\ allowed_on th (byPlayerIndex_RT vf) (byPlayerIndex_GT vf)
                        (PlayerIndex view) = true
          /\ allowed_on th (byViewActor_RT vf) (byViewActor_GT vf)
                        (ViewActor view) = true)
  /\ (forall th,
        ShouldRenderFor_View th vf view
        = if IsInRenderingThread th || IsInGameThread th then
            Some (negb (ExcludeAll vf)
                  && allowed_on th (byScene_RT vf) (byScene_GT vf)
                                (Scene (Family view))
                  && allowed_on th (byRenderTarget_RT vf) (byRenderTarget_GT vf)
                                (RenderTarget (Family view))
                  && allowed_on th (byPlayerIndex_RT vf) (byPlayerIndex_GT vf)
                                (PlayerIndex view)
                  && allowed_on th (byViewActor_RT vf) (byViewActor_GT vf)
                                (ViewActor view))
          else None).
Proof.
  assert (Hgen : forall th,
        ShouldRenderFor_View th vf view = Some true <->
          (IsInRenderingThread th || IsInGameThread th = true)
          /\ ExcludeAll vf = false
          /\ allowed_on th (byScene_RT vf) (byScene_GT vf) (Scene (Family view)) = true
          /\ allowed_on th (byRenderTarget_RT vf) (byRenderTarget_GT vf)
                        (RenderTarget (Family view)) = true
          /\ allowed_on th (byPlayerIndex_RT vf) (byPlayerIndex_GT vf)
                        (PlayerIndex view) = true
          /\ allowed_on th (byViewActor_RT vf) (byViewActor_GT vf)
                        (ViewActor view) = true).
  { intros th. rewrite ShouldRenderFor_View_unfold.
    destruct (IsInRenderingThread th || IsInGameThread th).
    - split.
      + intros [= H]. rewrite !andb_true_iff, negb_true_iff in H. tauto.
      + intros H. f_equal. rewrite !andb_true_iff, negb_true_iff. tauto.
    - split; [discriminate|]. intros [H _]. discriminate. }
  split; [|split; [|split; [|split; [|split;
    [exact Hgen | intros th; apply ShouldRenderFor_View_unfold]]]]].
  - rewrite (Hgen GameThread), !allowed_on_GameThread. simpl. tauto.
  - rewrite (Hgen RenderThread), !allowed_on_RenderThread. simpl. tauto.
  - rewrite ShouldRenderFor_View_unfold. simpl.
    match goal with |- Some ?b = _ \/ _ => destruct b end; auto.
  - rewrite ShouldRenderFor_View_unfold. simpl.
    match goal with |- Some ?b = _ \/ _ => destruct b end; auto.
Qed.

End ViewFilterFacts.

(** ** GetDynamicMeshElementRange *)

Section MeshBatchesFacts.

Import MeshBatches.

(** C9 (as amended). An index at or beyond the end of the relevance map
    is answered with the empty range before any array is touched: no
    assertion fires. *)
Theorem C9_out_of_range_index_gives_empty_range
    (info : FViewInfo) (primitiveIndex : N)
    (Hmalformed : (N.of_nat (length (PrimitiveViewRelevanceMap info)) <= primitiveIndex)%N) :
  GetDynamicMeshElementRange info primitiveIndex = Some FInt32Range_Empty.
Proof.
  unfold GetDynamicMeshElementRange.
  apply N.leb_le in Hmalformed. rewrite Hmalformed. reflexivity.
Qed.

Lemma C9_witness :
  GetDynamicMeshElementRange
    {| PrimitiveViewRelevanceMap :=
         [{| bStaticRelevance := false; bDynamicRelevance := true |}];
       PrimitiveVisibilityMap := [true];
       DynamicMeshElementRanges := [(3, 5)] |} 7
  = Some FInt32Range_Empty.
Proof.
  apply C9_out_of_range_index_gives_empty_range. simpl. lia.
Defined.

(** C9, as stated, asks for a fatal assertion ([None]) on every
    out-of-range index. Index 7 into a view with a single primitive is
    out of range and is answered normally. *)
Lemma C9_counterexample :
  ~ (forall (info : FViewInfo) (primitiveIndex : N),
       (N.of_nat (length (PrimitiveViewRelevanceMap info)) <= primitiveIndex)%N ->
       GetDynamicMeshElementRange info primitiveIndex = None).
Proof.
  intros H.
  specialize (H {| PrimitiveViewRelevanceMap :=
                     [{| bStaticRelevance := false; bDynamicRelevance := true |}];
                   PrimitiveVisibilityMap := [true];
                   DynamicMeshElementRanges := [(3, 5)] |} 7%N).
  simpl in H. discriminate H. lia.
Qed.

(** In range, the function reads the three arrays at the index. *)
Lemma GetDynamicMeshElementRange_in_range_example :
  GetDynamicMeshElementRange
    {| PrimitiveViewRelevanceMap :=
         [{| bStaticRelevance := false; bDynamicRelevance := true |}];
       PrimitiveVisibilityMap := [true];
       DynamicMeshElementRanges := [(3, 5)] |} 0
  = Some (FInt32Range_make 3 5).
Proof. reflexivity. Qed.

End MeshBatchesFacts.

(** ** PerViewData *)

Section PerViewDataFacts.

Import Int32 PerViewData.

Context {TData NewDataArgs : Type}.
Variable TData_new : FViewInfo -> FIntRect -> NewDataArgs -> TData.
Variable Resample : TData -> FViewInfo -> FIntPoint -> FIntPoint -> FIntPoint -> TData.

Abbreviation ViewData := (@ViewData TData).
Abbreviation T_EGP_PerViewData := (@T_EGP_PerViewData TData).

Lemma wrap32_id z : in_range z -> wrap32 z = z.
Proof.
  unfold in_range, min_int, max_int, wrap32. intros H.
  rewrite Z.mod_small; lia.
Qed.

Lemma FIntPoint_ne_iff (a b : FIntPoint) : FIntPoint_ne a b = true <-> a <> b.
Proof.
  unfold FIntPoint_ne. destruct a as [ax ay], b as [bx by_]. simpl.
  rewrite orb_true_iff, !negb_true_iff, !Z.eqb_neq.
  split.
  - intros [H|H] [= ? ?]; contradiction.
  - intros H. destruct (Z.eq_dec ax bx) as [->|]; [|tauto].
    right. intros ->. apply H. reflexivity.
Qed.

Lemma FIntRect_ne_iff (a b : FIntRect) : FIntRect_ne a b = true <-> a <> b.
Proof.
  unfold FIntRect_ne. destruct a as [amin amax], b as [bmin bmax]. simpl.
  rewrite orb_true_iff, !FIntPoint_ne_iff.
  split.
  - intros [H|H] [= ? ?]; contradiction.
  - intros H.
    destruct (decide (FIntPoint_ne amin bmin = true)) as [E|E].
    + left. apply FIntPoint_ne_iff. exact E.
    + right. intros ->. apply H. f_equal.
      apply not_true_is_false in E.
      destruct (FIntPoint_ne_iff amin bmin) as [_ H2].
      destruct amin as [x1 y1], bmin as [x2 y2].
      unfold FIntPoint_ne in E. simpl in E.
      apply orb_false_iff in E as [E1 E2].
      apply negb_false_iff, Z.eqb_eq in E1, E2. congruence.
Qed.

Lemma FIntRect_ne_false (a b : FIntRect) : FIntRect_ne a b = false -> a = b.
Proof.
  destruct a as [[x1 y1] [x2 y2]], b as [[x3 y3] [x4 y4]].
  unfold FIntRect_ne, FIntPoint_ne. simpl. intros H.
  rewrite !orb_false_iff in H. destruct H as [[? ?] [? ?]].
  repeat match goal with
         | H : negb _ = false |- _ => apply negb_false_iff, Z.eqb_eq in H
         end.
  congruence.
Qed.

Lemma FIntRect_ne_refl (a : FIntRect) : FIntRect_ne a a = false.
Proof.
  apply not_true_is_false. rewrite FIntRect_ne_iff. tauto.
Qed.

(** *** Tick, one entry at a time *)

Lemma Tick_view_lookup (p : T_EGP_PerViewData) (id : Z) (m : gmap Z ViewData) :
  is_Some (m !! id) ->
  exists m', Tick_view p id m = Some m'
    /\ forall k, m' !! k = if decide (k = id) then Tick_entry p id (m !! id) else m !! k.
Proof.
  intros [d Hd]. unfold Tick_view, Tick_entry.
  destruct (decide (id ∈ CleanupPreventionByViewID p)) as [Hp|Hp].
  - exists m. split; [reflexivity|]. intros k.
    destruct (decide (k = id)) as [->|]; reflexivity.
  - rewrite Hd. simpl.
    destruct (FramesSinceAccess d >? CleanupFrameThreshold p).
    + eexists. split; [reflexivity|]. intros k.
      destruct (decide (k = id)) as [->|Hne].
      * apply lookup_delete_eq.
      * apply lookup_delete_ne. congruence.
    + eexists. split; [reflexivity|]. intros k.
      destruct (decide (k = id)) as [->|Hne].
      * apply lookup_insert_eq.
      * apply lookup_insert_ne. congruence.
Qed.

Lemma Tick_loop_lookup (p : T_EGP_PerViewData) (ids : list Z) :
  forall m : gmap Z ViewData,
    NoDup ids ->
    (forall id, id ∈ ids -> is_Some (m !! id)) ->
    exists m', Tick_loop p ids m = Some m'
      /\ forall k, m' !! k = if decide (k ∈ ids) then Tick_entry p k (m !! k) else m !! k.
Proof.
  induction ids as [|id rest IH]; intros m Hnd Hin; simpl.
  - exists m. split; [reflexivity|]. intros k.
    destruct (decide (k ∈ [])) as [H|H]; [|reflexivity].
    apply elem_of_nil in H. contradiction.
  - apply NoDup_cons in Hnd as [Hnotin Hnd].
    destruct (Tick_view_lookup p id m) as (m1 & -> & Hm1).
    { apply Hin. left. }
    simpl.
    destruct (IH m1 Hnd) as (m' & -> & Hm').
    { intros id' Hid'. rewrite Hm1.
      destruct (decide (id' = id)) as [->|]; [contradiction|].
      apply Hin. right. exact Hid'. }
    exists m'. split; [reflexivity|]. intros k. rewrite Hm', !Hm1.
    destruct (decide (k ∈ rest)) as [Hk|Hk].
    + destruct (decide (k = id)) as [->|]; [contradiction|].
      destruct (decide (k ∈ id :: rest)) as [|Hn]; [reflexivity|].
      exfalso. apply Hn. right. exact Hk.
    + destruct (decide (k = id)) as [->|Hne].
      * destruct (decide (id ∈ id :: rest)) as [|Hn]; [reflexivity|].
        exfalso. apply Hn. left.
      * destruct (decide (k ∈ id :: rest)) as [Hk'|]; [|reflexivity].
        apply elem_of_cons in Hk' as [|]; contradiction.
Qed.

Lemma Tick_entry_None (p : T_EGP_PerViewData) (k : Z) : Tick_entry p k None = None.
Proof. unfold Tick_entry. destruct (decide _); reflexivity. Qed.

(** On the render thread [Tick] never asserts, and it applies
    [Tick_entry] to every view independently. *)
Lemma Tick_lookup (th : ThreadCtx) (p : T_EGP_PerViewData) :
  IsInRenderingThread th = true ->
  exists p', Tick th p = Some p'
    /\ CleanupFrameThreshold p' = CleanupFrameThreshold p
    /\ CleanupPreventionByViewID p' = CleanupPreventionByViewID p
    /\ forall k, dataByViewID p' !! k = Tick_entry p k (dataByViewID p !! k).
Proof.
  intros Hth. unfold Tick. rewrite Hth.
  destruct (Tick_loop_lookup p (map_to_list (dataByViewID p)).*1 (dataByViewID p))
    as (m' & -> & Hm').
  - apply NoDup_fst_map_to_list.
  - intros id Hid. apply list_elem_of_fmap in Hid as ([k v] & -> & Hkv).
    apply elem_of_map_to_list in Hkv. simpl. eauto.
  - simpl. eexists. split; [reflexivity|]. repeat split. simpl. intros k.
    rewrite Hm'. destruct (decide (k ∈ (map_to_list (dataByViewID p)).*1)) as [|Hn];
      [reflexivity|].
    destruct (dataByViewID p !! k) as [d|] eqn:E; [|symmetry; apply Tick_entry_None].
    exfalso. apply Hn. apply list_elem_of_fmap. exists (k, d). split; [reflexivity|].
    apply elem_of_map_to_list. exact E.
Qed.

(** *** DataForView *)

(** The entry [DataForView] leaves for a view whose entry was [d]. *)
Lemma DataForView_existing (th : ThreadCtx) (view : FViewInfo)
    (args : NewDataArgs) (p : T_EGP_PerViewData) (d : ViewData) :
  IsInRenderingThread th = true ->
  dataByViewID p !! ViewKey view = Some d ->
  DataForView TData_new Resample th view args p
  = if FIntRect_ne (PixelSubset d) (ViewRect view) then
      let offset := FIntPoint_sub (Min (ViewRect view)) (Min (PixelSubset d)) in
      let user := Resample (User d) view (Size (PixelSubset d))
                           (Size (ViewRect view)) offset in
      Some (with_data p
              (<[ViewKey view := {| User := user; PixelSubset := ViewRect view;
                                    FeatureLevel := FeatureLevel d;
                                    FramesSinceAccess := 0 |}]> (dataByViewID p)),
            user,
            [Call_Resample view (Size (PixelSubset d)) (Size (ViewRect view)) offset])
    else
      Some (with_data p
              (<[ViewKey view := with_FramesSinceAccess d 0]> (dataByViewID p)),
            User d, []).
Proof.
  intros Hth Hd. unfold DataForView. rewrite Hth, Hd. simpl.
  destruct (FIntRect_ne (PixelSubset d) (ViewRect view)); reflexivity.
Qed.

Lemma DataForView_lookup (th : ThreadCtx) (view : FViewInfo)
    (args : NewDataArgs) (p : T_EGP_PerViewData) :
  IsInRenderingThread th = true ->
  exists p' u calls,
    DataForView TData_new Resample th view args p = Some (p', u, calls)
    /\ CleanupFrameThreshold p' = CleanupFrameThreshold p
    /\ CleanupPreventionByViewID p' = CleanupPreventionByViewID p
    /\ (forall k, k <> ViewKey view -> dataByViewID p' !! k = dataByViewID p !! k)
    /\ exists d', dataByViewID p' !! ViewKey view = Some d'
                  /\ FramesSinceAccess d' = 0.
Proof.
  intros Hth. unfold DataForView. rewrite Hth.
  destruct (dataByViewID p !! ViewKey view) as [d|]; simpl;
    match goal with
    | |- context [FIntRect_ne ?a ?b] => destruct (FIntRect_ne a b)
    end;
    (do 3 eexists; split; [reflexivity|]; simpl; repeat split;
     [ intros k Hk; apply lookup_insert_ne; congruence
     | eexists; split; [apply lookup_insert_eq | reflexivity] ]).
Qed.

(** C8. For a view that already has an entry: when the view rectangle
    differs from the cached [PixelSubset], [DataForView] calls the user
    data's [Resample] exactly once, with the size of the old rectangle,
    the size of the new one and the offset from the old minimum corner to
    the new one, hands back the resampled data and caches the new
    rectangle; when the rectangle is the cached one it calls nothing. A
    second call with the same view therefore calls nothing. *)
Theorem C8_DataForView_resamples_once
    (th : ThreadCtx) (view : FViewInfo) (args : NewDataArgs)
    (p : T_EGP_PerViewData) (d : ViewData)
    (Hth : IsInRenderingThread th = true)
    (Hcached : dataByViewID p !! ViewKey view = Some d) :
  let changed := FIntRect_ne (PixelSubset d) (ViewRect view) in
  let oldSize := Size (PixelSubset d) in
  let newSize := Size (ViewRect view) in
  let offset := FIntPoint_sub (Min (ViewRect view)) (Min (PixelSubset d)) in
  (changed = true <-> PixelSubset d <> ViewRect view)
  /\ exists p' d',
       DataForView TData_new Resample th view args p
       = Some (p', User d',
               if changed then [Call_Resample view oldSize newSize offset] else [])
       /\ User d'
          = (if changed then Resample (User d) view oldSize newSize offset
             else User d)
       /\ dataByViewID p' !! ViewKey view = Some d'
       /\ PixelSubset d' = ViewRect view
       /\ forall args2, exists p'',
            DataForView TData_new Resample th view args2 p' = Some (p'', User d', []).
Proof.
  intros changed oldSize newSize offset.
  split; [apply FIntRect_ne_iff|].
  rewrite (DataForView_existing th view args p d Hth Hcached).
  fold changed. destruct changed eqn:E; cbv zeta.
  - eexists _, {| User := _; PixelSubset := _; FeatureLevel := _;
                  FramesSinceAccess := _ |}.
    split; [reflexivity|]. simpl.
    split; [reflexivity|]. split; [apply lookup_insert_eq|]. split; [reflexivity|].
    intros args2.
    erewrite DataForView_existing; [|exact Hth|simpl; apply lookup_insert_eq].
    simpl. rewrite FIntRect_ne_refl. eexists. reflexivity.
  - apply FIntRect_ne_false in E.
    eexists _, (with_FramesSinceAccess d 0).
    split; [reflexivity|]. simpl.
    split; [reflexivity|]. split; [apply lookup_insert_eq|]. split; [exact E|].
    intros args2.
    erewrite DataForView_existing; [|exact Hth|simpl; apply lookup_insert_eq].
    simpl. rewrite E, FIntRect_ne_refl. eexists. reflexivity.
Qed.

(** *** Frame histories *)

Abbreviation run_op' := (run_op TData_new Resample).
Abbreviation run_ops' := (run_ops TData_new Resample).

Lemma Tick_entry_ext (p1 p : T_EGP_PerViewData) (k : Z) (o : option ViewData) :
  CleanupFrameThreshold p1 = CleanupFrameThreshold p ->
  CleanupPreventionByViewID p1 = CleanupPreventionByViewID p ->
  Tick_entry p1 k o = Tick_entry p k o.
Proof. intros H1 H2. unfold Tick_entry. rewrite H1, H2. reflexivity. Qed.

Lemma iter_Tick_entry_ext (p1 p : T_EGP_PerViewData) (k : Z) (n : nat)
    (o : option ViewData) :
  CleanupFrameThreshold p1 = CleanupFrameThreshold p ->
  CleanupPreventionByViewID p1 = CleanupPreventionByViewID p ->
  Nat.iter n (Tick_entry p1 k) o = Nat.iter n (Tick_entry p k) o.
Proof.
  intros H1 H2. induction n as [|n IH]; simpl; [reflexivity|].
  rewrite IH. apply Tick_entry_ext; assumption.
Qed.

(** What one operation does to the entry of view [k]. *)
Lemma run_op_lookup (th : ThreadCtx) (o : Op) (p : T_EGP_PerViewData) (k : Z) :
  IsInRenderingThread th = true ->
  exists p', run_op' th o p = Some p'
    /\ CleanupFrameThreshold p' = CleanupFrameThreshold p
    /\ CleanupPreventionByViewID p' = CleanupPreventionByViewID p
    /\ match o with
       | OpTick => dataByViewID p' !! k = Tick_entry p k (dataByViewID p !! k)
       | OpDataForView view _ =>
           if ViewKey view =? k
           then exists d', dataByViewID p' !! k = Some d' /\ FramesSinceAccess d' = 0
           else dataByViewID p' !! k = dataByViewID p !! k
       end.
Proof.
  intros Hth. destruct o as [|view args]; simpl.
  - destruct (Tick_lookup th p Hth) as (p' & -> & HT & HP & Hk).
    exists p'. auto.
  - destruct (DataForView_lookup th view args p Hth)
      as (p' & u & calls & -> & HT & HP & Hother & d' & Hd' & Hfsa).
    simpl. exists p'. split; [reflexivity|]. split; [exact HT|]. split; [exact HP|].
    destruct (ViewKey view =? k) eqn:E.
    + apply Z.eqb_eq in E. subst k. eauto.
    + apply Z.eqb_neq in E. apply Hother. congruence.
Qed.

Lemma run_ops_unaccessed (th : ThreadCtx) (k : Z) (ops : list Op) :
  IsInRenderingThread th = true ->
  forallb (fun o => negb (is_access_of k o)) ops = true ->
  forall p : T_EGP_PerViewData,
  exists p', run_ops' th ops p = Some p'
    /\ dataByViewID p' !! k
       = Nat.iter (count_ticks ops) (Tick_entry p k) (dataByViewID p !! k).
Proof.
  intros Hth. induction ops as [|o rest IH]; intros Hops p; simpl.
  - exists p. split; reflexivity.
  - simpl in Hops. apply andb_true_iff in Hops as [Ho Hrest].
    destruct (run_op_lookup th o p k Hth) as (p1 & -> & HT & HP & Hk). simpl.
    destruct (IH Hrest p1) as (p' & -> & Hp'). exists p'. split; [reflexivity|].
    rewrite Hp', (iter_Tick_entry_ext p1 p k _ _ HT HP).
    destruct o as [|view args]; simpl in *.
    + rewrite Hk.
      change (count_ticks (OpTick :: rest)) with (S (count_ticks rest)).
      symmetry.
      exact (Nat.iter_succ_r (count_ticks rest) (Tick_entry p k)
                             (dataByViewID p !! k)).
    + apply negb_true_iff in Ho. rewrite Ho in Hk. rewrite Hk.
      unfold count_ticks. simpl. reflexivity.
Qed.

Lemma with_FramesSinceAccess_same (d : ViewData) :
  with_FramesSinceAccess d (FramesSinceAccess d) = d.
Proof. destruct d; reflexivity. Qed.

(** The age of an entry that is ticked and never accessed. *)
Lemma iter_Tick_entry_fresh (p : T_EGP_PerViewData) (k : Z) (d : ViewData) (n : nat) :
  k ∉ CleanupPreventionByViewID p ->
  FramesSinceAccess d = 0 ->
  -1 <= CleanupFrameThreshold p < max_int ->
  (Z.of_nat n <= CleanupFrameThreshold p + 1 ->
     Nat.iter n (Tick_entry p k) (Some d)
     = Some (with_FramesSinceAccess d (Z.of_nat n)))
  /\ (CleanupFrameThreshold p + 1 < Z.of_nat n ->
     Nat.iter n (Tick_entry p k) (Some d) = None).
Proof.
  intros Hp Hd HT. induction n as [|n [IH1 IH2]].
  - split; [|lia]. intros _. simpl. f_equal.
    change (Z.of_nat 0) with 0. rewrite <- Hd.
    symmetry. apply with_FramesSinceAccess_same.
  - split; intros Hn; simpl.
    + rewrite IH1 by lia. unfold Tick_entry.
      destruct (decide (k ∈ CleanupPreventionByViewID p)); [contradiction|].
      simpl. destruct (Z.gtb_spec (Z.of_nat n) (CleanupFrameThreshold p)); [lia|].
      rewrite wrap32_id by (unfold in_range, min_int, max_int in *; lia).
      do 2 f_equal. lia.
    + destruct (Z_le_gt_dec (Z.of_nat n) (CleanupFrameThreshold p + 1)) as [Hle|Hgt].
      * rewrite IH1 by exact Hle. unfold Tick_entry.
        destruct (decide (k ∈ CleanupPreventionByViewID p)); [contradiction|].
        simpl. destruct (Z.gtb_spec (Z.of_nat n) (CleanupFrameThreshold p));
          [reflexivity|lia].
      * rewrite IH2 by lia. apply Tick_entry_None.
Qed.

(** An unprotected entry that was just accessed and is not accessed
    again is there after [n] ticks exactly when [n <= threshold + 1]. *)
Lemma unaccessed_entry_lifetime (th : ThreadCtx) (p : T_EGP_PerViewData)
    (k : Z) (d : ViewData) (ops : list Op) :
  IsInRenderingThread th = true ->
  dataByViewID p !! k = Some d ->
  k ∉ CleanupPreventionByViewID p ->
  FramesSinceAccess d = 0 ->
  -1 <= CleanupFrameThreshold p < max_int ->
  forallb (fun o => negb (is_access_of k o)) ops = true ->
  exists p', run_ops' th ops p = Some p'
    /\ (is_Some (dataByViewID p' !! k)
        <-> Z.of_nat (count_ticks ops) <= CleanupFrameThreshold p + 1).
Proof.
  intros Hth Hd Hp Hfsa HT Hops.
  destruct (run_ops_unaccessed th k ops Hth Hops p) as (p' & Hrun & Hk).
  exists p'. split; [exact Hrun|]. rewrite Hk, Hd.
  destruct (iter_Tick_entry_fresh p k d (count_ticks ops) Hp Hfsa HT) as [H1 H2].
  destruct (Z_le_gt_dec (Z.of_nat (count_ticks ops)) (CleanupFrameThreshold p + 1))
    as [Hle|Hgt].
  - rewrite H1 by exact Hle. split; [intros _; exact Hle | eauto].
  - rewrite H2 by lia. split; [intros [? [=]] | lia].
Qed.

Lemma accessed_entry_stays (th : ThreadCtx) (k : Z) (ops : list Op) :
  IsInRenderingThread th = true ->
  forall (p : T_EGP_PerViewData) (fresh : bool),
    0 <= CleanupFrameThreshold p ->
    accessed_between_ticks k fresh ops = true ->
    (exists d, dataByViewID p !! k = Some d
               /\ (fresh = true -> FramesSinceAccess d = 0)) ->
    exists p', run_ops' th ops p = Some p' /\ is_Some (dataByViewID p' !! k).
Proof.
  intros Hth. induction ops as [|o rest IH]; intros p fresh HT Hops (d & Hd & Hfresh);
    simpl.
  - exists p. split; [reflexivity|]. rewrite Hd. eauto.
  - destruct (run_op_lookup th o p k Hth) as (p1 & -> & HT1 & HP1 & Hk). simpl.
    destruct o as [|view args]; simpl in Hops, Hk.
    + apply andb_true_iff in Hops as [-> Hrest].
      apply (IH p1 false); [lia | exact Hrest |].
      rewrite Hk, Hd. unfold Tick_entry.
      destruct (decide (k ∈ CleanupPreventionByViewID p)).
      * exists d. split; [reflexivity | discriminate].
      * simpl. rewrite (Hfresh eq_refl).
        destruct (Z.gtb_spec 0 (CleanupFrameThreshold p)); [lia|].
        eexists. split; [reflexivity | discriminate].
    + apply (IH p1 (fresh || (ViewKey view =? k))); [lia | exact Hops |].
      destruct (ViewKey view =? k).
      * destruct Hk as (d' & Hd' & Hfsa). exists d'. split; [exact Hd'|].
        intros _. exact Hfsa.
      * rewrite Hk. exists d. split; [exact Hd|].
        rewrite orb_false_r. exact Hfresh.
Qed.

Lemma protected_entry_stays (th : ThreadCtx) (k : Z) (ops : list Op) :
  IsInRenderingThread th = true ->
  forall p : T_EGP_PerViewData,
    k ∈ CleanupPreventionByViewID p ->
    is_Some (dataByViewID p !! k) ->
    exists p', run_ops' th ops p = Some p' /\ is_Some (dataByViewID p' !! k).
Proof.
  intros Hth. induction ops as [|o rest IH]; intros p Hp Hk; simpl.
  - exists p. split; [reflexivity | exact Hk].
  - destruct (run_op_lookup th o p k Hth) as (p1 & -> & HT1 & HP1 & Hk1). simpl.
    apply IH; [rewrite HP1; exact Hp|].
    destruct o as [|view args].
    + rewrite Hk1. unfold Tick_entry.
      destruct (decide (k ∈ CleanupPreventionByViewID p)); [exact Hk | contradiction].
    + destruct (ViewKey view =? k).
      * destruct Hk1 as (d' & -> & _). eauto.
      * rewrite Hk1. exact Hk.
Qed.

(** C2 (as amended). On the render thread:
    - an unprotected entry that was just accessed and is never accessed
      again, under a threshold between -1 and INT_MAX - 1, is still
      there after [n] ticks exactly when [n <= threshold + 1]: it is gone
      after [threshold + 2] ticks, whatever happens to other views in
      between;
    - an entry that was just accessed and is accessed again between any
      two ticks, under a threshold of at least 0, is never evicted;
    - a protected entry is never evicted, whatever the threshold and
      however many ticks go by without an access. *)
Theorem C2_eviction_after_threshold_plus_two
    (th : ThreadCtx) (Hth : IsInRenderingThread th = true)
    (p1 : T_EGP_PerViewData) (k1 : Z) (d1 : ViewData) (ops1 : list Op)
    (Hcached1 : dataByViewID p1 !! k1 = Some d1)
    (Hunprotected1 : k1 ∉ CleanupPreventionByViewID p1)
    (Hfresh1 : FramesSinceAccess d1 = 0)
    (Hthreshold1 : -1 <= CleanupFrameThreshold p1 < max_int)
    (Hidle1 : forallb (fun o => negb (is_access_of k1 o)) ops1 = true)
    (p2 : T_EGP_PerViewData) (k2 : Z) (d2 : ViewData) (ops2 : list Op)
    (Hcached2 : dataByViewID p2 !! k2 = Some d2)
    (Hfresh2 : FramesSinceAccess d2 = 0)
    (Hthreshold2 : 0 <= CleanupFrameThreshold p2)
    (Haccessed2 : accessed_between_ticks k2 true ops2 = true)
    (p3 : T_EGP_PerViewData) (k3 : Z) (d3 : ViewData) (ops3 : list Op)
    (Hcached3 : dataByViewID p3 !! k3 = Some d3)
    (Hprotected3 : k3 ∈ CleanupPreventionByViewID p3) :
  (exists p', run_ops' th ops1 p1 = Some p'
     /\ (is_Some (dataByViewID p' !! k1)
         <-> Z.of_nat (count_ticks ops1) <= CleanupFrameThreshold p1 + 1))
  /\ (exists p', run_ops' th ops2 p2 = Some p' /\ is_Some (dataByViewID p' !! k2))
  /\ (exists p', run_ops' th ops3 p3 = Some p' /\ is_Some (dataByViewID p' !! k3)).
Proof.
  split; [|split].
  - apply (unaccessed_entry_lifetime th p1 k1 d1 ops1); assumption.
  - apply (accessed_entry_stays th k2 ops2 Hth p2 true Hthreshold2 Haccessed2).
    exists d2. split; [exact Hcached2 | intros _; exact Hfresh2].
  - apply (protected_entry_stays th k3 ops3 Hth p3 Hprotected3).
    rewrite Hcached3. eauto.
Qed.

End PerViewDataFacts.

Section PerViewDataExamples.

Import Int32 PerViewData Samples.

Lemma cache_lookup_7 : dataByViewID cache !! 7 = Some entry7.
Proof. apply lookup_insert_eq. Qed.

Lemma cache_unprotected_7 : 7 ∉ CleanupPreventionByViewID cache.
Proof. simpl. apply not_elem_of_singleton. discriminate. Qed.

Lemma cache_protected_9 : 9 ∈ CleanupPreventionByViewID cache.
Proof. simpl. apply elem_of_singleton. reflexivity. Qed.

Lemma count_ticks_replicate {A : Type} (n : nat) :
  count_ticks (replicate n (@OpTick A)) = n.
Proof.
  unfold count_ticks. induction n as [|n IH]; simpl; [reflexivity|].
  f_equal. exact IH.
Qed.

Lemma no_access_replicate {A : Type} (k : Z) (n : nat) :
  forallb (fun o => negb (is_access_of k o)) (replicate n (@OpTick A)) = true.
Proof. induction n as [|n IH]; simpl; auto. Qed.

Lemma C2_witness :
  (exists p', run_ops Counter_new Counter_Resample RenderThread history cache = Some p'
     /\ (is_Some (dataByViewID p' !! 7)
         <-> Z.of_nat (count_ticks history) <= CleanupFrameThreshold cache + 1))
  /\ (exists p', run_ops Counter_new Counter_Resample RenderThread
                         busy_history cache = Some p'
                 /\ is_Some (dataByViewID p' !! 7))
  /\ (exists p', run_ops Counter_new Counter_Resample RenderThread
                         (replicate 100 OpTick) cache = Some p'
                 /\ is_Some (dataByViewID p' !! 9)).
Proof.
  apply (C2_eviction_after_threshold_plus_two Counter_new Counter_Resample
           RenderThread eq_refl
           cache 7 entry7 history cache_lookup_7 cache_unprotected_7 eq_refl
           ltac:(unfold max_int; simpl; lia) eq_refl
           cache 7 entry7 busy_history cache_lookup_7 eq_refl
           ltac:(simpl; lia) eq_refl
           cache 9 entry9 (replicate 100 OpTick) eq_refl cache_protected_9).
Defined.

(** C2, as stated, has the entry gone after [CleanupFrameThreshold + 1]
    ticks. With the default threshold of 60, a fresh unprotected entry is
    still cached after 61 ticks; the 62nd removes it. *)
Lemma C2_counterexample :
  ~ (forall (p : @T_EGP_PerViewData Z) (k : Z) (d : ViewData),
       dataByViewID p !! k = Some d ->
       k ∉ CleanupPreventionByViewID p ->
       FramesSinceAccess d = 0 ->
       exists p',
         run_ops Counter_new Counter_Resample RenderThread
                 (replicate (Z.to_nat (CleanupFrameThreshold p + 1)) (@OpTick unit)) p
           = Some p'
         /\ dataByViewID p' !! k = None).
Proof.
  intros H.
  destruct (H cache 7 entry7 cache_lookup_7) as (p' & Hrun & Hnone);
    [exact cache_unprotected_7 | reflexivity |].
  destruct (unaccessed_entry_lifetime Counter_new Counter_Resample RenderThread
              cache 7 entry7
              (replicate (Z.to_nat (CleanupFrameThreshold cache + 1)) OpTick))
    as (p'' & Hrun' & Hiff).
  - reflexivity.
  - exact cache_lookup_7.
  - exact cache_unprotected_7.
  - reflexivity.
  - unfold max_int. simpl. lia.
  - apply no_access_replicate.
  - rewrite Hrun in Hrun'. injection Hrun' as <-.
    rewrite count_ticks_replicate in Hiff.
    destruct Hiff as [_ Hsome]. rewrite Hnone in Hsome.
    destruct Hsome as [? [=]]. simpl. lia.
Qed.

(** The 62nd tick removes it. *)
Lemma eviction_at_default_threshold :
  exists p',
    run_ops Counter_new Counter_Resample RenderThread
            (replicate 62 (@OpTick unit)) cache = Some p'
    /\ dataByViewID p' !! 7 = None
    /\ is_Some (dataByViewID p' !! 9).
Proof.
  destruct (unaccessed_entry_lifetime Counter_new Counter_Resample RenderThread
              cache 7 entry7 (replicate 62 OpTick))
    as (p' & Hrun & Hiff).
  - reflexivity.
  - exact cache_lookup_7.
  - exact cache_unprotected_7.
  - reflexivity.
  - unfold max_int. simpl. lia.
  - apply no_access_replicate.
  - exists p'. split; [exact Hrun|]. split.
    + rewrite count_ticks_replicate in Hiff. simpl in Hiff.
      destruct (dataByViewID p' !! 7); [|reflexivity].
      exfalso. destruct Hiff as [Hle _]. specialize (Hle (mk_is_Some _ _ eq_refl)). lia.
    + destruct (protected_entry_stays Counter_new Counter_Resample RenderThread 9
                  (replicate 62 OpTick) eq_refl cache) as (p'' & Hrun' & Hsome).
      * exact cache_protected_9.
      * exists entry9. reflexivity.
      * rewrite Hrun in Hrun'. injection Hrun' as <-. exact Hsome.
Qed.

Lemma C8_witness :
  let changed := FIntRect_ne (PixelSubset entry7) (ViewRect view7_resized) in
  let oldSize := Size (PixelSubset entry7) in
  let newSize := Size (ViewRect view7_resized) in
  let offset := FIntPoint_sub (Min (ViewRect view7_resized))
                              (Min (PixelSubset entry7)) in
  (changed = true <-> PixelSubset entry7 <> ViewRect view7_resized)
  /\ exists p' d',
       DataForView Counter_new Counter_Resample RenderThread view7_resized tt cache
       = Some (p', User d',
               if changed then [Call_Resample view7_resized oldSize newSize offset]
               else [])
       /\ User d'
          = (if changed
             then Counter_Resample (User entry7) view7_resized oldSize newSize offset
             else User entry7)
       /\ dataByViewID p' !! ViewKey view7_resized = Some d'
       /\ PixelSubset d' = ViewRect view7_resized
       /\ forall args2, exists p'',
            DataForView Counter_new Counter_Resample RenderThread
                        view7_resized args2 p' = Some (p'', User d', []).
Proof.
  apply (C8_DataForView_resamples_once Counter_new Counter_Resample
           RenderThread view7_resized tt cache entry7).
  - reflexivity.
  - apply lookup_insert_eq.
Defined.

(** The resize from (0,0)-(100,100) to (10,20)-(50,60): sizes 100x100 and
    40x40, offset (10,20). *)
Lemma Resample_arguments_example :
  (Size (PixelSubset entry7), Size (ViewRect view7_resized),
   FIntPoint_sub (Min (ViewRect view7_resized)) (Min (PixelSubset entry7)))
  = ({| X := 100; Y := 100 |}, {| X := 40; Y := 40 |}, {| X := 10; Y := 20 |}).
Proof. reflexivity. Qed.

End PerViewDataExamples.

(** ** Passes and the subsystem *)

Section SubsystemFacts.

Import RenderPasses.

Context {float : Type}.

Abbreviation Engine := (RenderPasses.Engine float).

Lemma bind_unfold {A B} (c : M float A) (k : A -> M float B) (e : Engine) :
  bind c k e = match c e with
               | Some (a, e') => k a e'
               | None => None
               end.
Proof. reflexivity. Qed.

Lemma IsReadyForFinishDestroy_iff (e : Engine) :
  IsReadyForFinishDestroy e = true <-> all_fences_complete e.
Proof.
  unfold IsReadyForFinishDestroy, all_fences_complete, IsFenceComplete.
  rewrite forallb_forall. split.
  - intros H pass fence Hf.
    specialize (H (pass, fence)). simpl in H.
    eapply bool_decide_eq_true_1. apply H.
    apply list_elem_of_In, elem_of_map_to_list. exact Hf.
  - intros H [pass fence] Hin. simpl.
    apply bool_decide_eq_true_2. apply (H pass).
    apply elem_of_map_to_list, list_elem_of_In. exact Hin.
Qed.

Lemma IsReadyForFinishDestroy_false (e : Engine) (pass fence : Z) :
  dyingPassFences (subsystem e) !! pass = Some fence ->
  fence ∉ completedFences e ->
  IsReadyForFinishDestroy e = false.
Proof.
  intros Hf Hn. apply not_true_is_false. rewrite IsReadyForFinishDestroy_iff.
  intros H. apply Hn. apply (H pass). exact Hf.
Qed.

(** An external destroy during normal operation, step by step. *)
Lemma DestroyPass_GameThread_live (th : ThreadCtx) (e : Engine) (type pass scene : Z) :
  IsInGameThread th = true ->
  isCurrentlyDying (subsystem e) = false ->
  passes (subsystem e) !! type = Some pass ->
  worldScene e = Some scene ->
  DestroyPass_GameThread th type e
  = Some (true,
          {| worldScene := worldScene e;
             subsystem :=
               {| passes := delete type (passes (subsystem e));
                  dyingPassFences :=
                    <[pass := nextObject e]> (dyingPassFences (subsystem e));
                  isCurrentlyDying := false |};
             passObjects := passObjects e;
             componentObjects := componentObjects e;
             renderQueue :=
               (renderQueue e ++ [CleanupPass pass true])
                 ++ [RenderFence (nextObject e)];
             completedFences := completedFences e;
             nextObject := nextObject e + 1;
             engineLog := engineLog e |}).
Proof.
  intros Hth Hdying Hpass Hworld.
  unfold DestroyPass_GameThread, DestroyPass_Impl_GameThread, fenced_cleanup,
    get_subsystem, GetWorld, bind, check, get, ret, lift.
  rewrite Hth. simpl. rewrite Hpass, Hdying. simpl. rewrite Hworld. simpl.
  unfold with_dyingPassFences, with_passes. simpl. rewrite Hdying. reflexivity.
Qed.

(** *** What render commands leave alone *)

Lemma only_objects_changed_refl (e : Engine) : only_objects_changed e e.
Proof. repeat split. Qed.

Lemma only_objects_changed_trans (e1 e2 e3 : Engine) :
  only_objects_changed e1 e2 -> only_objects_changed e2 e3 ->
  only_objects_changed e1 e3.
Proof.
  unfold only_objects_changed. intros (?&?&?&?&?) (?&?&?&?&?).
  repeat split; congruence.
Qed.

Lemma too_ret {A} (a : A) : touches_only_objects (@ret float A a).
Proof. intros e a' e' [= _ <-]. apply only_objects_changed_refl. Qed.

Lemma too_bind {A B} (c : M float A) (k : A -> M float B) :
  touches_only_objects c -> (forall a, touches_only_objects (k a)) ->
  touches_only_objects (bind c k).
Proof.
  intros Hc Hk e b e' H. unfold bind in H.
  destruct (c e) as [[a e1]|] eqn:E; [|discriminate].
  eapply only_objects_changed_trans; [eapply Hc; exact E | eapply Hk; exact H].
Qed.

Lemma too_fail {A} : touches_only_objects (@fail float A).
Proof. intros e a e' [=]. Qed.

Lemma too_check (b : bool) : touches_only_objects (@check float b).
Proof. destruct b; [apply too_ret | apply too_fail]. Qed.

Lemma too_lift {A} (o : option A) : touches_only_objects (@lift float A o).
Proof. destruct o; [apply too_ret | apply too_fail]. Qed.

Lemma too_get : touches_only_objects (@get float).
Proof. intros e a e' [= _ <-]. apply only_objects_changed_refl. Qed.

Lemma too_set_pass (p : Z) (o : U_EGP_RenderPass) :
  touches_only_objects (@set_pass float p o).
Proof. intros e a e' [= _ <-]. repeat split. Qed.

Lemma too_set_component (c : Z) (o : U_EGP_RenderPassComponent) :
  touches_only_objects (@set_component float c o).
Proof. intros e a e' [= _ <-]. repeat split. Qed.

Lemma too_UE_LOG (l : LogLine) : touches_only_objects (@UE_LOG float l).
Proof. intros e a e' [= _ <-]. repeat split. Qed.

Lemma too_deref_pass (p : Z) : touches_only_objects (@deref_pass float p).
Proof. apply too_bind; [apply too_get | intros; apply too_lift]. Qed.

Lemma too_deref_component (c : Z) : touches_only_objects (@deref_component float c).
Proof. apply too_bind; [apply too_get | intros; apply too_lift]. Qed.

Lemma too_forM_ {A} (l : list A) (body : A -> M float unit) :
  (forall a, touches_only_objects (body a)) ->
  touches_only_objects (forM_ l body).
Proof.
  intros Hb. induction l as [|a l IH]; simpl; [apply too_ret|].
  apply too_bind; [apply Hb | intros; exact IH].
Qed.

Create HintDb too discriminated.
#[local] Hint Resolve too_ret too_fail too_check too_lift too_get too_set_pass
  too_set_component too_UE_LOG too_deref_pass too_deref_component : too.

Ltac too_auto :=
  repeat first
    [ apply too_bind; [|intros]
    | apply too_forM_; intros
    | match goal with
      | |- touches_only_objects (if ?b then _ else _) => destruct b
      end
    | solve [auto with too] ].

Lemma too_add_component_proxy (th : ThreadCtx) (p c : Z) :
  touches_only_objects (@add_component_proxy float th p c).
Proof. unfold add_component_proxy, GetProxy_RenderThread. too_auto. Qed.

Section WithHook.

Variable Tick_RenderThread : U_EGP_RenderPass -> Z -> float -> U_EGP_RenderPass.

(** Every command but a fence marker only touches objects; the marker
    completes its fence and nothing else. *)
Lemma run_command_effect (th : ThreadCtx) (cmd : RenderCommand float)
    (e e' : Engine) :
  run_command Tick_RenderThread th cmd e = Some (tt, e') ->
  worldScene e' = worldScene e
  /\ subsystem e' = subsystem e
  /\ renderQueue e' = renderQueue e
  /\ nextObject e' = nextObject e
  /\ completedFences e'
     = match cmd with
       | RenderFence fence => {[fence]} ∪ completedFences e
       | _ => completedFences e
       end.
Proof.
  intros H.
  assert (Hobj : (forall f, cmd <> RenderFence f) -> only_objects_changed e e').
  { intros Hnf. revert H.
    assert (Ht : touches_only_objects (run_command Tick_RenderThread th cmd)).
    { destruct cmd; simpl; unfold rebuild_proxies;
        try (too_auto; fail).
      exfalso. eapply Hnf. reflexivity. }
    apply Ht. }
  destruct cmd; try (destruct Hobj as (?&?&?&?&?); [discriminate|]; tauto).
  simpl in H. injection H as <-. simpl. tauto.
Qed.

(** Running the render thread over its whole queue: the queue ends up
    empty and exactly the fences that were in it have become complete. *)
Lemma render_thread_steps_drain (cmds : list (RenderCommand float)) :
  forall e e'' : Engine,
    renderQueue e = cmds ->
    render_thread_steps Tick_RenderThread (length cmds) e = Some (tt, e'') ->
    renderQueue e'' = []
    /\ subsystem e'' = subsystem e
    /\ forall f, f ∈ completedFences e''
                 <-> f ∈ completedFences e \/ In (RenderFence f) cmds.
Proof.
  induction cmds as [|cmd rest IH]; intros e e'' Hq; simpl.
  - intros [= <-]. split; [exact Hq|]. split; [reflexivity|]. tauto.
  - unfold bind, render_thread_step at 1. rewrite Hq.
    destruct (run_command Tick_RenderThread RenderThread cmd _)
      as [[[] e1]|] eqn:E; [|discriminate].
    intros Hrest.
    apply run_command_effect in E as (Hw & Hs & Hq1 & Hn & Hc). simpl in *.
    destruct (IH e1 e'' Hq1 Hrest) as (Hq'' & Hs'' & Hc'').
    split; [exact Hq''|]. split; [congruence|].
    intros f. rewrite Hc'', Hc.
    destruct cmd;
      try (split; [tauto | intros [?|[?|?]]; [tauto | discriminate | tauto]]).
    rewrite elem_of_union, elem_of_singleton.
    split; [intros [[->|]|]; auto | intros [|[[= ->]|]]; auto].
Qed.

End WithHook.

(** *** Subsystem teardown *)

(** The internal call made by the teardown sweep returns before the
    fence is made and before anything is posted. *)
Lemma DestroyPass_Impl_dying_internal (th : ThreadCtx) (type : Z) (e : Engine) :
  IsInGameThread th = true ->
  isCurrentlyDying (subsystem e) = true ->
  DestroyPass_Impl_GameThread th type false e
  = Some (bool_decide (is_Some (passes (subsystem e) !! type)), e).
Proof.
  intros Hth Hd.
  unfold DestroyPass_Impl_GameThread, get_subsystem, bind, check, get, ret.
  rewrite Hth. simpl. rewrite Hd.
  destruct (passes (subsystem e) !! type) as [pass|] eqn:E; reflexivity.
Qed.

Lemma BeginDestroy_sweep (th : ThreadCtx) (l : list (Z * Z)) (e : Engine) :
  IsInGameThread th = true ->
  isCurrentlyDying (subsystem e) = true ->
  (forall kv, In kv l -> is_Some (passObjects e !! kv.2)) ->
  forM_ l (fun type : Z * Z =>
             bind (deref_pass type.2)
                  (fun o => bind (DestroyPass_Impl_GameThread th (GetClass o) false)
                                 (fun _ => ret tt))) e
  = Some (tt, e).
Proof.
  intros Hth Hd. induction l as [|kv l IH]; intros Hobj; simpl; [reflexivity|].
  destruct (Hobj kv (or_introl eq_refl)) as [o Ho].
  rewrite !bind_unfold. cbn [deref_pass bind get]. rewrite Ho.
  cbn [lift ret]. rewrite bind_unfold.
  rewrite (DestroyPass_Impl_dying_internal th (GetClass o) e Hth Hd).
  cbn [ret].
  apply IH. intros kv' Hin. apply Hobj. right. exact Hin.
Qed.

(** [BeginDestroy] as a whole: the flag is set and [passes] emptied; the
    queue and [dyingPassFences] are what they were. *)
Lemma BeginDestroy_effect (th : ThreadCtx) (e : Engine) :
  IsInGameThread th = true ->
  (forall type pass, passes (subsystem e) !! type = Some pass ->
                     is_Some (passObjects e !! pass)) ->
  BeginDestroy th e
  = Some (tt,
          {| worldScene := worldScene e;
             subsystem := {| passes := ∅;
                             dyingPassFences := dyingPassFences (subsystem e);
                             isCurrentlyDying := true |};
             passObjects := passObjects e;
             componentObjects := componentObjects e;
             renderQueue := renderQueue e;
             completedFences := completedFences e;
             nextObject := nextObject e;
             engineLog := engineLog e |}).
Proof.
  intros Hth Hobj. unfold BeginDestroy.
  rewrite bind_unfold. cbn [get_subsystem bind get ret].
  rewrite bind_unfold. cbn [set_subsystem]. rewrite bind_unfold.
  rewrite BeginDestroy_sweep; [reflexivity | exact Hth | reflexivity |].
  intros [type pass] Hin. simpl.
  apply (Hobj type). apply elem_of_map_to_list, list_elem_of_In. exact Hin.
Qed.

(** *** Destroying a pass *)

Lemma GetPass_missing (th : ThreadCtx) (type scene : Z) (e : Engine) :
  IsInGameThread th = true ->
  worldScene e = Some scene ->
  passes (subsystem e) !! type = None ->
  GetPass th type false e = Some (None, e).
Proof.
  intros Hth Hw Hp.
  unfold GetPass, GetWorld, get_subsystem, bind, check, get, ret, lift.
  rewrite Hth. simpl. rewrite Hw. simpl. rewrite Hp. reflexivity.
Qed.

Section FencedDestroy.

Variable Tick_RenderThread : U_EGP_RenderPass -> Z -> float -> U_EGP_RenderPass.

(** C3. During normal operation, destroying a pass that exists returns
    true and at once: removes the pass from [passes], so that
    [GetPass(type, false)] finds nothing; posts the pass's render-thread
    cleanup followed by the marker of a freshly made fence, recorded for
    the pass in [dyingPassFences]. The fence is not complete yet, so
    [IsReadyForFinishDestroy] is false. In every state
    [IsReadyForFinishDestroy] is true exactly when all recorded fences
    (those of passes destroyed earlier included) are complete, and once
    the render thread has worked through the queue they all are. *)
Theorem C3_DestroyPass_is_fenced
    (th : ThreadCtx) (e : Engine) (type pass scene : Z)
    (Hth : IsInGameThread th = true)
    (Hlive : isCurrentlyDying (subsystem e) = false)
    (Hpass : passes (subsystem e) !! type = Some pass)
    (Hworld : worldScene e = Some scene)
    (Hfresh : nextObject e ∉ completedFences e)
    (Hbegun : fences_begun e) :
  exists e',
    DestroyPass_GameThread th type e = Some (true, e')
    /\ passes (subsystem e') !! type = None
    /\ GetPass th type false e' = Some (None, e')
    /\ renderQueue e'
       = renderQueue e ++ [CleanupPass pass true; RenderFence (nextObject e)]
    /\ dyingPassFences (subsystem e') !! pass = Some (nextObject e)
    /\ (forall other, other <> pass ->
          dyingPassFences (subsystem e') !! other
          = dyingPassFences (subsystem e) !! other)
    /\ IsFenceComplete e' (nextObject e) = false
    /\ IsReadyForFinishDestroy e' = false
    /\ (forall e0 : Engine,
          IsReadyForFinishDestroy e0 = true <-> all_fences_complete e0)
    /\ fences_begun e'
    /\ (forall e'',
          render_thread_steps Tick_RenderThread (length (renderQueue e')) e'
            = Some (tt, e'') ->
          IsReadyForFinishDestroy e'' = true).
Proof.
  eexists. split; [apply (DestroyPass_GameThread_live th e type pass scene); assumption|].
  simpl.
  assert (Hbegun' :
            fences_begun
              {| worldScene := worldScene e;
                 subsystem :=
                   {| passes := delete type (passes (subsystem e));
                      dyingPassFences :=
                        <[pass := nextObject e]> (dyingPassFences (subsystem e));
                      isCurrentlyDying := false |};
                 passObjects := passObjects e;
                 componentObjects := componentObjects e;
                 renderQueue :=
                   (renderQueue e ++ [CleanupPass pass true])
                     ++ [RenderFence (nextObject e)];
                 completedFences := completedFences e;
                 nextObject := nextObject e + 1;
                 engineLog := engineLog e |}).
  { intros q g. simpl. intros Hq.
    destruct (decide (q = pass)) as [->|Hne].
    - rewrite lookup_insert_eq in Hq. injection Hq as <-.
      right. apply in_or_app. right. left. reflexivity.
    - rewrite lookup_insert_ne in Hq by congruence.
      destruct (Hbegun q g Hq) as [|Hin]; [left; assumption|].
      right. apply in_or_app. left. apply in_or_app. left. exact Hin. }
  split; [apply lookup_delete_eq|].
  split; [apply (GetPass_missing th type scene); [exact Hth | exact Hworld
                                                 | apply lookup_delete_eq]|].
  split; [rewrite <- app_assoc; reflexivity|].
  split; [apply lookup_insert_eq|].
  split; [intros other Hne; apply lookup_insert_ne; congruence|].
  split; [apply bool_decide_eq_false_2; exact Hfresh|].
  split; [eapply IsReadyForFinishDestroy_false;
          [simpl; apply lookup_insert_eq | exact Hfresh]|].
  split; [exact IsReadyForFinishDestroy_iff|].
  split; [exact Hbegun'|].
  intros e'' Hrun.
  apply render_thread_steps_drain in Hrun as (_ & Hs & Hc); [|reflexivity].
  apply IsReadyForFinishDestroy_iff. intros q g Hq.
  rewrite Hs in Hq. apply Hc.
  destruct (Hbegun' q g Hq) as [|]; [left|right]; assumption.
Qed.

End FencedDestroy.

End SubsystemFacts.

Lemma engine_with_dying_pass_begun :
  RenderPasses.fences_begun Samples.engine_with_dying_pass.
Proof.
  intros q g H. simpl in H. apply lookup_singleton_Some in H as [_ <-].
  right. simpl. auto.
Qed.

Lemma C3_witness :
  exists e',
    RenderPasses.DestroyPass_GameThread GameThread 5 Samples.engine_with_dying_pass
      = Some (true, e')
    /\ RenderPasses.passes (RenderPasses.subsystem e') !! 5 = None
    /\ RenderPasses.GetPass GameThread 5 false e' = Some (None, e')
    /\ RenderPasses.renderQueue e'
       = RenderPasses.renderQueue Samples.engine_with_dying_pass
         ++ [RenderPasses.CleanupPass 1 true;
             RenderPasses.RenderFence
               (RenderPasses.nextObject Samples.engine_with_dying_pass)]
    /\ RenderPasses.dyingPassFences (RenderPasses.subsystem e') !! 1
       = Some (RenderPasses.nextObject Samples.engine_with_dying_pass)
    /\ (forall other, other <> 1 ->
          RenderPasses.dyingPassFences (RenderPasses.subsystem e') !! other
          = RenderPasses.dyingPassFences
              (RenderPasses.subsystem Samples.engine_with_dying_pass) !! other)
    /\ RenderPasses.IsFenceComplete e'
         (RenderPasses.nextObject Samples.engine_with_dying_pass) = false
    /\ RenderPasses.IsReadyForFinishDestroy e' = false
    /\ (forall e0 : RenderPasses.Engine unit,
          RenderPasses.IsReadyForFinishDestroy e0 = true
          <-> RenderPasses.all_fences_complete e0)
    /\ RenderPasses.fences_begun e'
    /\ (forall e'',
          RenderPasses.render_thread_steps RenderPasses.Tick_RenderThread_base
            (length (RenderPasses.renderQueue e')) e' = Some (tt, e'') ->
          RenderPasses.IsReadyForFinishDestroy e'' = true).
Proof.
  apply (C3_DestroyPass_is_fenced RenderPasses.Tick_RenderThread_base
           GameThread Samples.engine_with_dying_pass 5 1 100).
  - reflexivity.
  - reflexivity.
  - apply lookup_singleton_eq.
  - reflexivity.
  - apply not_elem_of_empty.
  - exact engine_with_dying_pass_begun.
Defined.

(** On that sample the render thread does get through the queue, and
    the subsystem is then ready. *)
Lemma fences_complete_after_drain :
  exists e' e3 e4,
    RenderPasses.DestroyPass_GameThread GameThread 5 Samples.engine_with_dying_pass
      = Some (true, e')
    /\ RenderPasses.IsReadyForFinishDestroy e' = false
    /\ RenderPasses.exec
         (RenderPasses.render_thread_steps RenderPasses.Tick_RenderThread_base 3)
         e' = Some e3
    /\ RenderPasses.IsReadyForFinishDestroy e3 = false
    /\ RenderPasses.exec
         (RenderPasses.render_thread_steps RenderPasses.Tick_RenderThread_base 4)
         e' = Some e4
    /\ RenderPasses.IsReadyForFinishDestroy e4 = true.
Proof.
  do 3 eexists. split; [vm_compute; reflexivity|].
  split; [vm_compute; reflexivity|].
  split; [vm_compute; reflexivity|].
  split; [vm_compute; reflexivity|].
  split; vm_compute; reflexivity.
Qed.

Section TeardownExample.

Import RenderPasses Samples.

Lemma engine_with_pass_from_GetPass :
  GetPass GameThread 5 true (Engine_init (float := unit) 100)
  = Some (Some 1, engine_with_pass).
Proof. reflexivity. Qed.

(** C1 (the code at the failing input). A subsystem holding one live
    pass begins destruction: [passes] is emptied, but no cleanup command
    is posted, no fence is made, and [IsReadyForFinishDestroy] is true at
    once. The same pass destroyed by an external call beforehand does get
    its cleanup and its fence. *)
Theorem C1_BeginDestroy_posts_no_cleanup :
  GetPass GameThread 5 true (Engine_init (float := unit) 100)
    = Some (Some 1, engine_with_pass)
  /\ exists e',
       BeginDestroy GameThread engine_with_pass = Some (tt, e')
       /\ isCurrentlyDying (subsystem e') = true
       /\ passes (subsystem e') = ∅
       /\ renderQueue e' = renderQueue engine_with_pass
       /\ dyingPassFences (subsystem e') = ∅
       /\ IsReadyForFinishDestroy e' = true
       /\ exists e2,
            DestroyPass_GameThread GameThread 5 engine_with_pass = Some (true, e2)
            /\ renderQueue e2
               = renderQueue engine_with_pass ++ [CleanupPass 1 true; RenderFence 2]
            /\ dyingPassFences (subsystem e2) !! 1 = Some 2
            /\ IsReadyForFinishDestroy e2 = false.
Proof.
  split; [exact engine_with_pass_from_GetPass|].
  eexists. split.
  - apply BeginDestroy_effect; [reflexivity|].
    intros type pass H. simpl in H.
    apply lookup_singleton_Some in H as [_ <-]. simpl.
    rewrite lookup_singleton_eq. eauto.
  - simpl. repeat split.
    eexists. split.
    + apply (DestroyPass_GameThread_live GameThread engine_with_pass 5 1 100);
        reflexivity.
    + simpl. split; [reflexivity|]. split; [apply lookup_insert_eq|].
      eapply IsReadyForFinishDestroy_false; [simpl; apply lookup_insert_eq|].
      simpl. apply not_elem_of_empty.
Qed.

End TeardownExample.

(** ** The per-frame tick of a pass *)

Section PassTickFacts.

Import RenderPasses.

Context {float : Type}.

Abbreviation Engine := (RenderPasses.Engine float).

Lemma TSet_Remove_not_in (c : Z) (s : list Z) : c ∉ TSet_Remove c s.
Proof.
  unfold TSet_Remove. rewrite list_elem_of_In, filter_In.
  intros [_ H]. rewrite Z.eqb_refl in H. discriminate.
Qed.

Lemma UnregisterPassComponent_effect (th : ThreadCtx) (p c : Z) (e0 e : Engine)
    (o : U_EGP_RenderPass) :
  UnregisterPassComponent th p c e0 = Some (tt, e) ->
  passObjects e !! p = Some o ->
  c ∉ Components_GameThread o.
Proof.
  unfold UnregisterPassComponent, deref_pass, set_pass, bind, check, get, lift, ret, fail.
  destruct (IsInGameThread th); [|discriminate].
  destruct (passObjects e0 !! p) as [o0|]; [|discriminate].
  intros [= <-]. simpl. rewrite lookup_insert_eq. intros [= <-]. simpl.
  apply TSet_Remove_not_in.
Qed.

(** The game-thread half: exactly one command is posted, carrying the
    registered components that are valid now. *)
Lemma Tick_GameThread_effect (p scene : Z) (dt : float) (e : Engine)
    (o : U_EGP_RenderPass) :
  passObjects e !! p = Some o ->
  exists e1,
    Tick_GameThread p scene dt e = Some (tt, e1)
    /\ renderQueue e1
       = renderQueue e
         ++ [UpdateCustomRenderPassProxies p scene dt
               (List.filter (IsValid_ptr e) (Components_GameThread o))]
    /\ componentObjects e1 = componentObjects e
    /\ subsystem e1 = subsystem e
    /\ completedFences e1 = completedFences e
    /\ is_Some (passObjects e1 !! p).
Proof.
  intros Ho.
  unfold Tick_GameThread, collect_valid, deref_pass, set_pass, UE_LOG,
    ENQUEUE_RENDER_COMMAND, bind, get, lift, ret.
  rewrite Ho. simpl.
  destruct (negb (warnedAboutArrayHeapUsage o)
            && (StackCount <? length (List.filter (IsValid_ptr e)
                                        (Components_GameThread o)))%nat);
    simpl; eexists; repeat split; simpl;
    rewrite ?lookup_insert_eq, ?Ho; eauto.
Qed.

(** One iteration of the rebuild loop. *)
Lemma add_component_proxy_effect (th : ThreadCtx) (p c : Z) (e : Engine)
    (o : U_EGP_RenderPass) (co : U_EGP_RenderPassComponent) :
  IsInRenderingThread th = true ->
  passObjects e !! p = Some o ->
  componentObjects e !! c = Some co ->
  exists e' o',
    add_component_proxy th p c e = Some (tt, e')
    /\ passObjects e' !! p = Some o'
    /\ ComponentProxies_RenderThread o'
       = <[c := renderThreadProxy co]> (ComponentProxies_RenderThread o)
    /\ Components_GameThread o' = Components_GameThread o
    /\ componentObjects e' = componentObjects e.
Proof.
  intros Hth Ho Hco.
  unfold add_component_proxy, GetProxy_RenderThread, deref_component, deref_pass,
    set_pass, UE_LOG, bind, check, get, lift, ret.
  rewrite Hth. simpl. rewrite Hco. simpl. rewrite Ho. simpl.
  destruct (negb (warnedAboutProxyHeapUsage o)
            && (MaxInlineProxyByteSize <? length (renderThreadProxy co))%nat);
    simpl; rewrite ?lookup_insert_eq, ?Ho; simpl;
    do 2 eexists; (split; [reflexivity|]); simpl;
    rewrite lookup_insert_eq; repeat split.
Qed.

Lemma rebuild_loop_effect (th : ThreadCtx) (p : Z) (cs : list Z) :
  IsInRenderingThread th = true ->
  forall (e : Engine) (o : U_EGP_RenderPass),
    passObjects e !! p = Some o ->
    (forall c, c ∈ cs -> is_Some (componentObjects e !! c)) ->
    exists e' o',
      forM_ cs (add_component_proxy th p) e = Some (tt, e')
      /\ passObjects e' !! p = Some o'
      /\ Components_GameThread o' = Components_GameThread o
      /\ componentObjects e' = componentObjects e
      /\ forall c,
           ComponentProxies_RenderThread o' !! c
           = if decide (c ∈ cs)
             then renderThreadProxy <$> componentObjects e !! c
             else ComponentProxies_RenderThread o !! c.
Proof.
  intros Hth. induction cs as [|c0 cs IH]; intros e o Ho Hcs; simpl.
  - exists e, o. repeat split; assumption.
  - destruct (Hcs c0) as [co Hco]; [left|].
    destruct (add_component_proxy_effect th p c0 e o co Hth Ho Hco)
      as (e1 & o1 & Hrun & Ho1 & Htab & Hreg & Hcomp).
    rewrite bind_unfold, Hrun.
    destruct (IH e1 o1 Ho1) as (e' & o' & Hrun' & Ho' & Hreg' & Hcomp' & Htab').
    { intros c Hc. rewrite Hcomp. apply Hcs. right. exact Hc. }
    exists e', o'. split; [exact Hrun'|]. split; [exact Ho'|].
    split; [congruence|]. split; [congruence|].
    intros c. rewrite Htab', Htab, Hcomp.
    destruct (decide (c ∈ cs)) as [Hin|Hnin].
    + destruct (decide (c ∈ c0 :: cs)) as [|Hn]; [reflexivity|].
      exfalso. apply Hn. right. exact Hin.
    + destruct (decide (c = c0)) as [->|Hne].
      * rewrite lookup_insert_eq, Hco.
        destruct (decide (c0 ∈ c0 :: cs)) as [|Hn]; [reflexivity|].
        exfalso. apply Hn. left.
      * rewrite lookup_insert_ne by congruence.
        destruct (decide (c ∈ c0 :: cs)) as [Hin|]; [|reflexivity].
        apply elem_of_cons in Hin as [|]; contradiction.
Qed.

(** The whole rebuild: the table holds exactly the snapshot, each
    component mapped to the proxy it has published by now. *)
Lemma rebuild_proxies_effect (th : ThreadCtx) (p : Z) (cs : list Z)
    (e : Engine) (o : U_EGP_RenderPass) :
  IsInRenderingThread th = true ->
  passObjects e !! p = Some o ->
  (forall c, c ∈ cs -> is_Some (componentObjects e !! c)) ->
  exists e' o',
    rebuild_proxies th p cs e = Some (tt, e')
    /\ passObjects e' !! p = Some o'
    /\ Components_GameThread o' = Components_GameThread o
    /\ componentObjects e' = componentObjects e
    /\ forall c,
         ComponentProxies_RenderThread o' !! c
         = if decide (c ∈ cs)
           then renderThreadProxy <$> componentObjects e !! c
           else None.
Proof.
  intros Hth Ho Hcs. unfold rebuild_proxies.
  rewrite bind_unfold. cbn [deref_pass bind get]. rewrite Ho. cbn [lift ret].
  rewrite bind_unfold. cbn [set_pass].
  match goal with
  | |- context [forM_ cs _ ?e1] =>
      destruct (rebuild_loop_effect th p cs Hth e1
                  (with_ComponentProxies_RenderThread o ∅))
        as (e' & o' & Hrun & Ho' & Hreg & Hcomp & Htab)
  end.
  - simpl. apply lookup_insert_eq.
  - exact Hcs.
  - exists e', o'. split; [exact Hrun|]. split; [exact Ho'|].
    split; [exact Hreg|]. split; [exact Hcomp|].
    intros c. rewrite Htab. simpl.
    destruct (decide (c ∈ cs)); [reflexivity | apply lookup_empty].
Qed.

Section TickTheorem.

Variable Tick_RenderThread : U_EGP_RenderPass -> Z -> float -> U_EGP_RenderPass.

Lemma run_UpdateCustomRenderPassProxies (p scene : Z) (dt : float) (cs : list Z)
    (e2 : Engine) (o2 : U_EGP_RenderPass) :
  passObjects e2 !! p = Some o2 ->
  (forall c, c ∈ cs -> is_Some (componentObjects e2 !! c)) ->
  exists e3 o3,
    run_command Tick_RenderThread RenderThread
                (UpdateCustomRenderPassProxies p scene dt cs) e2 = Some (tt, e3)
    /\ (forall c,
          ComponentProxies_RenderThread o3 !! c
          = if decide (c ∈ cs)
            then renderThreadProxy <$> componentObjects e2 !! c
            else None)
    /\ Components_GameThread o3 = Components_GameThread o2
    /\ passObjects e3 !! p = Some (Tick_RenderThread o3 scene dt)
    /\ componentObjects e3 = componentObjects e2.
Proof.
  intros Ho2 Hcs. cbn [run_command].
  destruct (rebuild_proxies_effect RenderThread p cs e2 o2 eq_refl Ho2 Hcs)
    as (e' & o' & Hrun & Ho' & Hreg & Hcomp & Htab).
  rewrite bind_unfold, Hrun.
  rewrite bind_unfold. cbn [deref_pass bind get]. rewrite Ho'. cbn [lift ret set_pass].
  eexists _, o'. split; [reflexivity|]. split; [exact Htab|]. split; [exact Hreg|].
  simpl. split; [apply lookup_insert_eq | exact Hcomp].
Qed.

(** C5. A tick of a pass posts exactly one command, carrying the
    registered components that are valid at that moment (so not a
    component that was unregistered just before). When the render thread
    runs the command, it first rebuilds the proxy table: one entry per
    component of the snapshot, holding the proxy the component has
    published by then, and nothing else. Only then is the per-frame hook
    called, on the pass with the rebuilt table. *)
Theorem C5_tick_rebuilds_table_then_calls_hook
    (e : Engine) (p scene : Z) (dt : float) (o : U_EGP_RenderPass)
    (Hpass : passObjects e !! p = Some o) :
  let snapshot := List.filter (IsValid_ptr e) (Components_GameThread o) in
  let cmd := UpdateCustomRenderPassProxies p scene dt snapshot in
  (exists e1,
     Tick_GameThread p scene dt e = Some (tt, e1)
     /\ renderQueue e1 = renderQueue e ++ [cmd])
  /\ (forall c, c ∈ snapshot <->
                c ∈ Components_GameThread o /\ IsValid_ptr e c = true)
  /\ (forall th e0 c,
        UnregisterPassComponent th p c e0 = Some (tt, e) -> c ∉ snapshot)
  /\ (forall (e2 : Engine) (o2 : U_EGP_RenderPass),
        passObjects e2 !! p = Some o2 ->
        (forall c, c ∈ snapshot -> is_Some (componentObjects e2 !! c)) ->
        exists e3 o3,
          run_command Tick_RenderThread RenderThread cmd e2 = Some (tt, e3)
          /\ (forall c,
                ComponentProxies_RenderThread o3 !! c
                = if decide (c ∈ snapshot)
                  then renderThreadProxy <$> componentObjects e2 !! c
                  else None)
          /\ passObjects e3 !! p = Some (Tick_RenderThread o3 scene dt)
          /\ componentObjects e3 = componentObjects e2).
Proof.
  intros snapshot cmd.
  assert (Hsnap : forall c, c ∈ snapshot <->
                    c ∈ Components_GameThread o /\ IsValid_ptr e c = true).
  { intros c. unfold snapshot. rewrite !list_elem_of_In. apply filter_In. }
  split; [|split; [exact Hsnap|split]].
  - destruct (Tick_GameThread_effect p scene dt e o Hpass) as (e1 & Hrun & Hq & _).
    exists e1. split; [exact Hrun | exact Hq].
  - intros th e0 c Hun Hin. apply Hsnap in Hin as [Hin _].
    exact (UnregisterPassComponent_effect th p c e0 e o Hun Hpass Hin).
  - intros e2 o2 Ho2 Hcs.
    destruct (run_UpdateCustomRenderPassProxies p scene dt snapshot e2 o2 Ho2 Hcs)
      as (e3 & o3 & Hrun & Htab & _ & Ho3 & Hcomp).
    exists e3, o3. auto.
Qed.

End TickTheorem.

End PassTickFacts.

(** ** EnabledInCustomPass *)

Section EnabledFlagFacts.

Import RenderPasses.

Context {float : Type}.

Abbreviation Engine := (RenderPasses.Engine float).
Abbreviation M := (RenderPasses.M float).

Lemma same_up_to_enabled_refl (e : Engine) : same_up_to_enabled e e.
Proof.
  repeat split. intros c. destruct (componentObjects e !! c); constructor.
  repeat split.
Qed.

Lemma M_rel_ret {A} (RA : A -> A -> Prop) (a1 a2 : A) :
  RA a1 a2 -> M_rel (float := float) RA (ret a1) (ret a2).
Proof. intros H e1 e2 He. constructor. split; assumption. Qed.

Lemma M_rel_bind {A B} (RA : A -> A -> Prop) (RB : B -> B -> Prop)
    (c1 c2 : M A) (k1 k2 : A -> M B) :
  M_rel RA c1 c2 ->
  (forall a1 a2, RA a1 a2 -> M_rel RB (k1 a1) (k2 a2)) ->
  M_rel RB (bind c1 k1) (bind c2 k2).
Proof.
  intros Hc Hk e1 e2 He. unfold bind.
  destruct (Hc e1 e2 He) as [[a1 e1'] [a2 e2'] [Ha He']|]; [|constructor].
  apply Hk; assumption.
Qed.

Lemma M_rel_fail {A} (RA : A -> A -> Prop) : M_rel (float := float) RA fail fail.
Proof. intros e1 e2 He. constructor. Qed.

Lemma M_rel_check (b : bool) : M_rel (float := float) eq (check b) (check b).
Proof. destruct b; [apply M_rel_ret; reflexivity | apply M_rel_fail]. Qed.

Lemma M_rel_lift {A} (RA : A -> A -> Prop) (o1 o2 : option A) :
  option_Forall2 RA o1 o2 -> M_rel (float := float) RA (lift o1) (lift o2).
Proof. intros [a1 a2 H|]; [apply M_rel_ret; exact H | apply M_rel_fail]. Qed.

Lemma M_rel_deref_pass (p : Z) :
  M_rel (float := float) eq (deref_pass p) (deref_pass p).
Proof.
  intros e1 e2 He. unfold deref_pass, bind, get, lift.
  pose proof He as (_ & _ & Hp & _). rewrite Hp.
  destruct (passObjects e2 !! p); constructor. split; [reflexivity | exact He].
Qed.

Lemma M_rel_deref_component (c : Z) :
  M_rel (float := float) same_but_enabled (deref_component c) (deref_component c).
Proof.
  intros e1 e2 He. unfold deref_component, bind, get, lift.
  pose proof He as (_ & _ & _ & _ & _ & _ & _ & Hc).
  destruct (Hc c) as [a b Hab|]; constructor. split; [exact Hab | exact He].
Qed.

Lemma IsValid_ptr_same (e1 e2 : Engine) (c : Z) :
  same_up_to_enabled e1 e2 -> IsValid_ptr e1 c = IsValid_ptr e2 c.
Proof.
  intros (_ & _ & _ & _ & _ & _ & _ & Hc). unfold IsValid_ptr.
  destruct (Hc c) as [a b (Hv & _)|]; [exact Hv | reflexivity].
Qed.

Lemma M_rel_collect_valid (l : list Z) :
  M_rel (float := float) eq (collect_valid l) (collect_valid l).
Proof.
  intros e1 e2 He. unfold collect_valid, bind, get, ret. constructor.
  split; [|exact He]. simpl.
  induction l as [|c l IH]; simpl; [reflexivity|].
  rewrite (IsValid_ptr_same e1 e2 c He), IH. reflexivity.
Qed.

Ltac rel_update :=
  let He := fresh "He" in
  intros ? ? He; constructor; split; [reflexivity|];
  destruct He as (?&?&?&?&?&?&?&?);
  repeat split; simpl; try congruence; auto.

Lemma M_rel_set_pass (p : Z) (o : U_EGP_RenderPass) :
  M_rel (float := float) eq (set_pass p o) (set_pass p o).
Proof. rel_update. Qed.

Lemma M_rel_UE_LOG (l : LogLine) : M_rel (float := float) eq (UE_LOG l) (UE_LOG l).
Proof. rel_update. Qed.

Lemma M_rel_ENQUEUE (cmd : RenderCommand float) :
  M_rel eq (ENQUEUE_RENDER_COMMAND cmd) (ENQUEUE_RENDER_COMMAND cmd).
Proof. rel_update. Qed.

Lemma M_rel_mark_fence_complete (f : Z) :
  M_rel (float := float) eq (mark_fence_complete f) (mark_fence_complete f).
Proof. rel_update. Qed.

Lemma M_rel_set_component (c : Z) (o1 o2 : U_EGP_RenderPassComponent) :
  same_but_enabled o1 o2 ->
  M_rel (float := float) eq (set_component c o1) (set_component c o2).
Proof.
  intros Ho. rel_update. intros c'.
  destruct (decide (c' = c)) as [->|Hne].
  - rewrite !lookup_insert_eq. constructor. exact Ho.
  - rewrite !lookup_insert_ne by congruence. auto.
Qed.

Lemma M_rel_forM_ {A} (l : list A) (body1 body2 : A -> M unit) :
  (forall a, M_rel eq (body1 a) (body2 a)) ->
  M_rel eq (forM_ l body1) (forM_ l body2).
Proof.
  intros Hb. induction l as [|a l IH]; simpl.
  - apply M_rel_ret. reflexivity.
  - eapply M_rel_bind; [apply Hb | intros; exact IH].
Qed.

Lemma M_rel_if {A} (RA : A -> A -> Prop) (b : bool) (c1 c2 d1 d2 : M A) :
  M_rel RA c1 c2 -> M_rel RA d1 d2 ->
  M_rel RA (if b then c1 else d1) (if b then c2 else d2).
Proof. destruct b; auto. Qed.

Lemma M_rel_Tick_GameThread (p scene : Z) (dt : float) :
  M_rel eq (Tick_GameThread p scene dt) (Tick_GameThread p scene dt).
Proof.
  unfold Tick_GameThread.
  eapply M_rel_bind; [apply M_rel_deref_pass|]. intros o ? <-.
  eapply M_rel_bind; [apply M_rel_collect_valid|]. intros cs ? <-.
  eapply M_rel_bind with (RA := eq); [|intros; apply M_rel_ENQUEUE].
  apply M_rel_if; [|apply M_rel_ret; reflexivity].
  eapply M_rel_bind; [apply M_rel_UE_LOG | intros; apply M_rel_set_pass].
Qed.

Lemma M_rel_add_component_proxy (th : ThreadCtx) (p c : Z) :
  M_rel (float := float) eq (add_component_proxy th p c) (add_component_proxy th p c).
Proof.
  unfold add_component_proxy, GetProxy_RenderThread.
  eapply M_rel_bind with (RA := eq).
  - eapply M_rel_bind; [apply M_rel_check|]. intros _ _ _.
    eapply M_rel_bind; [apply M_rel_deref_component|].
    intros a b (_ & _ & _ & Hproxy & _). rewrite Hproxy.
    apply M_rel_ret. reflexivity.
  - intros proxy ? <-.
    eapply M_rel_bind; [apply M_rel_deref_pass|]. intros o ? <-.
    eapply M_rel_bind with (RA := eq).
    + apply M_rel_if; [|apply M_rel_ret; reflexivity].
      eapply M_rel_bind; [apply M_rel_UE_LOG | intros; apply M_rel_set_pass].
    + intros _ _ _.
      eapply M_rel_bind; [apply M_rel_deref_pass|]. intros o' ? <-.
      apply M_rel_set_pass.
Qed.

Section LockstepWithHook.

Variable Tick_RenderThread : U_EGP_RenderPass -> Z -> float -> U_EGP_RenderPass.

Lemma M_rel_run_command (th : ThreadCtx) (cmd : RenderCommand float) :
  M_rel eq (run_command Tick_RenderThread th cmd)
           (run_command Tick_RenderThread th cmd).
Proof.
  destruct cmd as [c newProxy newTarget|p scene dt cs|p|p ext|f]; cbn [run_command].
  - eapply M_rel_bind; [apply M_rel_deref_component|].
    intros a b (Hv & Ht & Hp & _ & _).
    apply M_rel_set_component. repeat split; simpl; assumption.
  - eapply M_rel_bind with (RA := eq).
    + unfold rebuild_proxies.
      eapply M_rel_bind; [apply M_rel_deref_pass|]. intros o ? <-.
      eapply M_rel_bind; [apply M_rel_set_pass|]. intros _ _ _.
      apply M_rel_forM_. intros c. apply M_rel_add_component_proxy.
    + intros _ _ _.
      eapply M_rel_bind; [apply M_rel_deref_pass|]. intros o ? <-.
      apply M_rel_set_pass.
  - eapply M_rel_bind; [apply M_rel_deref_pass|]. intros o ? <-.
    apply M_rel_ret. reflexivity.
  - eapply M_rel_bind; [apply M_rel_deref_pass|]. intros o ? <-.
    apply M_rel_set_pass.
  - apply M_rel_mark_fence_complete.
Qed.

Lemma M_rel_render_thread_step :
  M_rel eq (render_thread_step Tick_RenderThread)
           (render_thread_step Tick_RenderThread).
Proof.
  intros e1 e2 He. unfold render_thread_step.
  pose proof He as (Hw & Hs & Hp & Hq & Hf & Hn & Hl & Hc).
  rewrite Hq. destruct (renderQueue e2) as [|cmd rest] eqn:E.
  - constructor. split; [reflexivity | exact He].
  - apply M_rel_run_command. repeat split; simpl; assumption.
Qed.

Lemma M_rel_render_thread_steps (n : nat) :
  M_rel eq (render_thread_steps Tick_RenderThread n)
           (render_thread_steps Tick_RenderThread n).
Proof.
  induction n as [|n IH]; simpl.
  - apply M_rel_ret. reflexivity.
  - eapply M_rel_bind; [apply M_rel_render_thread_step | intros; exact IH].
Qed.

End LockstepWithHook.

Section FlagTheorem.

Variable Tick_RenderThread : U_EGP_RenderPass -> Z -> float -> U_EGP_RenderPass.

(** A registered, valid component ends up in the rebuilt table whatever
    its flags. *)
Lemma registered_valid_component_in_table
    (e : Engine) (p scene : Z) (dt : float) (o : U_EGP_RenderPass)
    (c : Z) (co : U_EGP_RenderPassComponent) :
  passObjects e !! p = Some o ->
  c ∈ Components_GameThread o ->
  componentObjects e !! c = Some co ->
  IsValid co = true ->
  exists e' e3 o3,
    Tick_GameThread p scene dt e = Some (tt, e')
    /\ renderQueue e'
       = renderQueue e
         ++ [UpdateCustomRenderPassProxies p scene dt
               (List.filter (IsValid_ptr e) (Components_GameThread o))]
    /\ run_command Tick_RenderThread RenderThread
         (UpdateCustomRenderPassProxies p scene dt
            (List.filter (IsValid_ptr e) (Components_GameThread o))) e'
       = Some (tt, e3)
    /\ ComponentProxies_RenderThread o3 !! c = Some (renderThreadProxy co)
    /\ passObjects e3 !! p = Some (Tick_RenderThread o3 scene dt).
Proof.
  intros Ho Hreg Hco Hvalid.
  destruct (Tick_GameThread_effect p scene dt e o Ho)
    as (e' & Hrun & Hq & Hcomp & _ & _ & [o' Ho']).
  destruct (run_UpdateCustomRenderPassProxies Tick_RenderThread p scene dt
              (List.filter (IsValid_ptr e) (Components_GameThread o)) e' o' Ho')
    as (e3 & o3 & Hcmd & Htab & _ & Ho3 & _).
  { intros c' Hc'. apply list_elem_of_In, filter_In in Hc' as [_ Hv].
    rewrite Hcomp. unfold IsValid_ptr in Hv.
    destruct (componentObjects e !! c'); [eauto | discriminate]. }
  exists e', e3, o3. split; [exact Hrun|]. split; [exact Hq|].
  split; [exact Hcmd|]. split; [|exact Ho3].
  rewrite Htab, Hcomp, Hco.
  destruct (decide (c ∈ List.filter (IsValid_ptr e) (Components_GameThread o)))
    as [|Hn]; [reflexivity|].
  exfalso. apply Hn. apply list_elem_of_In, filter_In.
  split; [apply list_elem_of_In; exact Hreg|].
  unfold IsValid_ptr. rewrite Hco. exact Hvalid.
Qed.

(** C10. Two engine states that differ at most in the
    [EnabledInCustomPass] flags of their components go through a tick of
    a pass, and through any number of render-thread steps after it, in
    lockstep: both runs fail or both succeed, and then the pass objects
    (hence the rebuilt proxy tables) and the queues are the same and the
    states still differ at most in those flags. In particular a
    registered, valid component whose flag is false is in the table the
    hook receives. *)
Theorem C10_EnabledInCustomPass_is_never_read
    (e1 e2 : Engine) (p scene : Z) (dt : float) (n : nat)
    (Hsame : same_up_to_enabled e1 e2) :
  match bind (Tick_GameThread p scene dt)
             (fun _ => render_thread_steps Tick_RenderThread n) e1,
        bind (Tick_GameThread p scene dt)
             (fun _ => render_thread_steps Tick_RenderThread n) e2
  with
  | Some (_, e1'), Some (_, e2') =>
      passObjects e1' = passObjects e2'
      /\ renderQueue e1' = renderQueue e2'
      /\ same_up_to_enabled e1' e2'
  | None, None => True
  | _, _ => False
  end
  /\ forall o c co,
       passObjects e1 !! p = Some o ->
       c ∈ Components_GameThread o ->
       componentObjects e1 !! c = Some co ->
       IsValid co = true ->
       EnabledInCustomPass co = false ->
       exists e' e3 o3,
         Tick_GameThread p scene dt e1 = Some (tt, e')
         /\ renderQueue e'
            = renderQueue e1
              ++ [UpdateCustomRenderPassProxies p scene dt
                    (List.filter (IsValid_ptr e1) (Components_GameThread o))]
         /\ run_command Tick_RenderThread RenderThread
              (UpdateCustomRenderPassProxies p scene dt
                 (List.filter (IsValid_ptr e1) (Components_GameThread o))) e'
            = Some (tt, e3)
         /\ ComponentProxies_RenderThread o3 !! c = Some (renderThreadProxy co)
         /\ passObjects e3 !! p = Some (Tick_RenderThread o3 scene dt).
Proof.
  split.
  - assert (Hrel : M_rel eq
              (bind (Tick_GameThread p scene dt)
                    (fun _ => render_thread_steps Tick_RenderThread n))
              (bind (Tick_GameThread p scene dt)
                    (fun _ => render_thread_steps Tick_RenderThread n))).
    { eapply M_rel_bind; [apply M_rel_Tick_GameThread|].
      intros; apply M_rel_render_thread_steps. }
    destruct (Hrel e1 e2 Hsame) as [[a1 e1'] [a2 e2'] [_ He]|]; [|exact I].
    simpl in He. pose proof He as (_ & _ & Hp & Hq & _). auto.
  - intros o c co Ho Hreg Hco Hvalid _.
    apply (registered_valid_component_in_table e1 p scene dt o c co);
      assumption.
Qed.

End FlagTheorem.

End EnabledFlagFacts.

Section PassTickExamples.

Import RenderPasses Samples.

Lemma engine_with_components_pass (enabled : bool) :
  passObjects (engine_with_components enabled) !! 1 = Some pass_with_10_11.
Proof. apply lookup_singleton_eq. Qed.

Lemma C5_witness :
  let snapshot :=
    List.filter (IsValid_ptr (engine_with_components true))
                (Components_GameThread pass_with_10_11) in
  let cmd := UpdateCustomRenderPassProxies 1 100 tt snapshot in
  (exists e1,
     Tick_GameThread 1 100 tt (engine_with_components true) = Some (tt, e1)
     /\ renderQueue e1 = renderQueue (engine_with_components true) ++ [cmd])
  /\ (forall c, c ∈ snapshot <->
                c ∈ Components_GameThread pass_with_10_11
                /\ IsValid_ptr (engine_with_components true) c = true)
  /\ (forall th e0 c,
        UnregisterPassComponent th 1 c e0 = Some (tt, engine_with_components true) ->
        c ∉ snapshot)
  /\ (forall (e2 : RenderPasses.Engine unit) (o2 : U_EGP_RenderPass),
        passObjects e2 !! 1 = Some o2 ->
        (forall c, c ∈ snapshot -> is_Some (componentObjects e2 !! c)) ->
        exists e3 o3,
          run_command Tick_RenderThread_base RenderThread cmd e2 = Some (tt, e3)
          /\ (forall c,
                ComponentProxies_RenderThread o3 !! c
                = if decide (c ∈ snapshot)
                  then renderThreadProxy <$> componentObjects e2 !! c
                  else None)
          /\ passObjects e3 !! 1 = Some (Tick_RenderThread_base o3 100 tt)
          /\ componentObjects e3 = componentObjects e2).
Proof.
  apply (C5_tick_rebuilds_table_then_calls_hook Tick_RenderThread_base
           (engine_with_components true) 1 100 tt pass_with_10_11).
  apply lookup_singleton_eq.
Defined.

(** The scenario of the specification, run on the code. *)
Lemma end_to_end_scenario :
  exists e1 e2,
    exec first_frame engine_before_registration = Some e1
    /\ table_of_pass_1 e1 = Some (<[10 := [Byte.x01]]> {[11 := [Byte.x02]]})
    /\ exec second_frame e1 = Some e2
    /\ table_of_pass_1 e2 = Some {[10 := [Byte.x01]]}.
Proof.
  do 2 eexists. split; [vm_compute; reflexivity|].
  split; [vm_compute; reflexivity|].
  split; vm_compute; reflexivity.
Qed.

End PassTickExamples.

Section EnabledFlagExamples.

Import RenderPasses Samples.

Lemma engines_differ_in_flags_only :
  same_up_to_enabled (engine_with_components false) (engine_with_components true).
Proof.
  repeat split. intros c. simpl. unfold components.
  destruct (decide (c = 10)) as [->|H10];
    [rewrite !lookup_insert_eq; constructor; repeat split|].
  rewrite !(lookup_insert_ne _ 10) by congruence.
  destruct (decide (c = 11)) as [->|H11];
    [rewrite !lookup_insert_eq; constructor; repeat split|].
  rewrite !(lookup_insert_ne _ 11) by congruence.
  destruct (decide (c = 12)) as [->|H12];
    [rewrite !lookup_singleton_eq; constructor; repeat split|].
  rewrite !lookup_singleton_ne by congruence. constructor.
Qed.

Lemma C10_witness :
  match bind (Tick_GameThread 1 100 tt)
             (fun _ => render_thread_steps Tick_RenderThread_base 1)
             (engine_with_components false),
        bind (Tick_GameThread 1 100 tt)
             (fun _ => render_thread_steps Tick_RenderThread_base 1)
             (engine_with_components true)
  with
  | Some (_, e1'), Some (_, e2') =>
      passObjects e1' = passObjects e2'
      /\ renderQueue e1' = renderQueue e2'
      /\ same_up_to_enabled e1' e2'
  | None, None => True
  | _, _ => False
  end
  /\ forall o c co,
       passObjects (engine_with_components false) !! 1 = Some o ->
       c ∈ Components_GameThread o ->
       componentObjects (engine_with_components false) !! c = Some co ->
       IsValid co = true ->
       EnabledInCustomPass co = false ->
       exists e' e3 o3,
         Tick_GameThread 1 100 tt (engine_with_components false) = Some (tt, e')
         /\ renderQueue e'
            = renderQueue (engine_with_components false)
              ++ [UpdateCustomRenderPassProxies 1 100 tt
                    (List.filter (IsValid_ptr (engine_with_components false))
                                 (Components_GameThread o))]
         /\ run_command Tick_RenderThread_base RenderThread
              (UpdateCustomRenderPassProxies 1 100 tt
                 (List.filter (IsValid_ptr (engine_with_components false))
                              (Components_GameThread o))) e'
            = Some (tt, e3)
         /\ ComponentProxies_RenderThread o3 !! c = Some (renderThreadProxy co)
         /\ passObjects e3 !! 1 = Some (Tick_RenderThread_base o3 100 tt).
Proof.
  apply (C10_EnabledInCustomPass_is_never_read Tick_RenderThread_base
           (engine_with_components false) (engine_with_components true)
           1 100 tt 1%nat).
  exact engines_differ_in_flags_only.
Defined.

(** With every flag off the table after a tick still holds both
    registered components. *)
Lemma disabled_components_still_in_table :
  exists e',
    exec (bind (Tick_GameThread 1 100 tt)
               (fun _ => render_thread_steps Tick_RenderThread_base 1))
         (engine_with_components false) = Some e'
    /\ table_of_pass_1 e' = Some (<[10 := [Byte.x01]]> {[11 := [Byte.x02]]}).
Proof. eexists. split; vm_compute; reflexivity. Qed.

End EnabledFlagExamples.

(** * Further properties *)

(** ** FilterList: removal, addition, emptied lists *)

Section FilterListRoundTrips.

Import EGP.

Context {T : Type}.
Variable Comparator : T -> T -> bool.

Lemma Remove_elements (f : FilterList T) (t e : T) :
  In e (elements (Remove Comparator f t))
  <-> In e (elements f) /\ Comparator t e = false.
Proof.
  unfold Remove. simpl. rewrite filter_In, negb_true_iff. reflexivity.
Qed.

(** X1. [Remove] hands the comparator [(t, element)] while [IsAllowed]
    hands it [(element, t)]. Under a symmetric comparator the two agree:
    after [Remove(t)] exactly the elements that do not match [t] are
    left, [t] is no longer listed, the list keeps its mode, and so a
    whitelist now refuses [t] while a blacklist or an unconfigured list
    allows it. *)
Theorem Remove_unlists_under_symmetric_comparator
    (f : FilterList T) (t : T)
    (Hsym : forall a b, Comparator a b = Comparator b a) :
  IsAWhitelist (Remove Comparator f t) = IsAWhitelist f
  /\ (forall e, In e (elements (Remove Comparator f t))
                <-> In e (elements f) /\ Comparator t e = false)
  /\ ~ listed Comparator (Remove Comparator f t) t
  /\ IsAllowed Comparator (Remove Comparator f t) t
     = match IsAWhitelist f with Some true => false | _ => true end.
Proof.
  assert (Hnot : ~ listed Comparator (Remove Comparator f t) t).
  { intros (e & Hin & Hc). apply Remove_elements in Hin as [_ Hne].
    rewrite Hsym in Hne. congruence. }
  split; [reflexivity|]. split; [apply Remove_elements|]. split; [exact Hnot|].
  unfold IsAllowed, IsAWhitelist.
  change (isWhitelist (Remove Comparator f t)) with (isWhitelist f).
  destruct (isWhitelist f) as [w|]; [|reflexivity].
  destruct (isListed_loop Comparator (elements (Remove Comparator f t)) t) eqn:E.
  - apply isListed_loop_listed in E. contradiction.
  - destruct w; reflexivity.
Qed.

(** X2. An add that the guard lets through appends the element, sets the
    mode and logs nothing. Afterwards a candidate is listed when it was
    listed before or matches the new element; if the comparator accepts
    the element against itself, a whitelisted element is therefore
    allowed and a blacklisted one refused. *)
Theorem accepted_add_is_listed
    (f : FilterList T) (e : T) (w : bool)
    (Hrefl : Comparator e e = true)
    (Hmode : IsAWhitelist f <> Some (negb w)) :
  exists f',
    updateFilter Comparator e true w f = Some (f', [])
    /\ IsAWhitelist f' = Some w
    /\ GetSize f' = S (GetSize f)
    /\ (forall t, IsAllowed Comparator f' t
                  = Bool.eqb (isListed_loop Comparator (elements f) t
                              || Comparator e t) w)
    /\ IsAllowed Comparator f' e = w.
Proof.
  rewrite (updateFilter_accepts Comparator f e w Hmode).
  eexists. split; [reflexivity|]. split; [reflexivity|].
  assert (Hall : forall t,
            IsAllowed Comparator
              {| isWhitelist := Some w; elements := elements f ++ [e] |} t
            = Bool.eqb (isListed_loop Comparator (elements f) t || Comparator e t) w).
  { intros t. unfold IsAllowed. simpl.
    rewrite !isListed_loop_existsb, existsb_app. simpl.
    rewrite orb_false_r. reflexivity. }
  split; [|split; [exact Hall|]].
  - unfold GetSize. simpl. rewrite length_app. simpl. lia.
  - rewrite Hall, Hrefl, orb_true_r. destruct w; reflexivity.
Qed.

Lemma fold_Remove_elements (ts : list T) :
  forall f : FilterList T,
    isWhitelist (fold_left (Remove Comparator) ts f) = isWhitelist f
    /\ forall e, In e (elements (fold_left (Remove Comparator) ts f))
                 <-> In e (elements f) /\ forall t, In t ts -> Comparator t e = false.
Proof.
  induction ts as [|t ts IH]; intros f; simpl.
  - split; [reflexivity|]. intros e. split; [intros H; split; [exact H|tauto] | tauto].
  - destruct (IH (Remove Comparator f t)) as [Hm He].
    split; [exact Hm|]. intros e. rewrite He, Remove_elements.
    split.
    + intros [[Hin Hc] Hrest]. split; [exact Hin|].
      intros t' [<-|Hin']; [exact Hc | apply Hrest; exact Hin'].
    + intros [Hin Hall]. split; [split; [exact Hin | apply Hall; left; reflexivity]|].
      intros t' Hin'. apply Hall. right. exact Hin'.
Qed.

(** X3. Removing every element of a list, one [Remove] per element,
    leaves it empty but still configured: an emptied whitelist refuses
    every candidate and an emptied blacklist allows every candidate.
    [Clear] with no new mode is what makes the list allow everything
    again. The comparator must accept each element against itself. *)
Theorem emptied_list_keeps_its_mode
    (f : FilterList T)
    (Hrefl : forall e, In e (elements f) -> Comparator e e = true) :
  let emptied := fold_left (Remove Comparator) (elements f) f in
  GetSize emptied = 0%nat
  /\ IsAWhitelist emptied = IsAWhitelist f
  /\ (forall t, IsAllowed Comparator emptied t
                = match IsAWhitelist f with
                  | Some w => negb w
                  | None => true
                  end)
  /\ (forall t, IsAllowed Comparator (Clear f None) t = true).
Proof.
  intros emptied.
  destruct (fold_Remove_elements (elements f) f) as [Hm He].
  assert (Hnil : elements emptied = []).
  { destruct (elements emptied) as [|e l] eqn:E; [reflexivity|]. exfalso.
    assert (Hin : In e (elements emptied)) by (rewrite E; left; reflexivity).
    apply He in Hin as [Hin Hall].
    specialize (Hall e Hin). rewrite (Hrefl e Hin) in Hall. discriminate. }
  split; [unfold GetSize; rewrite Hnil; reflexivity|].
  split; [exact Hm|]. split; [|reflexivity].
  intros t. unfold IsAllowed, IsAWhitelist. fold emptied in Hm. rewrite Hm, Hnil.
  destruct (isWhitelist f) as [[]|]; reflexivity.
Qed.

(** X30. Once a list has a mode, no add or remove request changes it:
    whatever the requests, the run never asserts, the list ends with the
    mode it started with, and the log holds exactly one error line for
    each add of the other polarity, in order, and nothing else. *)
Theorem configured_mode_survives_adds_and_removes
    (ms : list (Mutation T)) (f : FilterList T) (w : bool)
    (Hms : forallb is_add_or_remove ms = true)
    (Hmode : IsAWhitelist f = Some w) :
  exists f',
    apply_mutations Comparator ms f
    = Some (f',
            List.map (fun _ => Error_AddToOppositeFilter (negb w))
              (List.filter
                 (fun m => match m with
                           | MAdd _ isAddingAsWhitelist =>
                               negb (Bool.eqb isAddingAsWhitelist w)
                           | _ => false
                           end) ms))
    /\ IsAWhitelist f' = Some w.
Proof.
  revert f Hmode. induction ms as [|m ms IH]; intros f Hmode; simpl.
  - exists f. auto.
  - simpl in Hms. apply andb_true_iff in Hms as [Hm Hms].
    destruct m as [e w'|e| |w']; try discriminate; simpl.
    + destruct (Bool.eqb w' w) eqn:E.
      * apply Bool.eqb_prop in E. subst w'.
        rewrite (updateFilter_accepts Comparator f e w)
          by (unfold IsAWhitelist in Hmode; rewrite Hmode; destruct w; discriminate).
        simpl.
        destruct (IH Hms {| isWhitelist := Some w; elements := elements f ++ [e] |}
                    eq_refl) as (f' & -> & Hf').
        exists f'. auto.
      * assert (Hw' : w' = negb w) by (destruct w, w'; try discriminate; reflexivity).
        subst w'.
        rewrite (updateFilter_rejects Comparator f e (negb w))
          by (rewrite Bool.negb_involutive; exact Hmode).
        simpl. destruct (IH Hms f Hmode) as (f' & -> & Hf').
        exists f'. auto.
    + destruct (IH Hms (Remove Comparator f e) Hmode) as (f' & -> & Hf').
      exists f'. auto.
Qed.

End FilterListRoundTrips.

Lemma configured_mode_survives_adds_and_removes_witness :
  exists f',
    EGP.apply_mutations Z.eqb
      [EGP.MAdd 2 false; EGP.MAdd 3 true; EGP.MRemove 1; EGP.MAdd 4 true]
      Samples.blacklist_of_1
    = Some (f',
            List.map (fun _ => Error_AddToOppositeFilter (negb false))
              (List.filter
                 (fun m => match m with
                           | EGP.MAdd _ isAddingAsWhitelist =>
                               negb (Bool.eqb isAddingAsWhitelist false)
                           | _ => false
                           end)
                 [EGP.MAdd 2 false; EGP.MAdd 3 true; EGP.MRemove 1; EGP.MAdd 4 true]))
    /\ EGP.IsAWhitelist f' = Some false.
Proof.
  apply (configured_mode_survives_adds_and_removes Z.eqb
           [EGP.MAdd 2 false; EGP.MAdd 3 true; EGP.MRemove 1; EGP.MAdd 4 true]
           Samples.blacklist_of_1 false);
    reflexivity.
Defined.

Lemma Remove_unlists_under_symmetric_comparator_witness :
  EGP.IsAWhitelist (EGP.Remove Z.eqb Samples.blacklist_of_1 1)
    = EGP.IsAWhitelist Samples.blacklist_of_1
  /\ (forall e, In e (EGP.elements (EGP.Remove Z.eqb Samples.blacklist_of_1 1))
                <-> In e (EGP.elements Samples.blacklist_of_1) /\ (1 =? e) = false)
  /\ ~ EGP.listed Z.eqb (EGP.Remove Z.eqb Samples.blacklist_of_1 1) 1
  /\ EGP.IsAllowed Z.eqb (EGP.Remove Z.eqb Samples.blacklist_of_1 1) 1
     = match EGP.IsAWhitelist Samples.blacklist_of_1 with
       | Some true => false
       | _ => true
       end.
Proof.
  apply (Remove_unlists_under_symmetric_comparator Z.eqb Samples.blacklist_of_1 1).
  exact Z.eqb_sym.
Defined.

(** The symmetry is needed: under [<=?] the call [Remove(5)] drops the
    elements above 5 and leaves 3, which still lists 5. *)
Lemma Remove_under_asymmetric_comparator :
  let f := {| EGP.isWhitelist := Some true; EGP.elements := [3; 7] |} in
  EGP.elements (EGP.Remove Z.leb f 5) = [3]
  /\ EGP.IsAllowed Z.leb (EGP.Remove Z.leb f 5) 5 = true.
Proof. split; reflexivity. Qed.

Lemma accepted_add_is_listed_witness :
  exists f',
    EGP.updateFilter Z.eqb 2 true false Samples.blacklist_of_1 = Some (f', [])
    /\ EGP.IsAWhitelist f' = Some false
    /\ EGP.GetSize f' = S (EGP.GetSize Samples.blacklist_of_1)
    /\ (forall t, EGP.IsAllowed Z.eqb f' t
                  = Bool.eqb (EGP.isListed_loop Z.eqb
                                (EGP.elements Samples.blacklist_of_1) t
                              || (2 =? t)) false)
    /\ EGP.IsAllowed Z.eqb f' 2 = false.
Proof.
  apply (accepted_add_is_listed Z.eqb Samples.blacklist_of_1 2 false).
  - reflexivity.
  - discriminate.
Defined.

Lemma emptied_list_keeps_its_mode_witness :
  let f := {| EGP.isWhitelist := Some true; EGP.elements := [1; 2; 1] |} in
  let emptied := fold_left (EGP.Remove Z.eqb) (EGP.elements f) f in
  EGP.GetSize emptied = 0%nat
  /\ EGP.IsAWhitelist emptied = EGP.IsAWhitelist f
  /\ (forall t, EGP.IsAllowed Z.eqb emptied t
                = match EGP.IsAWhitelist f with
                  | Some w => negb w
                  | None => true
                  end)
  /\ (forall t, EGP.IsAllowed Z.eqb (EGP.Clear f None) t = true).
Proof.
  intros f.
  apply (emptied_list_keeps_its_mode Z.eqb f).
  intros e _. apply Z.eqb_refl.
Defined.

(** ** ViewFilter: the two copies of each list *)

Section ViewFilterCopies.

Import EGP ViewFilter.

Lemma Category_eqb_eq (a b : Category) : Category_eqb a b = true <-> a = b.
Proof. destruct a, b; simpl; split; congruence. Qed.

Lemma Category_eqb_refl (c : Category) : Category_eqb c c = true.
Proof. destruct c; reflexivity. Qed.

Lemma get_RT_set_RT (c c' : Category) (f : FilterList Z) (vf : U_EGP_ViewFilter) :
  get_RT c (set_RT c' f vf) = if Category_eqb c' c then f else get_RT c vf.
Proof. destruct c, c'; reflexivity. Qed.

Lemma get_GT_set_GT (c c' : Category) (f : FilterList Z) (vf : U_EGP_ViewFilter) :
  get_GT c (set_GT c' f vf) = if Category_eqb c' c then f else get_GT c vf.
Proof. destruct c, c'; reflexivity. Qed.

Lemma get_GT_set_RT (c c' : Category) (f : FilterList Z) (vf : U_EGP_ViewFilter) :
  get_GT c (set_RT c' f vf) = get_GT c vf.
Proof. destruct c, c'; reflexivity. Qed.

Lemma get_RT_set_GT (c c' : Category) (f : FilterList Z) (vf : U_EGP_ViewFilter) :
  get_RT c (set_GT c' f vf) = get_RT c vf.
Proof. destruct c, c'; reflexivity. Qed.

Lemma pending_for_app (c : Category) (q : list PendingUpdate) (u : PendingUpdate) :
  pending_for c (q ++ [u])
  = pending_for c q ++ (if Category_eqb u.1 c then [u.2] else []).
Proof.
  unfold pending_for. rewrite List.filter_app, fmap_app. simpl.
  destruct (Category_eqb u.1 c); reflexivity.
Qed.

Lemma pending_for_cons (c : Category) (q : list PendingUpdate) (u : PendingUpdate) :
  pending_for c (u :: q)
  = (if Category_eqb u.1 c then [u.2] else []) ++ pending_for c q.
Proof.
  unfold pending_for. simpl. destruct (Category_eqb u.1 c); reflexivity.
Qed.

(** Running a queue and then one more lambda. *)
Lemma apply_mutations_snoc (ms : list (Mutation Z)) (m : Mutation Z)
    (f : FilterList Z) :
  fst <$> apply_mutations equal_to (ms ++ [m]) f
  = (fst <$> apply_mutations equal_to ms f)
      ≫= (fun f1 => fst <$> apply_mutation equal_to m f1).
Proof.
  revert f. induction ms as [|m0 ms IH]; intros f; simpl.
  - destruct (apply_mutation equal_to m f) as [[f1 l1]|]; reflexivity.
  - destruct (apply_mutation equal_to m0 f) as [[f1 l1]|]; simpl; [|reflexivity].
    specialize (IH f1).
    destruct (apply_mutations equal_to (ms ++ [m]) f1) as [[f2 l2]|];
      destruct (apply_mutations equal_to ms f1) as [[f3 l3]|]; simpl in *;
      try exact IH; try discriminate IH; try reflexivity.
Qed.

Lemma apply_mutations_cons (ms : list (Mutation Z)) (m : Mutation Z)
    (f f1 : FilterList Z) (l1 : list LogLine) :
  apply_mutation equal_to m f = Some (f1, l1) ->
  fst <$> apply_mutations equal_to (m :: ms) f
  = fst <$> apply_mutations equal_to ms f1.
Proof.
  intros H. simpl. rewrite H. simpl.
  destruct (apply_mutations equal_to ms f1) as [[f2 l2]|]; reflexivity.
Qed.

(** What posting one more lambda for the render thread does to the list
    it is heading for. *)
Lemma eventual_after_post (c : Category) (u : PendingUpdate)
    (q : list PendingUpdate) (f : FilterList Z) :
  fst <$> apply_mutations equal_to (pending_for c (q ++ [u])) f
  = if Category_eqb u.1 c
    then (fst <$> apply_mutations equal_to (pending_for c q) f)
           ≫= (fun f1 => fst <$> apply_mutation equal_to u.2 f1)
    else fst <$> apply_mutations equal_to (pending_for c q) f.
Proof.
  rewrite pending_for_app. destruct (Category_eqb u.1 c).
  - apply apply_mutations_snoc.
  - rewrite app_nil_r. reflexivity.
Qed.

Lemma run_on_RT_total (u : PendingUpdate) (s : FilterState) :
  exists f' l,
    apply_mutation equal_to u.2 (get_RT u.1 (filter s)) = Some (f', l)
    /\ run_on_RT u s
       = Some {| filter := set_RT u.1 f' (filter s);
                 renderCommands := renderCommands s;
                 gameThreadTasks := gameThreadTasks s;
                 filterLog := filterLog s ++ l |}.
Proof.
  destruct (apply_mutation_total equal_to u.2 (get_RT u.1 (filter s)))
    as [[f' l] H].
  exists f', l. split; [exact H|]. unfold run_on_RT. rewrite H. reflexivity.
Qed.

Lemma run_on_GT_total (u : PendingUpdate) (s : FilterState) :
  exists f' l,
    apply_mutation equal_to u.2 (get_GT u.1 (filter s)) = Some (f', l)
    /\ run_on_GT u s
       = Some {| filter := set_GT u.1 f' (filter s);
                 renderCommands := renderCommands s;
                 gameThreadTasks := gameThreadTasks s;
                 filterLog := filterLog s ++ l |}.
Proof.
  destruct (apply_mutation_total equal_to u.2 (get_GT u.1 (filter s)))
    as [[f' l] H].
  exists f', l. split; [exact H|]. unfold run_on_GT. rewrite H. reflexivity.
Qed.

(** X4. A step of either thread never asserts, takes the oldest entry
    off that thread's queue, and changes neither the list the render
    thread is heading for nor the one the game thread is heading for, in
    any category: running a queued lambda only moves a copy along the
    path already laid out for it. *)
Theorem thread_steps_keep_eventual_copies (s : FilterState) :
  exists s1 s2,
    render_thread_step s = Some s1
    /\ game_thread_step s = Some s2
    /\ renderCommands s1 = tail (renderCommands s)
    /\ gameThreadTasks s1 = gameThreadTasks s
    /\ gameThreadTasks s2 = tail (gameThreadTasks s)
    /\ renderCommands s2 = renderCommands s
    /\ (forall c, eventual_RT c s1 = eventual_RT c s
                  /\ eventual_GT c s1 = eventual_GT c s)
    /\ (forall c, eventual_RT c s2 = eventual_RT c s
                  /\ eventual_GT c s2 = eventual_GT c s).
Proof.
  assert (HR : exists s1, render_thread_step s = Some s1
             /\ renderCommands s1 = tail (renderCommands s)
             /\ gameThreadTasks s1 = gameThreadTasks s
             /\ forall c, eventual_RT c s1 = eventual_RT c s
                          /\ eventual_GT c s1 = eventual_GT c s).
  { unfold render_thread_step.
    destruct (renderCommands s) as [|u rest] eqn:Hq.
    - exists s. rewrite Hq. auto.
    - match goal with
      | |- context [run_on_RT u ?s0] =>
          destruct (run_on_RT_total u s0) as (f' & l & Happ & ->)
      end.
      simpl in *. eexists. split; [reflexivity|]. simpl.
      split; [reflexivity|]. split; [reflexivity|].
      intros c. unfold eventual_RT, eventual_GT. simpl.
      rewrite Hq, get_RT_set_RT, get_GT_set_RT, pending_for_cons.
      split; [|reflexivity].
      destruct (Category_eqb u.1 c) eqn:E; [|reflexivity].
      apply Category_eqb_eq in E. subst c. simpl.
      symmetry. exact (apply_mutations_cons _ _ _ _ _ Happ). }
  assert (HG : exists s2, game_thread_step s = Some s2
             /\ gameThreadTasks s2 = tail (gameThreadTasks s)
             /\ renderCommands s2 = renderCommands s
             /\ forall c, eventual_RT c s2 = eventual_RT c s
                          /\ eventual_GT c s2 = eventual_GT c s).
  { unfold game_thread_step.
    destruct (gameThreadTasks s) as [|u rest] eqn:Hq.
    - exists s. rewrite Hq. auto.
    - match goal with
      | |- context [run_on_GT u ?s0] =>
          destruct (run_on_GT_total u s0) as (f' & l & Happ & ->)
      end.
      simpl in *. eexists. split; [reflexivity|]. simpl.
      split; [reflexivity|]. split; [reflexivity|].
      intros c. unfold eventual_RT, eventual_GT. simpl.
      rewrite Hq, get_GT_set_GT, get_RT_set_GT, pending_for_cons.
      split; [reflexivity|].
      destruct (Category_eqb u.1 c) eqn:E; [|reflexivity].
      apply Category_eqb_eq in E. subst c. simpl.
      symmetry. exact (apply_mutations_cons _ _ _ _ _ Happ). }
  destruct HR as (s1 & H1 & H2 & H3 & H4), HG as (s2 & G1 & G2 & G3 & G4).
  exists s1, s2. auto 10.
Qed.

(** X5. A mutator call keeps the two copies heading for the same list:
    always when it comes from another thread than the game thread (the
    same lambda is queued for both copies), and from the game thread when
    no lambda for that category is still waiting in the game thread's
    task queue (the game-thread copy is then updated at once, ahead of
    nothing). *)
Theorem mutator_keeps_copies_in_sync
    (th : ThreadCtx) (u : PendingUpdate) (s s' : FilterState)
    (Hsync : in_sync s)
    (Hquiet : IsInGameThread th = true ->
              pending_for u.1 (gameThreadTasks s) = [])
    (Hpost : post_update th u s = Some s') :
  in_sync s'.
Proof.
  intros c. unfold post_update in Hpost.
  destruct (IsInGameThread th) eqn:Hth.
  - match type of Hpost with
    | run_on_GT u ?s0 = _ =>
        destruct (run_on_GT_total u s0) as (f' & l & Happ & Hrun)
    end.
    rewrite Hrun in Hpost. injection Hpost as <-. simpl in Happ.
    unfold eventual_RT, eventual_GT. simpl.
    rewrite get_RT_set_GT, get_GT_set_GT, eventual_after_post.
    pose proof (Hsync c) as Hc. unfold eventual_RT, eventual_GT in Hc.
    destruct (Category_eqb u.1 c) eqn:E; [|exact Hc].
    apply Category_eqb_eq in E. subst c.
    rewrite Hc, (Hquiet eq_refl). simpl. rewrite Happ. reflexivity.
  - injection Hpost as <-. unfold eventual_RT, eventual_GT. simpl.
    rewrite !eventual_after_post.
    pose proof (Hsync c) as Hc. unfold eventual_RT, eventual_GT in Hc.
    rewrite Hc. reflexivity.
Qed.

(** X6. The condition of X5 is what the code needs. Whatever the filter
    holds, if the render thread reconfigures a category as a whitelist
    and the game thread then reconfigures it as a blacklist before the
    first call's task has run, the render-thread copy runs the two
    lambdas in call order and ends a blacklist, while the game-thread
    copy runs the second at once and the first afterwards and ends a
    whitelist: once both queues are empty the copies disagree. *)
Theorem cross_thread_calls_reorder_game_copy
    (c : Category) (s : FilterState)
    (HqR : renderCommands s = [])
    (HqG : gameThreadTasks s = []) :
  exists s',
    (s1 ← ConfigureFilterList RenderThread c true s;
     s2 ← ConfigureFilterList GameThread c false s1;
     s3 ← render_thread_step s2;
     s4 ← render_thread_step s3;
     game_thread_step s4) = Some s'
    /\ renderCommands s' = []
    /\ gameThreadTasks s' = []
    /\ IsAWhitelist (get_RT c (filter s')) = Some false
    /\ IsAWhitelist (get_GT c (filter s')) = Some true.
Proof.
  destruct s as [vf qR qG lg]. simpl in HqR, HqG. subst qR qG.
  unfold ConfigureFilterList, post_update. cbn [IsInGameThread RenderThread GameThread].
  cbn [filter renderCommands gameThreadTasks filterLog app mbind option_bind].
  unfold run_on_GT at 1.
  cbn [apply_mutation updateFilter_configure fst snd mbind option_bind filter
       renderCommands gameThreadTasks filterLog app].
  unfold render_thread_step at 1.
  cbn [filter renderCommands gameThreadTasks filterLog app]. unfold run_on_RT at 1.
  cbn [apply_mutation updateFilter_configure fst snd mbind option_bind filter
       renderCommands gameThreadTasks filterLog app].
  unfold render_thread_step at 1.
  cbn [filter renderCommands gameThreadTasks filterLog app]. unfold run_on_RT at 1.
  cbn [apply_mutation updateFilter_configure fst snd mbind option_bind filter
       renderCommands gameThreadTasks filterLog app].
  unfold game_thread_step.
  cbn [filter renderCommands gameThreadTasks filterLog app]. unfold run_on_GT.
  cbn [apply_mutation updateFilter_configure fst snd mbind option_bind filter
       renderCommands gameThreadTasks filterLog app].
  eexists. split; [reflexivity|].
  cbn [filter renderCommands gameThreadTasks filterLog].
  split; [reflexivity|]. split; [reflexivity|].
  rewrite get_RT_set_GT, !get_RT_set_RT, !get_GT_set_GT, !Category_eqb_refl.
  split; reflexivity.
Qed.

(** The shared body of the three mutator templates, written out. *)
Lemma post_update_effect (th : ThreadCtx) (c : Category)
    (m : Mutation Z) (s : FilterState) :
  exists s',
    post_update th (c, m) s = Some s'
    /\ renderCommands s' = renderCommands s ++ [(c, m)]
    /\ ExcludeAll (filter s') = ExcludeAll (filter s)
    /\ (forall c', get_RT c' (filter s') = get_RT c' (filter s))
    /\ (forall c', c' <> c -> get_GT c' (filter s') = get_GT c' (filter s))
    /\ gameThreadTasks s'
       = gameThreadTasks s ++ (if IsInGameThread th then [] else [(c, m)]).
Proof.
  unfold post_update. destruct (IsInGameThread th).
  - match goal with
    | |- context [run_on_GT ?u ?s0] =>
        destruct (run_on_GT_total u s0) as (f' & l & Happ & ->)
    end.
    eexists. split; [reflexivity|]. simpl.
    split; [reflexivity|]. split; [destruct c; reflexivity|].
    split; [intros c'; apply get_RT_set_GT|].
    split; [|symmetry; apply app_nil_r].
    intros c' Hne. rewrite get_GT_set_GT.
    destruct (Category_eqb c c') eqn:E; [|reflexivity].
    apply Category_eqb_eq in E. congruence.
  - eexists. split; [reflexivity|]. simpl. auto.
Qed.

(** X7. Every mutator returns, whatever thread it is called from and
    whatever the lists hold (no [check] of [FilterList] can be reached).
    The call itself posts exactly one render command and never touches a
    render-thread copy, [ExcludeAll], or the copies of another category;
    off the game thread it does not touch the game-thread copies either
    and posts one task for them. *)
Theorem mutator_posts_one_command (th : ThreadCtx) (c : Category) (s : FilterState)
    (element : Z) (isAdding isAddingAsWhitelist makeWhitelist : bool) :
  let posts_one_command (result : option FilterState) :=
    exists s',
      result = Some s'
      /\ length (renderCommands s') = S (length (renderCommands s))
      /\ firstn (length (renderCommands s)) (renderCommands s') = renderCommands s
      /\ ExcludeAll (filter s') = ExcludeAll (filter s)
      /\ (forall c', get_RT c' (filter s') = get_RT c' (filter s))
      /\ (forall c', c' <> c -> get_GT c' (filter s') = get_GT c' (filter s))
      /\ if IsInGameThread th
         then gameThreadTasks s' = gameThreadTasks s
         else length (gameThreadTasks s') = S (length (gameThreadTasks s))
              /\ filter s' = filter s in
  posts_one_command (UpdateFilterList th c element isAdding isAddingAsWhitelist s)
  /\ posts_one_command (ClearFilterList th c s)
  /\ posts_one_command (ConfigureFilterList th c makeWhitelist s).
Proof.
  intros posts_one_command.
  assert (Hgen : forall m, posts_one_command (post_update th (c, m) s)).
  { intros m.
    destruct (post_update_effect th c m s) as (s' & Hrun & Hq & Hx & Hrt & Hgt & Ht).
    exists s'. split; [exact Hrun|]. rewrite Hq, length_app. simpl.
    split; [lia|]. split; [|split; [exact Hx|split; [exact Hrt|split; [exact Hgt|]]]].
    - rewrite firstn_app, Nat.sub_diag, firstn_all. simpl. apply app_nil_r.
    - unfold post_update in Hrun. destruct (IsInGameThread th).
      + rewrite Ht. apply app_nil_r.
      + injection Hrun as <-. simpl. rewrite length_app. simpl. split; [lia|reflexivity]. }
  split; [apply Hgen|]. split; apply Hgen.
Qed.

End ViewFilterCopies.

Lemma mutator_keeps_copies_in_sync_witness :
  exists s',
    ViewFilter.post_update GameThread (ViewFilter.ByScene, EGP.MAdd 4 true)
      Samples.fresh_filter_state = Some s'
    /\ ViewFilter.in_sync s'.
Proof.
  eexists. split; [reflexivity|].
  apply (mutator_keeps_copies_in_sync GameThread
           (ViewFilter.ByScene, EGP.MAdd 4 true) Samples.fresh_filter_state).
  - intros c. destruct c; reflexivity.
  - intros _. reflexivity.
  - reflexivity.
Defined.

Lemma cross_thread_calls_reorder_game_copy_witness :
  exists s',
    (s1 ← ViewFilter.ConfigureFilterList RenderThread ViewFilter.ByViewport true
            Samples.fresh_filter_state;
     s2 ← ViewFilter.ConfigureFilterList GameThread ViewFilter.ByViewport false s1;
     s3 ← ViewFilter.render_thread_step s2;
     s4 ← ViewFilter.render_thread_step s3;
     ViewFilter.game_thread_step s4) = Some s'
    /\ ViewFilter.renderCommands s' = []
    /\ ViewFilter.gameThreadTasks s' = []
    /\ EGP.IsAWhitelist (ViewFilter.get_RT ViewFilter.ByViewport (ViewFilter.filter s'))
       = Some false
    /\ EGP.IsAWhitelist (ViewFilter.get_GT ViewFilter.ByViewport (ViewFilter.filter s'))
       = Some true.
Proof.
  apply (cross_thread_calls_reorder_game_copy ViewFilter.ByViewport
           Samples.fresh_filter_state); reflexivity.
Defined.

(** ** ViewFilter: the overloads *)

Section ViewFilterOverloads.

Import EGP ViewFilter.

(** X8. [RemoveByRenderTarget] taking a [UTextureRenderTarget*], given a null object,
    passes [isAdding = true] and [isAddingAsWhitelist = false] to
    [UpdateFilterList]: on a list that is not a whitelist it adds the
    null render target as blacklisted, so that every view family without
    a render target is refused from then on. The [FRenderTarget*]
    overload called with a null pointer removes instead and leaves such
    families allowed. *)
Theorem RemoveByRenderTarget_null_object_blacklists_null
    (s : FilterState)
    (Hmode : IsAWhitelist (byRenderTarget_GT (filter s)) <> Some true) :
  exists s' s'',
    RemoveByRenderTarget_UObject GameThread None s = Some s'
    /\ RemoveByRenderTarget GameThread 0 s = Some s''
    /\ renderCommands s' = renderCommands s ++ [(ByRenderTarget, MAdd 0 false)]
    /\ renderCommands s'' = renderCommands s ++ [(ByRenderTarget, MRemove 0)]
    /\ IsAWhitelist (byRenderTarget_GT (filter s')) = Some false
    /\ IsAllowed equal_to (byRenderTarget_GT (filter s')) 0 = false
    /\ (forall viewFamily,
          RenderTarget viewFamily = 0 ->
          ShouldRenderFor_Family GameThread (filter s') viewFamily = Some false)
    /\ IsAllowed equal_to (byRenderTarget_GT (filter s'')) 0 = true.
Proof.
  unfold RemoveByRenderTarget_UObject, RemoveByRenderTarget, UpdateFilterList,
    post_update, run_on_GT. simpl.
  rewrite (updateFilter_accepts equal_to _ 0 false Hmode). simpl.
  do 2 eexists. split; [reflexivity|]. split; [reflexivity|]. simpl.
  split; [reflexivity|]. split; [reflexivity|]. split; [reflexivity|].
  assert (Hnull : IsAllowed equal_to
                    {| isWhitelist := Some false;
                       elements := elements (byRenderTarget_GT (filter s)) ++ [0] |} 0
                  = false).
  { unfold IsAllowed. simpl.
    rewrite isListed_loop_existsb, existsb_app. simpl.
    rewrite orb_true_r. reflexivity. }
  split; [exact Hnull|]. split.
  - intros viewFamily Hrt. unfold ShouldRenderFor_Family. simpl.
    rewrite !allowed_on_GameThread. simpl. rewrite Hrt, Hnull.
    rewrite andb_false_r. reflexivity.
  - unfold IsAllowed, IsAWhitelist in *. simpl.
    destruct (isWhitelist (byRenderTarget_GT (filter s))) as [[]|];
      [contradiction| |reflexivity].
    rewrite isListed_loop_existsb.
    match goal with |- Bool.eqb ?b false = true => destruct b eqn:E end;
      [|reflexivity].
    apply existsb_exists in E as (e & Hin & He).
    apply filter_In in Hin as [_ Hne]. unfold equal_to in He.
    apply Z.eqb_eq in He. subst e. discriminate Hne.
Qed.

(** X9. The overloads of [ShouldRenderFor] nest. On a thread the filter
    knows, none of them asserts; a view that passes has a family that
    passes, and a family that passes is in a scene that passes; the
    scene-view-extension context passes exactly when its scene and its
    viewport both do, and the extension's activation functor then has no
    opinion and otherwise vetoes (it never forces activation);
    [ExcludeAll] fails the scene and the viewport test and with them all
    the others. On any other thread every overload asserts. *)
Theorem ShouldRenderFor_overloads_nest
    (th : ThreadCtx) (vf : U_EGP_ViewFilter) (view : FSceneView) (viewport : Z) :
  let sveContext := {| sveScene := Scene (Family view); sveViewport := viewport |} in
  if IsInRenderingThread th || IsInGameThread th then
    exists scene family full port : bool,
      ShouldRenderFor_Scene th vf (Scene (Family view)) = Some scene
      /\ ShouldRenderFor_Family th vf (Family view) = Some family
      /\ ShouldRenderFor_View th vf view = Some full
      /\ ShouldRenderFor_Viewport th vf viewport = Some port
      /\ ShouldRenderFor_SVEContext th vf sveContext = Some (scene && port)
      /\ testFilter th vf sveContext
         = Some (if scene && port then None else Some false)
      /\ (full = true -> family = true)
      /\ (family = true -> scene = true)
      /\ (ExcludeAll vf = true -> scene = false /\ port = false)
  else
    ShouldRenderFor_Scene th vf (Scene (Family view)) = None
    /\ ShouldRenderFor_Family th vf (Family view) = None
    /\ ShouldRenderFor_View th vf view = None
    /\ ShouldRenderFor_Viewport th vf viewport = None
    /\ ShouldRenderFor_SVEContext th vf sveContext = None
    /\ testFilter th vf sveContext = None.
Proof.
  intros sveContext.
  unfold testFilter, ShouldRenderFor_SVEContext, ShouldRenderFor_View,
    ShouldRenderFor_Family, ShouldRenderFor_Scene, ShouldRenderFor_Viewport,
    check_thread.
  destruct (IsInRenderingThread th || IsInGameThread th); simpl; [|tauto].
  do 4 eexists. split; [reflexivity|]. split; [reflexivity|].
  split; [reflexivity|]. split; [reflexivity|].
  destruct (ExcludeAll vf); simpl.
  - repeat split; try reflexivity; discriminate.
  - destruct (allowed_on th (byScene_RT vf) (byScene_GT vf) (Scene (Family view)));
      simpl.
    + repeat split; try reflexivity; try discriminate.
      intros H. apply andb_true_iff in H as [H _].
      apply andb_true_iff in H as [H _]. exact H.
    + repeat split; try reflexivity; discriminate.
Qed.

End ViewFilterOverloads.

Lemma RemoveByRenderTarget_null_object_blacklists_null_witness :
  exists s' s'',
    ViewFilter.RemoveByRenderTarget_UObject GameThread None
      Samples.fresh_filter_state = Some s'
    /\ ViewFilter.RemoveByRenderTarget GameThread 0 Samples.fresh_filter_state
       = Some s''
    /\ ViewFilter.renderCommands s'
       = ViewFilter.renderCommands Samples.fresh_filter_state
         ++ [(ViewFilter.ByRenderTarget, EGP.MAdd 0 false)]
    /\ ViewFilter.renderCommands s''
       = ViewFilter.renderCommands Samples.fresh_filter_state
         ++ [(ViewFilter.ByRenderTarget, EGP.MRemove 0)]
    /\ EGP.IsAWhitelist (ViewFilter.byRenderTarget_GT (ViewFilter.filter s'))
       = Some false
    /\ EGP.IsAllowed ViewFilter.equal_to
         (ViewFilter.byRenderTarget_GT (ViewFilter.filter s')) 0 = false
    /\ (forall viewFamily,
          ViewFilter.RenderTarget viewFamily = 0 ->
          ViewFilter.ShouldRenderFor_Family GameThread (ViewFilter.filter s')
            viewFamily = Some false)
    /\ EGP.IsAllowed ViewFilter.equal_to
         (ViewFilter.byRenderTarget_GT (ViewFilter.filter s'')) 0 = true.
Proof.
  apply (RemoveByRenderTarget_null_object_blacklists_null Samples.fresh_filter_state).
  discriminate.
Defined.

Section RenderTargetObjects.

Import EGP ViewFilter.

(** X10. The [UTextureRenderTarget*] overloads are game-thread only, and
    an object never stands for the null render target: called with an
    object whose resource is not initialised they change nothing and
    post nothing; otherwise they post one command naming the object's
    (non-null) resource, exactly as the [FRenderTarget*] overloads do. *)
Theorem render_target_object_never_stands_for_null
    (th : ThreadCtx) (target : UTextureRenderTarget) (w : bool) (s : FilterState) :
  let resource := GameThread_GetRenderTargetResource target in
  if IsInGameThread th then
    exists s1 s2,
      FilterByRenderTarget_UObject th (Some target) w s = Some s1
      /\ RemoveByRenderTarget_UObject th (Some target) s = Some s2
      /\ (resource = 0 -> s1 = s /\ s2 = s)
      /\ (resource <> 0 ->
          FilterByRenderTarget th resource w s = Some s1
          /\ RemoveByRenderTarget th resource s = Some s2
          /\ renderCommands s1
             = renderCommands s ++ [(ByRenderTarget, MAdd resource w)]
          /\ renderCommands s2
             = renderCommands s ++ [(ByRenderTarget, MRemove resource)])
  else
    FilterByRenderTarget_UObject th (Some target) w s = None
    /\ RemoveByRenderTarget_UObject th (Some target) s = None.
Proof.
  intros resource.
  unfold FilterByRenderTarget_UObject, RemoveByRenderTarget_UObject.
  destruct (IsInGameThread th) eqn:Hth; [|split; reflexivity].
  fold resource. destruct (resource =? 0) eqn:E; simpl.
  - apply Z.eqb_eq in E. exists s, s. repeat split; try reflexivity; contradiction.
  - apply Z.eqb_neq in E.
    destruct (post_update_effect th ByRenderTarget (MAdd resource w) s)
      as (s1 & H1 & Hq1 & _).
    destruct (post_update_effect th ByRenderTarget (MRemove resource) s)
      as (s2 & H2 & Hq2 & _).
    exists s1, s2. unfold FilterByRenderTarget, RemoveByRenderTarget, UpdateFilterList.
    repeat split; try assumption; contradiction.
Qed.

End RenderTargetObjects.

(** ** PerViewData: construction, ageing, iteration *)

Section PerViewDataLifeCycle.

Import Int32 PerViewData.

Context {TData NewDataArgs : Type}.
Variable TData_new : FViewInfo -> FIntRect -> NewDataArgs -> TData.
Variable Resample : TData -> FViewInfo -> FIntPoint -> FIntPoint -> FIntPoint -> TData.

Abbreviation ViewData := (@ViewData TData).
Abbreviation T_EGP_PerViewData := (@T_EGP_PerViewData TData).

Lemma DataForView_missing (th : ThreadCtx) (view : FViewInfo)
    (args : NewDataArgs) (p : T_EGP_PerViewData) :
  IsInRenderingThread th = true ->
  dataByViewID p !! ViewKey view = None ->
  DataForView TData_new Resample th view args p
  = Some (with_data p
            (<[ViewKey view :=
                 {| User := TData_new view (ViewRect view) args;
                    PixelSubset := ViewRect view;
                    FeatureLevel := GetFeatureLevel view;
                    FramesSinceAccess := 0 |}]> (dataByViewID p)),
          TData_new view (ViewRect view) args,
          [Call_Construct view (ViewRect view)]).
Proof.
  intros Hth Hd. unfold DataForView. rewrite Hth, Hd. simpl.
  rewrite FIntRect_ne_refl. reflexivity.
Qed.

Lemma DoesDataExistForView_false (view : FViewInfo) (p : T_EGP_PerViewData) :
  DoesDataExistForView view p = false <-> dataByViewID p !! ViewKey view = None.
Proof.
  unfold DoesDataExistForView. rewrite bool_decide_eq_false.
  rewrite <- eq_None_not_Some. reflexivity.
Qed.

(** X11. The first [DataForView] of a view constructs its data from the
    view, the view's rectangle and the caller's arguments, and calls
    nothing else: the fresh entry already has the view's rectangle, so
    no [Resample] follows. The entry records the view's feature level
    and a zero frame count; the entries of other views are untouched;
    [DoesDataExistForView] turns true. A second call hands back the same
    data, constructs nothing and ignores its arguments. *)
Theorem DataForView_constructs_missing_view
    (th : ThreadCtx) (view : FViewInfo) (args : NewDataArgs)
    (p : T_EGP_PerViewData)
    (Hth : IsInRenderingThread th = true)
    (Hmissing : DoesDataExistForView view p = false) :
  exists p',
    DataForView TData_new Resample th view args p
    = Some (p', TData_new view (ViewRect view) args,
            [Call_Construct view (ViewRect view)])
    /\ dataByViewID p' !! ViewKey view
       = Some {| User := TData_new view (ViewRect view) args;
                 PixelSubset := ViewRect view;
                 FeatureLevel := GetFeatureLevel view;
                 FramesSinceAccess := 0 |}
    /\ DoesDataExistForView view p' = true
    /\ (forall k, k <> ViewKey view -> dataByViewID p' !! k = dataByViewID p !! k)
    /\ forall args2, exists p'',
         DataForView TData_new Resample th view args2 p'
         = Some (p'', TData_new view (ViewRect view) args, []).
Proof.
  apply DoesDataExistForView_false in Hmissing.
  rewrite (DataForView_missing th view args p Hth Hmissing).
  eexists. split; [reflexivity|]. simpl.
  split; [apply lookup_insert_eq|]. split.
  - unfold DoesDataExistForView. simpl. apply bool_decide_eq_true_2.
    rewrite lookup_insert_eq. eauto.
  - split; [intros k Hk; apply lookup_insert_ne; congruence|].
    intros args2.
    erewrite DataForView_existing; [|exact Hth|simpl; apply lookup_insert_eq].
    simpl. rewrite FIntRect_ne_refl. eexists. reflexivity.
Qed.

(** X12. [Tick] is render-thread only. There it never asserts, never
    adds an entry and never touches the user's data, the cached
    rectangle or the feature level of one: an entry that is still there
    afterwards is the old one with its frame count either kept (the view
    is protected from cleanup) or advanced by one, and the entries of
    protected views are exactly what they were. *)
Theorem Tick_only_ages_or_evicts (th : ThreadCtx) (p : T_EGP_PerViewData) :
  if IsInRenderingThread th then
    exists p',
      Tick th p = Some p'
      /\ CleanupFrameThreshold p' = CleanupFrameThreshold p
      /\ CleanupPreventionByViewID p' = CleanupPreventionByViewID p
      /\ (forall k d',
            dataByViewID p' !! k = Some d' ->
            exists d,
              dataByViewID p !! k = Some d
              /\ User d' = User d
              /\ PixelSubset d' = PixelSubset d
              /\ FeatureLevel d' = FeatureLevel d
              /\ FramesSinceAccess d'
                 = if decide (k ∈ CleanupPreventionByViewID p)
                   then FramesSinceAccess d
                   else wrap32 (FramesSinceAccess d + 1))
      /\ (forall k, k ∈ CleanupPreventionByViewID p ->
                    dataByViewID p' !! k = dataByViewID p !! k)
  else Tick th p = None.
Proof.
  destruct (IsInRenderingThread th) eqn:Hth;
    [|unfold Tick; rewrite Hth; reflexivity].
  destruct (Tick_lookup th p Hth) as (p' & Hrun & Ht & Hs & Hk).
  exists p'. split; [exact Hrun|]. split; [exact Ht|]. split; [exact Hs|]. split.
  - intros k d'. rewrite Hk. unfold Tick_entry.
    destruct (decide (k ∈ CleanupPreventionByViewID p)).
    + intros H. exists d'. auto.
    + destruct (dataByViewID p !! k) as [d|]; simpl; [|discriminate].
      destruct (FramesSinceAccess d >? CleanupFrameThreshold p); [discriminate|].
      intros [= <-]. exists d. auto.
  - intros k Hin. rewrite Hk. unfold Tick_entry.
    destruct (decide (k ∈ CleanupPreventionByViewID p)); [reflexivity|contradiction].
Qed.

(** X13. With a negative threshold nothing unprotected survives a tick:
    the entry [DataForView] has just refreshed (frame count 0) is already
    over the threshold at the next [Tick] and is evicted, so the
    following [DataForView] constructs the view's data again. *)
Theorem negative_threshold_evicts_every_frame
    (th : ThreadCtx) (view : FViewInfo) (args : NewDataArgs)
    (p : T_EGP_PerViewData)
    (Hth : IsInRenderingThread th = true)
    (Hnegative : CleanupFrameThreshold p < 0)
    (Hunprotected : ViewKey view ∉ CleanupPreventionByViewID p) :
  exists p1 user calls p2,
    DataForView TData_new Resample th view args p = Some (p1, user, calls)
    /\ DoesDataExistForView view p1 = true
    /\ Tick th p1 = Some p2
    /\ DoesDataExistForView view p2 = false
    /\ forall args2, exists p3,
         DataForView TData_new Resample th view args2 p2
         = Some (p3, TData_new view (ViewRect view) args2,
                 [Call_Construct view (ViewRect view)]).
Proof.
  destruct (DataForView_lookup TData_new Resample th view args p Hth)
    as (p1 & user & calls & Hrun & Ht1 & Hs1 & _ & d1 & Hd1 & Hf1).
  destruct (Tick_lookup th p1 Hth) as (p2 & Htick & Ht2 & Hs2 & Hk2).
  assert (Hgone : dataByViewID p2 !! ViewKey view = None).
  { rewrite Hk2, Hd1. unfold Tick_entry.
    destruct (decide (ViewKey view ∈ CleanupPreventionByViewID p1)) as [Hin|_].
    - rewrite Hs1 in Hin. contradiction.
    - simpl. rewrite Hf1, Ht1.
      destruct (0 >? CleanupFrameThreshold p) eqn:E; [reflexivity|].
      rewrite Z.gtb_ltb, Z.ltb_ge in E. lia. }
  exists p1, user, calls, p2. split; [exact Hrun|]. split.
  - unfold DoesDataExistForView. apply bool_decide_eq_true_2. rewrite Hd1. eauto.
  - split; [exact Htick|]. split; [apply DoesDataExistForView_false; exact Hgone|].
    intros args2. rewrite (DataForView_missing th view args2 p2 Hth Hgone).
    eexists. reflexivity.
Qed.

(** X14. [ForEachView] calls the lambda once for every cached view and
    for nothing else, handing it the view's id, its user data and its
    feature level. *)
Theorem ForEachView_visits_each_view_once (p : T_EGP_PerViewData) :
  NoDup ((fun call => call.1.1) <$> ForEachView p)
  /\ length (ForEachView p) = size (dataByViewID p)
  /\ forall id user featureLevel,
       (id, user, featureLevel) ∈ ForEachView p
       <-> exists d, dataByViewID p !! id = Some d
                     /\ User d = user /\ FeatureLevel d = featureLevel.
Proof.
  unfold ForEachView. split; [|split].
  - rewrite <- list_fmap_compose.
    apply (NoDup_fst_map_to_list (dataByViewID p)).
  - rewrite length_fmap. apply length_map_to_list.
  - intros id user fl. rewrite list_elem_of_fmap. split.
    + intros ([k d] & [= -> -> ->] & Hin). apply elem_of_map_to_list in Hin.
      exists d. auto.
    + intros (d & Hd & <- & <-). exists (id, d). split; [reflexivity|].
      apply elem_of_map_to_list. exact Hd.
Qed.

End PerViewDataLifeCycle.

Section PerViewDataLifeCycleExamples.

Import Int32 PerViewData Samples.

Lemma DataForView_constructs_missing_view_witness :
  let view8 := {| ViewKey := 8; ViewRect := rect 0 0 64 64; GetFeatureLevel := 3 |} in
  exists p',
    DataForView Counter_new Counter_Resample RenderThread view8 tt cache
    = Some (p', Counter_new view8 (ViewRect view8) tt,
            [Call_Construct view8 (ViewRect view8)])
    /\ dataByViewID p' !! ViewKey view8
       = Some {| User := Counter_new view8 (ViewRect view8) tt;
                 PixelSubset := ViewRect view8;
                 FeatureLevel := GetFeatureLevel view8;
                 FramesSinceAccess := 0 |}
    /\ DoesDataExistForView view8 p' = true
    /\ (forall k, k <> ViewKey view8 -> dataByViewID p' !! k = dataByViewID cache !! k)
    /\ forall args2, exists p'',
         DataForView Counter_new Counter_Resample RenderThread view8 args2 p'
         = Some (p'', Counter_new view8 (ViewRect view8) tt, []).
Proof.
  intros view8.
  apply (DataForView_constructs_missing_view Counter_new Counter_Resample
           RenderThread view8 tt cache).
  - reflexivity.
  - vm_compute. reflexivity.
Defined.

Lemma negative_threshold_evicts_every_frame_witness :
  let impatient : @T_EGP_PerViewData Z :=
    {| CleanupFrameThreshold := -1;
       CleanupPreventionByViewID := ∅;
       dataByViewID := ∅ |} in
  exists p1 user calls p2,
    DataForView Counter_new Counter_Resample RenderThread view7 tt impatient
    = Some (p1, user, calls)
    /\ DoesDataExistForView view7 p1 = true
    /\ Tick RenderThread p1 = Some p2
    /\ DoesDataExistForView view7 p2 = false
    /\ forall args2, exists p3,
         DataForView Counter_new Counter_Resample RenderThread view7 args2 p2
         = Some (p3, Counter_new view7 (ViewRect view7) args2,
                 [Call_Construct view7 (ViewRect view7)]).
Proof.
  intros impatient.
  apply (negative_threshold_evicts_every_frame Counter_new Counter_Resample
           RenderThread view7 tt impatient).
  - reflexivity.
  - simpl. lia.
  - apply not_elem_of_empty.
Defined.

End PerViewDataLifeCycleExamples.

(** ** Render passes: creation, registration, destruction *)

Section RenderPassLifeCycle.

Import RenderPasses.

Context {float : Type}.

Abbreviation Engine := (RenderPasses.Engine float).

Lemma set_pass_same (p : Z) (o : U_EGP_RenderPass) (e : Engine) :
  passObjects e !! p = Some o -> set_pass p o e = Some (tt, e).
Proof.
  intros H. unfold set_pass. rewrite (insert_id _ _ _ H). destruct e; reflexivity.
Qed.

Lemma with_Components_GameThread_same (o : U_EGP_RenderPass) :
  with_Components_GameThread o (Components_GameThread o) = o.
Proof. destruct o; reflexivity. Qed.

Lemma GetPass_found (th : ThreadCtx) (type scene pass : Z) (b : bool) (e : Engine) :
  IsInGameThread th = true ->
  worldScene e = Some scene ->
  passes (subsystem e) !! type = Some pass ->
  GetPass th type b e = Some (Some pass, e).
Proof.
  intros Hth Hw Hp.
  unfold GetPass, GetWorld, get_subsystem, bind, check, get, ret, lift.
  rewrite Hth. simpl. rewrite Hw. simpl. rewrite Hp. reflexivity.
Qed.

Lemma GetPass_creates (th : ThreadCtx) (type scene : Z) (e : Engine) :
  IsInGameThread th = true ->
  worldScene e = Some scene ->
  passes (subsystem e) !! type = None ->
  GetPass th type true e
  = Some (Some (nextObject e),
          {| worldScene := worldScene e;
             subsystem := with_passes (subsystem e)
                            (<[type := nextObject e]> (passes (subsystem e)));
             passObjects := <[nextObject e := NewObject_pass type]> (passObjects e);
             componentObjects := componentObjects e;
             renderQueue := renderQueue e ++ [InitPass (nextObject e)];
             completedFences := completedFences e;
             nextObject := nextObject e + 1;
             engineLog := engineLog e |}).
Proof.
  intros Hth Hw Hp.
  unfold GetPass, GetWorld, get_subsystem, new_object, set_pass, set_subsystem,
    ENQUEUE_RENDER_COMMAND, bind, check, get, ret, lift.
  rewrite Hth. simpl. rewrite Hw. simpl. rewrite Hp. simpl. rewrite <- Hw.
  reflexivity.
Qed.

(** X15. [GetPass] with [createIfNeeded] always hands back a pass and
    creates one at most once per type. When the type has no pass yet, a
    fresh object is made, entered in [passes], and exactly one
    initialisation command is posted for it (while [GetPass] without
    [createIfNeeded] would have answered null and changed nothing);
    when it has one, that pass is returned and nothing changes. Either
    way every later [GetPass] of the type returns the same pass and
    changes nothing. *)
Theorem GetPass_creates_a_pass_once
    (th : ThreadCtx) (type scene : Z) (e : Engine)
    (Hth : IsInGameThread th = true)
    (Hworld : worldScene e = Some scene) :
  exists pass e1,
    GetPass th type true e = Some (Some pass, e1)
    /\ passes (subsystem e1) !! type = Some pass
    /\ (forall createIfNeeded,
          GetPass th type createIfNeeded e1 = Some (Some pass, e1))
    /\ match passes (subsystem e) !! type with
       | Some found => pass = found /\ e1 = e
       | None =>
           pass = nextObject e
           /\ GetPass th type false e = Some (None, e)
           /\ passObjects e1 !! pass = Some (NewObject_pass type)
           /\ renderQueue e1 = renderQueue e ++ [InitPass pass]
           /\ nextObject e1 = nextObject e + 1
           /\ (forall other, other <> type ->
                 passes (subsystem e1) !! other = passes (subsystem e) !! other)
           /\ dyingPassFences (subsystem e1) = dyingPassFences (subsystem e)
       end.
Proof.
  destruct (passes (subsystem e) !! type) as [found|] eqn:E.
  - exists found, e. split; [exact (GetPass_found th type scene found true e Hth Hworld E)|].
    split; [exact E|]. split; [|split; reflexivity].
    intros b. exact (GetPass_found th type scene found b e Hth Hworld E).
  - rewrite (GetPass_creates th type scene e Hth Hworld E).
    eexists _, _. split; [reflexivity|]. simpl.
    split; [apply lookup_insert_eq|]. split.
    + intros b. apply (GetPass_found th type scene); [exact Hth|exact Hworld|].
      simpl. apply lookup_insert_eq.
    + split; [reflexivity|].
      split; [exact (GetPass_missing th type scene e Hth Hworld E)|].
      split; [apply lookup_insert_eq|]. split; [reflexivity|]. split; [reflexivity|].
      split; [|reflexivity].
      intros other Hne. apply lookup_insert_ne. congruence.
Qed.

(** *** Registration *)

Lemma TSet_Add_elem (c c' : Z) (s : list Z) :
  c' ∈ TSet_Add c s <-> c' = c \/ c' ∈ s.
Proof.
  unfold TSet_Add. destruct (bool_decide (c ∈ s)) eqn:E.
  - apply bool_decide_eq_true_1 in E. split; [auto|]. intros [->|]; assumption.
  - rewrite elem_of_app, list_elem_of_singleton. tauto.
Qed.

Lemma TSet_Add_NoDup (c : Z) (s : list Z) : NoDup s -> NoDup (TSet_Add c s).
Proof.
  intros H. unfold TSet_Add. destruct (bool_decide (c ∈ s)) eqn:E; [exact H|].
  apply bool_decide_eq_false_1 in E.
  apply NoDup_app. split; [exact H|]. split.
  - intros x Hx Hx'. apply list_elem_of_singleton in Hx'. subst. contradiction.
  - apply NoDup_singleton.
Qed.

Lemma TSet_Remove_elem (c c' : Z) (s : list Z) :
  c' ∈ TSet_Remove c s <-> c' <> c /\ c' ∈ s.
Proof.
  unfold TSet_Remove. rewrite !list_elem_of_In, filter_In, negb_true_iff, Z.eqb_neq.
  tauto.
Qed.

Lemma TSet_Remove_absent (c : Z) (s : list Z) : c ∉ s -> TSet_Remove c s = s.
Proof.
  unfold TSet_Remove. induction s as [|x s IH]; intros H; simpl; [reflexivity|].
  apply not_elem_of_cons in H as [Hne Hs].
  destruct (x =? c) eqn:E; [apply Z.eqb_eq in E; congruence|].
  simpl. f_equal. apply IH. exact Hs.
Qed.

Lemma TSet_Remove_Add (c : Z) (s : list Z) :
  c ∉ s -> TSet_Remove c (TSet_Add c s) = s.
Proof.
  intros H. unfold TSet_Add.
  rewrite (bool_decide_eq_false_2 _ H).
  unfold TSet_Remove. rewrite List.filter_app. simpl. rewrite Z.eqb_refl. simpl.
  rewrite app_nil_r. apply (TSet_Remove_absent c s H).
Qed.

Lemma RegisterPassComponent_run (th : ThreadCtx) (p c : Z) (e : Engine)
    (o : U_EGP_RenderPass) :
  IsInGameThread th = true ->
  passObjects e !! p = Some o ->
  RegisterPassComponent th p c e
  = set_pass p (with_Components_GameThread o
                  (TSet_Add c (Components_GameThread o))) e.
Proof.
  intros Hth Ho. unfold RegisterPassComponent, deref_pass, bind, check, get, lift, ret.
  rewrite Hth. simpl. rewrite Ho. reflexivity.
Qed.

Lemma UnregisterPassComponent_run (th : ThreadCtx) (p c : Z) (e : Engine)
    (o : U_EGP_RenderPass) :
  IsInGameThread th = true ->
  passObjects e !! p = Some o ->
  UnregisterPassComponent th p c e
  = set_pass p (with_Components_GameThread o
                  (TSet_Remove c (Components_GameThread o))) e.
Proof.
  intros Hth Ho. unfold UnregisterPassComponent, deref_pass, bind, check, get, lift, ret.
  rewrite Hth. simpl. rewrite Ho. reflexivity.
Qed.

(** X16. The registered components of a pass behave as a set.
    Registering adds the component and nothing else, keeps the list free
    of duplicates, and registering again changes nothing. Unregistering
    removes the component and nothing else, and unregistering again
    changes nothing; registering a component that was not registered and
    unregistering it again restores the engine state exactly. *)
Theorem registration_is_a_set
    (th : ThreadCtx) (p c : Z) (e : Engine) (o : U_EGP_RenderPass)
    (Hth : IsInGameThread th = true)
    (Hpass : passObjects e !! p = Some o) :
  exists e1 o1 e2 o2,
    RegisterPassComponent th p c e = Some (tt, e1)
    /\ passObjects e1 !! p = Some o1
    /\ (forall c', c' ∈ Components_GameThread o1
                   <-> c' = c \/ c' ∈ Components_GameThread o)
    /\ (NoDup (Components_GameThread o) -> NoDup (Components_GameThread o1))
    /\ RegisterPassComponent th p c e1 = Some (tt, e1)
    /\ UnregisterPassComponent th p c e1 = Some (tt, e2)
    /\ passObjects e2 !! p = Some o2
    /\ (forall c', c' ∈ Components_GameThread o2
                   <-> c' <> c /\ c' ∈ Components_GameThread o)
    /\ UnregisterPassComponent th p c e2 = Some (tt, e2)
    /\ (c ∉ Components_GameThread o -> e2 = e).
Proof.
  rewrite (RegisterPassComponent_run th p c e o Hth Hpass).
  set (o1 := with_Components_GameThread o (TSet_Add c (Components_GameThread o))).
  destruct (set_pass p o1 e) as [[[] e1]|] eqn:E1; [|discriminate].
  assert (Ho1 : passObjects e1 !! p = Some o1).
  { injection E1 as <-. simpl. apply lookup_insert_eq. }
  set (o2 := with_Components_GameThread o1 (TSet_Remove c (Components_GameThread o1))).
  destruct (set_pass p o2 e1) as [[[] e2]|] eqn:E2; [|discriminate].
  assert (Ho2 : passObjects e2 !! p = Some o2).
  { injection E2 as <-. simpl. apply lookup_insert_eq. }
  exists e1, o1, e2, o2.
  split; [reflexivity|]. split; [exact Ho1|].
  split; [intros c'; apply TSet_Add_elem|].
  split; [apply TSet_Add_NoDup|]. split.
  { rewrite (RegisterPassComponent_run th p c e1 o1 Hth Ho1).
    assert (Hin : c ∈ Components_GameThread o1) by (apply TSet_Add_elem; auto).
    unfold TSet_Add. rewrite (bool_decide_eq_true_2 _ Hin).
    rewrite with_Components_GameThread_same. apply set_pass_same. exact Ho1. }
  split; [rewrite (UnregisterPassComponent_run th p c e1 o1 Hth Ho1); exact E2|].
  split; [exact Ho2|]. split.
  { intros c'. unfold o2. simpl. rewrite TSet_Remove_elem, TSet_Add_elem.
    split; [intros [Hne [->|H]]; [congruence|auto] | intros [Hne H]; auto]. }
  split.
  { rewrite (UnregisterPassComponent_run th p c e2 o2 Hth Ho2).
    rewrite TSet_Remove_absent.
    - rewrite with_Components_GameThread_same. apply set_pass_same. exact Ho2.
    - unfold o2. simpl. apply TSet_Remove_not_in. }
  intros Hnew. injection E2 as <-. injection E1 as <-. simpl.
  unfold o2, o1. simpl. rewrite (TSet_Remove_Add c _ Hnew).
  rewrite insert_insert_eq.
  replace (with_Components_GameThread
             (with_Components_GameThread o (TSet_Add c (Components_GameThread o)))
             (Components_GameThread o)) with o by (destruct o; reflexivity).
  rewrite (insert_id _ _ _ Hpass). destruct e; reflexivity.
Qed.

(** *** Destruction *)

Lemma DestroyPass_missing (th : ThreadCtx) (type : Z) (b : bool) (e : Engine) :
  IsInGameThread th = true ->
  passes (subsystem e) !! type = None ->
  DestroyPass_Impl_GameThread th type b e = Some (false, e).
Proof.
  intros Hth Hp.
  unfold DestroyPass_Impl_GameThread, get_subsystem, bind, check, get, ret.
  rewrite Hth. simpl. rewrite Hp. reflexivity.
Qed.

(** X17. A pass is destroyed once: while its cleanup is still queued a
    second [DestroyPass_GameThread] of the type finds nothing, returns
    false and changes nothing. [GetPass] with [createIfNeeded] then does
    not revive the dying pass but makes a new object for the type, whose
    initialisation is queued behind the old pass's cleanup and fence;
    the old pass stays in [dyingPassFences]. *)
Theorem destroyed_pass_is_replaced_by_a_new_one
    (th : ThreadCtx) (e : Engine) (type pass scene : Z)
    (Hth : IsInGameThread th = true)
    (Hlive : isCurrentlyDying (subsystem e) = false)
    (Hpass : passes (subsystem e) !! type = Some pass)
    (Hworld : worldScene e = Some scene)
    (Hallocated : pass < nextObject e) :
  exists e1 e2 pass',
    DestroyPass_GameThread th type e = Some (true, e1)
    /\ DestroyPass_GameThread th type e1 = Some (false, e1)
    /\ GetPass th type true e1 = Some (Some pass', e2)
    /\ pass' <> pass
    /\ passes (subsystem e2) !! type = Some pass'
    /\ passObjects e2 !! pass' = Some (NewObject_pass type)
    /\ dyingPassFences (subsystem e2) !! pass = Some (nextObject e)
    /\ renderQueue e2
       = renderQueue e
         ++ [CleanupPass pass true; RenderFence (nextObject e); InitPass pass'].
Proof.
  pose proof (DestroyPass_GameThread_live th e type pass scene Hth Hlive Hpass Hworld)
    as H1.
  match type of H1 with _ = Some (true, ?x) => set (e1 := x) in * end.
  assert (Hgone : passes (subsystem e1) !! type = None) by apply lookup_delete_eq.
  assert (Hworld1 : worldScene e1 = Some scene) by exact Hworld.
  pose proof (GetPass_creates th type scene e1 Hth Hworld1 Hgone) as H2.
  match type of H2 with _ = Some (_, ?x) => set (e2 := x) in * end.
  exists e1, e2, (nextObject e1).
  split; [exact H1|]. split; [exact (DestroyPass_missing th type true e1 Hth Hgone)|].
  split; [exact H2|]. split; [simpl; lia|].
  split; [simpl; apply lookup_insert_eq|].
  split; [simpl; apply lookup_insert_eq|].
  split; [simpl; apply lookup_insert_eq|].
  simpl. rewrite <- !app_assoc. reflexivity.
Qed.

Section ReadinessWithHook.

Variable Tick_RenderThread : U_EGP_RenderPass -> Z -> float -> U_EGP_RenderPass.

Lemma render_thread_step_monotone (e e' : Engine) :
  render_thread_step Tick_RenderThread e = Some (tt, e') ->
  subsystem e' = subsystem e
  /\ forall f, f ∈ completedFences e -> f ∈ completedFences e'.
Proof.
  unfold render_thread_step. destruct (renderQueue e) as [|cmd rest].
  - intros [= <-]. auto.
  - intros H. apply run_command_effect in H as (_ & Hs & _ & _ & Hc). simpl in *.
    split; [exact Hs|]. intros f Hf. rewrite Hc.
    destruct cmd; try exact Hf. apply elem_of_union. right. exact Hf.
Qed.

(** X18. The render thread cannot take readiness away: whatever it runs,
    and whatever the passes' hooks do, it leaves the subsystem's
    bookkeeping alone and only ever adds completed fences, so once
    [IsReadyForFinishDestroy] is true it stays true however many
    commands the render thread goes on to run. *)
Theorem render_thread_keeps_readiness (n : nat) (e e' : Engine)
    (Hrun : render_thread_steps Tick_RenderThread n e = Some (tt, e'))
    (Hready : IsReadyForFinishDestroy e = true) :
  IsReadyForFinishDestroy e' = true
  /\ subsystem e' = subsystem e
  /\ forall f, f ∈ completedFences e -> f ∈ completedFences e'.
Proof.
  assert (Hmono : subsystem e' = subsystem e
                  /\ forall f, f ∈ completedFences e -> f ∈ completedFences e').
  { revert e Hrun Hready. induction n as [|n IH]; intros e Hrun Hready; simpl in Hrun.
    - injection Hrun as <-. auto.
    - rewrite bind_unfold in Hrun.
      destruct (render_thread_step Tick_RenderThread e) as [[[] e1]|] eqn:E;
        [|discriminate].
      apply render_thread_step_monotone in E as [Hs Hc].
      assert (Hready1 : IsReadyForFinishDestroy e1 = true).
      { apply IsReadyForFinishDestroy_iff. intros p f Hf. rewrite Hs in Hf.
        apply Hc. apply IsReadyForFinishDestroy_iff in Hready.
        exact (Hready p f Hf). }
      destruct (IH e1 Hrun Hready1) as [Hs' Hc'].
      split; [congruence|]. intros f Hf. apply Hc', Hc, Hf. }
  destruct Hmono as [Hs Hc]. split; [|split; [exact Hs | exact Hc]].
  apply IsReadyForFinishDestroy_iff. intros p f Hf. rewrite Hs in Hf.
  apply Hc. apply IsReadyForFinishDestroy_iff in Hready. exact (Hready p f Hf).
Qed.

End ReadinessWithHook.

End RenderPassLifeCycle.

(** ** Render passes: a frame *)

Section RenderPassFrames.

Import RenderPasses.

Context {float : Type}.

Abbreviation Engine := (RenderPasses.Engine float).

Lemma IsValid_ptr_ext (e1 e2 : Engine) (c : Z) :
  componentObjects e1 = componentObjects e2 -> IsValid_ptr e1 c = IsValid_ptr e2 c.
Proof. intros H. unfold IsValid_ptr. rewrite H. reflexivity. Qed.

Lemma valid_components_ext (e1 e2 : Engine) (pass : Z) :
  componentObjects e1 = componentObjects e2 ->
  Components_GameThread <$> passObjects e1 !! pass
  = Components_GameThread <$> passObjects e2 !! pass ->
  valid_components e1 pass = valid_components e2 pass.
Proof.
  intros Hc Hp. unfold valid_components.
  destruct (passObjects e1 !! pass) as [o1|], (passObjects e2 !! pass) as [o2|];
    simpl in Hp; try discriminate; [|reflexivity].
  injection Hp as ->. apply filter_ext. intros c. apply IsValid_ptr_ext. exact Hc.
Qed.

(** The game-thread tick of one pass, with everything it leaves alone. *)
Lemma Tick_GameThread_frame (p scene : Z) (dt : float) (e : Engine) :
  is_Some (passObjects e !! p) ->
  exists e1,
    Tick_GameThread p scene dt e = Some (tt, e1)
    /\ renderQueue e1
       = renderQueue e
         ++ [UpdateCustomRenderPassProxies p scene dt (valid_components e p)]
    /\ componentObjects e1 = componentObjects e
    /\ subsystem e1 = subsystem e
    /\ worldScene e1 = worldScene e
    /\ completedFences e1 = completedFences e
    /\ nextObject e1 = nextObject e
    /\ forall q, Components_GameThread <$> passObjects e1 !! q
                 = Components_GameThread <$> passObjects e !! q.
Proof.
  intros [o Ho]. unfold valid_components. rewrite Ho.
  unfold Tick_GameThread, collect_valid, deref_pass, set_pass, UE_LOG,
    ENQUEUE_RENDER_COMMAND, bind, get, lift, ret.
  rewrite Ho. simpl.
  destruct (negb (warnedAboutArrayHeapUsage o)
            && (StackCount <? length (List.filter (IsValid_ptr e)
                                        (Components_GameThread o)))%nat);
    simpl; eexists; (split; [reflexivity|]); simpl; repeat split.
  intros q. destruct (decide (q = p)) as [->|Hne].
  - rewrite lookup_insert_eq, Ho. reflexivity.
  - rewrite lookup_insert_ne by congruence. reflexivity.
Qed.

Lemma Tick_loop_frame (scene : Z) (dt : float) (l : list Z) :
  forall e : Engine,
    (forall p, p ∈ l -> is_Some (passObjects e !! p)) ->
    exists e',
      forM_ l (fun pass => Tick_GameThread pass scene dt) e = Some (tt, e')
      /\ renderQueue e'
         = renderQueue e
           ++ ((fun pass => UpdateCustomRenderPassProxies pass scene dt
                              (valid_components e pass)) <$> l)
      /\ componentObjects e' = componentObjects e
      /\ subsystem e' = subsystem e
      /\ completedFences e' = completedFences e
      /\ forall q, Components_GameThread <$> passObjects e' !! q
                   = Components_GameThread <$> passObjects e !! q.
Proof.
  induction l as [|p l IH]; intros e Hobj; simpl.
  - exists e. rewrite app_nil_r. auto 10.
  - destruct (Tick_GameThread_frame p scene dt e) as
      (e1 & Hrun & Hq & Hc & Hs & Hw & Hf & Hn & Hreg).
    { apply Hobj. left. }
    rewrite bind_unfold, Hrun.
    destruct (IH e1) as (e' & Hrun' & Hq' & Hc' & Hs' & Hf' & Hreg').
    { intros q Hin.
      assert (H : is_Some (passObjects e !! q)) by (apply Hobj; right; exact Hin).
      specialize (Hreg q). destruct H as [o Ho]. rewrite Ho in Hreg.
      destruct (passObjects e1 !! q); [eauto|discriminate]. }
    exists e'. split; [exact Hrun'|]. split.
    { rewrite Hq', Hq, <- app_assoc. simpl. do 2 f_equal.
      apply list_fmap_ext. intros i q Hq0. f_equal.
      apply valid_components_ext; [exact Hc | apply Hreg]. }
    split; [congruence|]. split; [congruence|]. split; [congruence|].
    intros q. rewrite Hreg', Hreg. reflexivity.
Qed.

(** X19. The subsystem's tick needs a world. With one, it ticks every
    pass of [passes] once, in the order in which the map is iterated:
    the render queue grows by exactly one
    [UpdateCustomRenderPassProxies] per pass, in that order, each
    carrying the pass's valid registered components as they were when
    the tick began; the subsystem's own bookkeeping, the components and
    the fences are untouched. *)
Theorem Tick_posts_one_update_per_pass
    (TMap_order : gmap Z Z -> list (Z * Z))
    (dt : float) (e : Engine) (scene : Z)
    (Hworld : worldScene e = Some scene)
    (Horder : enumerates TMap_order (passes (subsystem e)))
    (Hobjects : forall type pass,
        passes (subsystem e) !! type = Some pass ->
        is_Some (passObjects e !! pass)) :
  exists e',
    Tick TMap_order dt e = Some (tt, e')
    /\ renderQueue e'
       = renderQueue e
         ++ ((fun pass => UpdateCustomRenderPassProxies pass scene dt
                            (valid_components e pass))
               <$> (TMap_order (passes (subsystem e))).*2)
    /\ length (renderQueue e')
       = (length (renderQueue e) + size (passes (subsystem e)))%nat
    /\ (forall type pass,
          passes (subsystem e) !! type = Some pass ->
          UpdateCustomRenderPassProxies pass scene dt (valid_components e pass)
            ∈ renderQueue e')
    /\ subsystem e' = subsystem e
    /\ componentObjects e' = componentObjects e
    /\ completedFences e' = completedFences e.
Proof.
  unfold enumerates in Horder.
  unfold Tick, GetWorld, get_subsystem.
  rewrite bind_unfold. cbn [bind get]. rewrite Hworld. cbn [lift ret].
  rewrite bind_unfold. cbn [bind get ret].
  destruct (Tick_loop_frame scene dt (TMap_order (passes (subsystem e))).*2 e)
    as (e' & Hrun & Hq & Hc & Hs & Hf & _).
  { intros p Hin. apply list_elem_of_fmap in Hin as ([type pass] & -> & Hin).
    rewrite Horder in Hin.
    apply elem_of_map_to_list in Hin. exact (Hobjects type pass Hin). }
  exists e'. split; [exact Hrun|]. split; [exact Hq|]. split; [|split; [|auto]].
  - rewrite Hq, length_app, !length_fmap, Horder, length_map_to_list. reflexivity.
  - intros type pass Hpass. rewrite Hq. apply elem_of_app. right.
    apply list_elem_of_fmap. exists pass. split; [reflexivity|].
    apply list_elem_of_fmap. exists (type, pass). split; [reflexivity|].
    rewrite Horder. apply elem_of_map_to_list. exact Hpass.
Qed.

(** *** The order of a frame's commands *)

Lemma TickComponent_run (IsA_UPrimitiveComponent : Z -> bool) (c : Z)
    (newProxy : ProxyData_t) (e : Engine) (co : U_EGP_RenderPassComponent) :
  componentObjects e !! c = Some co ->
  TickComponent IsA_UPrimitiveComponent c newProxy e
  = Some (tt, with_renderQueue e
                (renderQueue e
                 ++ [CopyCustomPassProxy c newProxy
                       (Cast_UPrimitiveComponent IsA_UPrimitiveComponent
                          (GetAttachParent co))])).
Proof.
  intros Hco. unfold TickComponent, deref_component, ENQUEUE_RENDER_COMMAND,
    bind, get, lift, ret.
  rewrite Hco. reflexivity.
Qed.

Section FrameOrderWithHook.

Variable Tick_RenderThread : U_EGP_RenderPass -> Z -> float -> U_EGP_RenderPass.
Variable IsA_UPrimitiveComponent : Z -> bool.

Lemma render_thread_step_cons (e : Engine) (cmd : RenderCommand float)
    (rest : list (RenderCommand float)) :
  renderQueue e = cmd :: rest ->
  render_thread_step Tick_RenderThread e
  = run_command Tick_RenderThread RenderThread cmd (with_renderQueue e rest).
Proof. intros H. unfold render_thread_step. rewrite H. reflexivity. Qed.

Lemma run_CopyCustomPassProxy (c : Z) (newProxy : ProxyData_t) (newTarget : Z)
    (e : Engine) (co : U_EGP_RenderPassComponent) :
  componentObjects e !! c = Some co ->
  exists e',
    run_command Tick_RenderThread RenderThread
      (CopyCustomPassProxy c newProxy newTarget) e = Some (tt, e')
    /\ componentObjects e'
       = <[c := {| IsValid := IsValid co; Target := Target co;
                   EnabledInCustomPass := EnabledInCustomPass co;
                   GetAttachParent := GetAttachParent co;
                   renderThreadProxy := newProxy;
                   renderThreadTarget := newTarget |}]> (componentObjects e)
    /\ passObjects e' = passObjects e
    /\ renderQueue e' = renderQueue e.
Proof.
  intros Hco. cbn [run_command]. unfold deref_component, set_component, bind, get, lift, ret.
  rewrite Hco. eexists. split; [reflexivity|]. simpl. auto.
Qed.

(** X20. Within a frame the order of the two game-thread ticks decides
    what the render thread sees. When the component ticks before its
    pass, its copy command runs first and the table the pass rebuilds
    holds the proxy built this frame. When the pass ticks first, the
    table is rebuilt from the proxy published earlier, and the new one
    is only copied into the component afterwards: the table is one frame
    behind. Either way the component's render-thread target ends as its
    attach parent cast to a primitive component: the parent itself if it
    is one, null if it is not. *)
Theorem proxy_reaches_table_in_frame_order
    (p c scene : Z) (dt : float) (newProxy : ProxyData_t) (e : Engine)
    (o : U_EGP_RenderPass) (co : U_EGP_RenderPassComponent)
    (Hidle : renderQueue e = [])
    (Hpass : passObjects e !! p = Some o)
    (Hcomp : componentObjects e !! c = Some co)
    (Hvalid : IsValid co = true)
    (Hreg : c ∈ Components_GameThread o) :
  let newTarget :=
    if negb (GetAttachParent co =? 0)
       && IsA_UPrimitiveComponent (GetAttachParent co)
    then GetAttachParent co else 0 in
  (exists e1 o1,
     bind (TickComponent IsA_UPrimitiveComponent c newProxy) (fun _ =>
     bind (Tick_GameThread p scene dt) (fun _ =>
     render_thread_steps Tick_RenderThread 2)) e = Some (tt, e1)
     /\ renderQueue e1 = []
     /\ passObjects e1 !! p = Some (Tick_RenderThread o1 scene dt)
     /\ ComponentProxies_RenderThread o1 !! c = Some newProxy
     /\ renderThreadTarget <$> componentObjects e1 !! c = Some newTarget)
  /\ (exists e2 o2,
     bind (Tick_GameThread p scene dt) (fun _ =>
     bind (TickComponent IsA_UPrimitiveComponent c newProxy) (fun _ =>
     render_thread_steps Tick_RenderThread 2)) e = Some (tt, e2)
     /\ renderQueue e2 = []
     /\ passObjects e2 !! p = Some (Tick_RenderThread o2 scene dt)
     /\ ComponentProxies_RenderThread o2 !! c = Some (renderThreadProxy co)
     /\ renderThreadProxy <$> componentObjects e2 !! c = Some newProxy
     /\ renderThreadTarget <$> componentObjects e2 !! c = Some newTarget).
Proof.
  intros newTarget.
  change newTarget
    with (Cast_UPrimitiveComponent IsA_UPrimitiveComponent (GetAttachParent co)).
  clear newTarget.
  set (newTarget :=
         Cast_UPrimitiveComponent IsA_UPrimitiveComponent (GetAttachParent co)).
  assert (Hsnap : c ∈ valid_components e p).
  { unfold valid_components. rewrite Hpass. apply list_elem_of_In, filter_In.
    split; [apply list_elem_of_In; exact Hreg|].
    unfold IsValid_ptr. rewrite Hcomp. exact Hvalid. }
  assert (Hexist : forall c', c' ∈ valid_components e p ->
                              is_Some (componentObjects e !! c')).
  { intros c' Hin. unfold valid_components in Hin. rewrite Hpass in Hin.
    apply list_elem_of_In, filter_In in Hin as [_ Hv]. unfold IsValid_ptr in Hv.
    destruct (componentObjects e !! c'); [eauto|discriminate]. }
  split.
  - (* component first *)
    rewrite bind_unfold,
      (TickComponent_run IsA_UPrimitiveComponent c newProxy e co Hcomp).
    fold newTarget.
    set (e0 := with_renderQueue e _).
    destruct (Tick_GameThread_frame p scene dt e0) as
      (ea & Hrun & Hq & Hc & Hs & Hw & Hf & Hn & Hregs).
    { simpl. eauto. }
    rewrite bind_unfold, Hrun. simpl in Hq. rewrite Hidle in Hq. simpl in Hq.
    change (render_thread_steps Tick_RenderThread 2)
      with (bind (render_thread_step Tick_RenderThread)
              (fun _ => bind (render_thread_step Tick_RenderThread)
                          (fun _ => @ret float unit tt))).
    rewrite bind_unfold, (render_thread_step_cons ea _ _ Hq).
    destruct (run_CopyCustomPassProxy c newProxy newTarget
                (with_renderQueue ea
                   [UpdateCustomRenderPassProxies p scene dt (valid_components e0 p)])
                co)
      as (eb & Hrunb & Hcb & Hpb & Hqb).
    { simpl. rewrite Hc. exact Hcomp. }
    rewrite Hrunb, bind_unfold. simpl in Hqb, Hcb, Hpb.
    rewrite (render_thread_step_cons eb _ _ Hqb).
    assert (Hpass_b : is_Some (passObjects eb !! p)).
    { rewrite Hpb. specialize (Hregs p). simpl in Hregs. rewrite Hpass in Hregs.
      destruct (passObjects ea !! p); [eauto|discriminate]. }
    destruct Hpass_b as [ob Hob].
    destruct (run_UpdateCustomRenderPassProxies Tick_RenderThread p scene dt
                (valid_components e0 p) (with_renderQueue eb []) ob)
      as (ec & oc & Hrunc & Htab & _ & Hpc & Hcc).
    { exact Hob. }
    { intros c' Hin. simpl. rewrite Hcb, Hc. simpl.
      destruct (decide (c' = c)) as [->|Hne].
      - rewrite lookup_insert_eq. eauto.
      - rewrite lookup_insert_ne by congruence. apply Hexist. exact Hin. }
    rewrite Hrunc. exists ec, oc. split; [reflexivity|].
    apply run_command_effect in Hrunc as (_ & _ & Hqc & _).
    split; [exact Hqc|]. split; [exact Hpc|]. split.
    + rewrite Htab. simpl. rewrite Hcb.
      destruct (decide (c ∈ valid_components e0 p)) as [|Hnot]; [|contradiction].
      rewrite lookup_insert_eq. reflexivity.
    + rewrite Hcc. simpl. rewrite Hcb, lookup_insert_eq. reflexivity.
  - (* pass first *)
    destruct (Tick_GameThread_frame p scene dt e) as
      (ea & Hrun & Hq & Hc & Hs & Hw & Hf & Hn & Hregs).
    { eauto. }
    rewrite bind_unfold, Hrun. rewrite Hidle in Hq. simpl in Hq.
    rewrite bind_unfold,
      (TickComponent_run IsA_UPrimitiveComponent c newProxy ea co)
      by (rewrite Hc; exact Hcomp).
    fold newTarget. rewrite Hq. simpl app.
    set (e0 := with_renderQueue ea _).
    change (render_thread_steps Tick_RenderThread 2)
      with (bind (render_thread_step Tick_RenderThread)
              (fun _ => bind (render_thread_step Tick_RenderThread)
                          (fun _ => @ret float unit tt))).
    rewrite bind_unfold, (render_thread_step_cons e0 _ _ eq_refl).
    assert (Hpass_a : is_Some (passObjects ea !! p)).
    { specialize (Hregs p). rewrite Hpass in Hregs.
      destruct (passObjects ea !! p); [eauto|discriminate]. }
    destruct Hpass_a as [oa Hoa].
    destruct (run_UpdateCustomRenderPassProxies Tick_RenderThread p scene dt
                (valid_components e p)
                (with_renderQueue e0
                   [CopyCustomPassProxy c newProxy newTarget]) oa)
      as (eb & ob & Hrunb & Htab & _ & Hpb & Hcb).
    { exact Hoa. }
    { intros c' Hin. simpl. rewrite Hc. apply Hexist. exact Hin. }
    rewrite Hrunb, bind_unfold.
    pose proof Hrunb as Heff.
    apply run_command_effect in Heff as (_ & _ & Hqb & _). simpl in Hqb.
    rewrite (render_thread_step_cons eb _ _ Hqb).
    destruct (run_CopyCustomPassProxy c newProxy newTarget
                (with_renderQueue eb []) co)
      as (ec & Hrunc & Hcc & Hpc & Hqc).
    { simpl. rewrite Hcb. simpl. rewrite Hc. exact Hcomp. }
    rewrite Hrunc. exists ec, ob. split; [reflexivity|].
    split; [exact Hqc|]. split; [rewrite Hpc; exact Hpb|]. split.
    + rewrite Htab. simpl. rewrite Hc, Hcomp.
      destruct (decide (c ∈ valid_components e p)) as [|Hnot];
        [reflexivity|contradiction].
    + split; rewrite Hcc, lookup_insert_eq; reflexivity.
Qed.

(** X21. Destroying a pass stops its scene-view-extension: once the
    render thread has run the two commands [DestroyPass_GameThread]
    posts, the pass's [stopAllRendering] flag is set, and from then on
    the extension's world test vetoes every context, that of its own
    world included (which it had no opinion on before). *)
Theorem destroyed_pass_stops_rendering
    (th : ThreadCtx) (e : Engine) (type pass scene : Z) (o : U_EGP_RenderPass)
    (Hth : IsInGameThread th = true)
    (Hlive : isCurrentlyDying (subsystem e) = false)
    (Hpass : passes (subsystem e) !! type = Some pass)
    (Hworld : worldScene e = Some scene)
    (Hidle : renderQueue e = [])
    (Hobject : passObjects e !! pass = Some o)
    (Hrendering : stopAllRendering o = false) :
  exists e2 o2,
    bind (DestroyPass_GameThread th type)
         (fun _ => render_thread_steps Tick_RenderThread 2) e = Some (tt, e2)
    /\ renderQueue e2 = []
    /\ passObjects e2 !! pass = Some o2
    /\ stopAllRendering o2 = true
    /\ (forall World, ViewFilter.testWorld World (stopAllRendering o) World = None)
    /\ (forall World contextWorld,
          ViewFilter.testWorld World (stopAllRendering o2) contextWorld = Some false).
Proof.
  rewrite bind_unfold,
    (DestroyPass_GameThread_live th e type pass scene Hth Hlive Hpass Hworld).
  rewrite Hidle. simpl app.
  set (e1 := {| worldScene := worldScene e |}).
  change (render_thread_steps Tick_RenderThread 2)
    with (bind (render_thread_step Tick_RenderThread)
            (fun _ => bind (render_thread_step Tick_RenderThread)
                        (fun _ => @ret float unit tt))).
  rewrite bind_unfold, (render_thread_step_cons e1 _ _ eq_refl).
  cbn [run_command]. unfold deref_pass. rewrite !bind_unfold. cbn [get].
  change (passObjects (with_renderQueue e1 [RenderFence (nextObject e)]))
    with (passObjects e).
  rewrite Hobject. cbn [lift ret set_pass].
  rewrite bind_unfold. unfold render_thread_step. cbn [renderQueue with_renderQueue].
  cbn [run_command mark_fence_complete ret].
  eexists _, (with_stopAllRendering o true). split; [reflexivity|]. simpl.
  split; [reflexivity|]. split; [apply lookup_insert_eq|]. split; [reflexivity|].
  split.
  - intros World. unfold ViewFilter.testWorld. rewrite Hrendering, Z.eqb_refl.
    reflexivity.
  - intros World contextWorld. reflexivity.
Qed.

End FrameOrderWithHook.

End RenderPassFrames.

(** ** Render passes: iterating the components on the render thread *)

Section ForEachComponentFacts.

Import RenderPasses.

Context {float : Type}.

Abbreviation Engine := (RenderPasses.Engine float).

Variable e : Engine.
Variable SceneProxy : Z -> Z.

Lemma ForEachComponent_loop_sound (entries : list (Z * ProxyData_t))
    (v : ComponentVisit) :
  v ∈ ForEachComponent_loop e SceneProxy entries ->
  (visitedComponent v, visitedProxy v) ∈ entries
  /\ IsValid_ptr e (visitedComponent v) = true
  /\ has_scene_proxy e SceneProxy (visitedComponent v) = true
  /\ renderThreadTarget <$> componentObjects e !! visitedComponent v
     = Some (visitedPrimitive v)
  /\ visitedSceneProxy v = SceneProxy (visitedPrimitive v).
Proof.
  induction entries as [|[c b] rest IH]; simpl; [intros H; inversion H|].
  assert (Hrest : v ∈ ForEachComponent_loop e SceneProxy rest ->
                  (visitedComponent v, visitedProxy v) ∈ (c, b) :: rest
                  /\ IsValid_ptr e (visitedComponent v) = true
                  /\ has_scene_proxy e SceneProxy (visitedComponent v) = true
                  /\ renderThreadTarget <$> componentObjects e !! visitedComponent v
                     = Some (visitedPrimitive v)
                  /\ visitedSceneProxy v = SceneProxy (visitedPrimitive v)).
  { intros H. destruct (IH H) as (H1 & H2). split; [right; exact H1 | exact H2]. }
  destruct (componentObjects e !! c) as [o|] eqn:Ho; [|exact Hrest].
  destruct (IsValid o) eqn:Hv; [|exact Hrest].
  destruct ((renderThreadTarget o =? 0) || (SceneProxy (renderThreadTarget o) =? 0))
    eqn:Hc; [intros H; inversion H|].
  intros H. apply elem_of_cons in H as [->|H]; [|exact (Hrest H)]. simpl.
  split; [left|]. unfold IsValid_ptr, has_scene_proxy. rewrite Ho. simpl.
  apply orb_false_iff in Hc as [-> ->]. auto.
Qed.

Lemma ForEachComponent_loop_NoDup (entries : list (Z * ProxyData_t)) :
  NoDup entries.*1 ->
  NoDup (visitedComponent <$> ForEachComponent_loop e SceneProxy entries).
Proof.
  induction entries as [|[c b] rest IH]; simpl; [intros _; apply NoDup_nil_2|].
  intros Hnd. apply NoDup_cons in Hnd as [Hnotin Hnd].
  destruct (componentObjects e !! c) as [o|]; [|exact (IH Hnd)].
  destruct (IsValid o); [|exact (IH Hnd)].
  destruct ((renderThreadTarget o =? 0) || (SceneProxy (renderThreadTarget o) =? 0));
    [apply NoDup_nil_2|].
  simpl. apply NoDup_cons. split; [|exact (IH Hnd)].
  intros Hin. apply list_elem_of_fmap in Hin as (v & Hc & Hv).
  apply ForEachComponent_loop_sound in Hv as [Hv _].
  apply Hnotin. apply list_elem_of_fmap. exists (visitedComponent v, visitedProxy v).
  split; [exact Hc | exact Hv].
Qed.

Lemma ForEachComponent_loop_complete (entries : list (Z * ProxyData_t)) :
  (forall c b, (c, b) ∈ entries -> IsValid_ptr e c = true ->
               has_scene_proxy e SceneProxy c = true) ->
  forall c b,
    (c, b) ∈ entries -> IsValid_ptr e c = true ->
    exists v, v ∈ ForEachComponent_loop e SceneProxy entries
              /\ visitedComponent v = c /\ visitedProxy v = b.
Proof.
  induction entries as [|[c0 b0] rest IH]; intros Hall c b Hin Hvalid;
    [inversion Hin|].
  assert (Hrest : (c, b) ∈ rest ->
                  exists v, v ∈ ForEachComponent_loop e SceneProxy rest
                            /\ visitedComponent v = c /\ visitedProxy v = b).
  { intros H. apply IH; [|exact H|exact Hvalid].
    intros c' b' Hin' Hv'. apply (Hall c' b'); [right; exact Hin' | exact Hv']. }
  simpl.
  pose proof (Hall c0 b0 (list_elem_of_here _ _)) as Hhead.
  unfold IsValid_ptr, has_scene_proxy in Hhead.
  apply elem_of_cons in Hin as [[= -> ->]|Hin].
  - unfold IsValid_ptr in Hvalid.
    destruct (componentObjects e !! c0) as [o|]; [|discriminate].
    rewrite Hvalid. specialize (Hhead Hvalid).
    apply andb_true_iff in Hhead as [H1 H2].
    apply negb_true_iff in H1, H2. rewrite H1, H2. simpl.
    eexists. split; [left|]. simpl. auto.
  - destruct (Hrest Hin) as (v & Hv & Hvc & Hvb).
    destruct (componentObjects e !! c0) as [o|]; [|eauto].
    destruct (IsValid o); [|eauto]. specialize (Hhead eq_refl).
    apply andb_true_iff in Hhead as [H1 H2].
    apply negb_true_iff in H1, H2. rewrite H1, H2. simpl.
    exists v. split; [right; exact Hv | auto].
Qed.

Lemma ForEachComponent_loop_stops (pre post : list (Z * ProxyData_t))
    (c : Z) (b : ProxyData_t) :
  IsValid_ptr e c = true ->
  has_scene_proxy e SceneProxy c = false ->
  ForEachComponent_loop e SceneProxy (pre ++ (c, b) :: post)
  = ForEachComponent_loop e SceneProxy pre.
Proof.
  intros Hvalid Hmissing. induction pre as [|[c0 b0] pre IH]; simpl.
  - unfold IsValid_ptr, has_scene_proxy in *.
    destruct (componentObjects e !! c) as [o|]; [|discriminate].
    rewrite Hvalid.
    destruct (renderThreadTarget o =? 0); [reflexivity|].
    destruct (SceneProxy (renderThreadTarget o) =? 0); [reflexivity|discriminate].
  - destruct (componentObjects e !! c0) as [o|]; [|exact IH].
    destruct (IsValid o); [|exact IH].
    destruct ((renderThreadTarget o =? 0) || (SceneProxy (renderThreadTarget o) =? 0));
      [reflexivity|]. f_equal. exact IH.
Qed.

Variable TMap_order : gmap Z ProxyData_t -> list (Z * ProxyData_t).

Lemma ForEachComponent_RenderThread_run (th : ThreadCtx) (Pass : Z)
    (o : U_EGP_RenderPass) :
  IsInRenderingThread th = true ->
  passObjects e !! Pass = Some o ->
  ForEachComponent_RenderThread th true SceneProxy TMap_order Pass e
  = Some (ForEachComponent_loop e SceneProxy
            (TMap_order (ComponentProxies_RenderThread o)), e).
Proof.
  intros Hth Hpass.
  unfold ForEachComponent_RenderThread, deref_pass, bind, check, get, lift, ret.
  rewrite Hth. simpl. rewrite Hpass. reflexivity.
Qed.

Lemma enumerates_elem_of (table : gmap Z ProxyData_t) (c : Z) (b : ProxyData_t) :
  enumerates TMap_order table ->
  (c, b) ∈ TMap_order table <-> table !! c = Some b.
Proof.
  unfold enumerates. intros H. rewrite H. apply elem_of_map_to_list.
Qed.

Lemma enumerates_NoDup (table : gmap Z ProxyData_t) :
  enumerates TMap_order table -> NoDup (TMap_order table).*1.
Proof.
  unfold enumerates. intros H. rewrite H. apply NoDup_fst_map_to_list.
Qed.

(** X22. [ForEachComponent_RenderThread] is render-thread only and
    asserts in an extension without a component type. It changes
    nothing; in whatever order the pass's proxy table is iterated, it
    calls the lambda at most once per component of the table, only for
    components that are valid, have a target and whose target has a
    scene proxy, and hands it the proxy bytes of the table, the target
    and the target's scene proxy. When every valid component of the
    table has a target with a scene proxy, every valid component is
    visited. *)
Theorem ForEachComponent_visits_components_with_scene_proxies
    (th : ThreadCtx) (Pass : Z) (o : U_EGP_RenderPass)
    (Hth : IsInRenderingThread th = true)
    (Hpass : passObjects e !! Pass = Some o)
    (Horder : enumerates TMap_order (ComponentProxies_RenderThread o)) :
  let table := ComponentProxies_RenderThread o in
  exists visits,
    ForEachComponent_RenderThread th true SceneProxy TMap_order Pass e
      = Some (visits, e)
    /\ ForEachComponent_RenderThread th false SceneProxy TMap_order Pass e = None
    /\ NoDup (visitedComponent <$> visits)
    /\ (forall v, v ∈ visits ->
          table !! visitedComponent v = Some (visitedProxy v)
          /\ IsValid_ptr e (visitedComponent v) = true
          /\ has_scene_proxy e SceneProxy (visitedComponent v) = true
          /\ renderThreadTarget <$> componentObjects e !! visitedComponent v
             = Some (visitedPrimitive v)
          /\ visitedSceneProxy v = SceneProxy (visitedPrimitive v))
    /\ ((forall c, is_Some (table !! c) -> IsValid_ptr e c = true ->
                   has_scene_proxy e SceneProxy c = true) ->
        forall c b, table !! c = Some b -> IsValid_ptr e c = true ->
                    exists v, v ∈ visits
                              /\ visitedComponent v = c /\ visitedProxy v = b).
Proof.
  intros table.
  rewrite (ForEachComponent_RenderThread_run th Pass o Hth Hpass).
  eexists. split; [reflexivity|]. split.
  { unfold ForEachComponent_RenderThread, bind, check, ret, fail.
    rewrite Hth. reflexivity. }
  split; [apply ForEachComponent_loop_NoDup, enumerates_NoDup, Horder|]. split.
  - intros v Hv. apply ForEachComponent_loop_sound in Hv as (Hin & H).
    apply (enumerates_elem_of _ _ _ Horder) in Hin. split; [exact Hin | exact H].
  - intros Hall c b Hc Hvalid.
    apply ForEachComponent_loop_complete;
      [|apply (enumerates_elem_of _ _ _ Horder); exact Hc|exact Hvalid].
    intros c' b' Hin. apply (enumerates_elem_of _ _ _ Horder) in Hin. apply Hall.
    exists b'. exact Hin.
Qed.

(** X23. The loop leaves through [return], not [continue], at the first
    valid component that has no target or whose target has no scene
    proxy. That component and the components that come after it in the
    iteration of the table are not visited, whatever their state; only
    components that come before it are, and all the valid ones among
    them when each of those has a target with a scene proxy. *)
Theorem ForEachComponent_stops_at_first_missing_scene_proxy
    (th : ThreadCtx) (Pass : Z) (o : U_EGP_RenderPass)
    (pre post : list (Z * ProxyData_t)) (c : Z) (bytes : ProxyData_t)
    (Hth : IsInRenderingThread th = true)
    (Hpass : passObjects e !! Pass = Some o)
    (Henumerates : enumerates TMap_order (ComponentProxies_RenderThread o))
    (Horder : TMap_order (ComponentProxies_RenderThread o)
              = pre ++ (c, bytes) :: post)
    (Hvalid : IsValid_ptr e c = true)
    (Hmissing : has_scene_proxy e SceneProxy c = false) :
  exists visits,
    ForEachComponent_RenderThread th true SceneProxy TMap_order Pass e
      = Some (visits, e)
    /\ (forall v, v ∈ visits -> visitedComponent v ∈ pre.*1)
    /\ ((forall c' b', (c', b') ∈ pre -> IsValid_ptr e c' = true ->
                       has_scene_proxy e SceneProxy c' = true) ->
        forall c' b', (c', b') ∈ pre -> IsValid_ptr e c' = true ->
                      c' ∈ visitedComponent <$> visits)
    /\ (forall c', c' ∈ post.*1 -> c' ∉ visitedComponent <$> visits)
    /\ (c ∉ visitedComponent <$> visits).
Proof.
  rewrite (ForEachComponent_RenderThread_run th Pass o Hth Hpass), Horder.
  rewrite (ForEachComponent_loop_stops pre post c bytes Hvalid Hmissing).
  eexists. split; [reflexivity|].
  assert (Hsub : forall v, v ∈ ForEachComponent_loop e SceneProxy pre ->
                           visitedComponent v ∈ pre.*1).
  { intros v Hv. apply ForEachComponent_loop_sound in Hv as [Hin _].
    apply list_elem_of_fmap. exists (visitedComponent v, visitedProxy v).
    split; [reflexivity | exact Hin]. }
  pose proof (enumerates_NoDup _ Henumerates) as Hnd.
  rewrite Horder, fmap_app in Hnd. simpl in Hnd.
  apply NoDup_app in Hnd as (_ & Hdisj & _).
  split; [exact Hsub|]. split; [|split].
  - intros Hbefore c' b' Hin Hv.
    destruct (ForEachComponent_loop_complete pre Hbefore c' b' Hin Hv)
      as (v & Hvin & Hvc & _).
    apply list_elem_of_fmap. exists v. split; [symmetry; exact Hvc | exact Hvin].
  - intros c' Hpost Hin. apply list_elem_of_fmap in Hin as (v & -> & Hv).
    apply (Hdisj _ (Hsub v Hv)). right. exact Hpost.
  - intros Hin. apply list_elem_of_fmap in Hin as (v & Hc & Hv).
    apply (Hdisj _ (Hsub v Hv)). rewrite <- Hc. left.
Qed.

End ForEachComponentFacts.

(** ** Render passes: components entering and leaving play *)

Section ComponentPlayFacts.

Import RenderPasses.

Context {float : Type}.

Abbreviation Engine := (RenderPasses.Engine float).

Lemma BeginPlay_run (th : ThreadCtx) (c passType scene pass : Z)
    (e ea : Engine) (oa : U_EGP_RenderPass) :
  worldScene e = Some scene ->
  GetPass th passType true e = Some (Some pass, ea) ->
  passObjects ea !! pass = Some oa ->
  BeginPlay th c passType e
  = bind (RegisterPassComponent th pass c) (fun _ => ret []) ea.
Proof.
  intros Hw Hget Hoa. unfold BeginPlay, bind, get. cbv beta iota.
  rewrite Hw. cbv beta iota. rewrite Hget. cbv beta iota.
  rewrite bool_decide_eq_true_2 by (rewrite Hoa; eauto). reflexivity.
Qed.

Lemma EndPlay_run (th : ThreadCtx) (c passType scene pass : Z)
    (hook : M float unit) (e ea : Engine) (oa : U_EGP_RenderPass) :
  worldScene e = Some scene ->
  GetPass th passType true e = Some (Some pass, ea) ->
  passObjects ea !! pass = Some oa ->
  EndPlay th c passType hook e
  = bind (UnregisterPassComponent th pass c) (fun _ => hook) ea.
Proof.
  intros Hw Hget Hoa. unfold EndPlay, bind, get. cbv beta iota.
  rewrite Hw. cbv beta iota. rewrite Hget. cbv beta iota.
  rewrite bool_decide_eq_true_2 by (rewrite Hoa; eauto). reflexivity.
Qed.

(** X24. A component that begins play in a world registers with the
    pass of its type, which is created on the spot if the subsystem has
    none, and logs nothing. When it ends play it is first unregistered
    from that same pass; up to that point nothing has been posted to the
    render thread and the subsystem is unchanged. The component's
    [DestructProxyData_GameThread] then runs in that state, whatever it
    does: the outcome of [EndPlay], and everything it posts, is the
    outcome of that hook. *)
Theorem BeginPlay_registers_with_the_pass_of_its_type
    (th : ThreadCtx) (c passType scene : Z) (e : Engine)
    (Hth : IsInGameThread th = true)
    (Hworld : worldScene e = Some scene)
    (Hobjects : forall pass,
        passes (subsystem e) !! passType = Some pass ->
        is_Some (passObjects e !! pass)) :
  exists e1 pass o1 e2 o2,
    BeginPlay th c passType e = Some ([], e1)
    /\ passes (subsystem e1) !! passType = Some pass
    /\ passObjects e1 !! pass = Some o1
    /\ c ∈ Components_GameThread o1
    /\ (forall DestructProxyData_GameThread : M float unit,
          EndPlay th c passType DestructProxyData_GameThread e1
          = DestructProxyData_GameThread e2)
    /\ passObjects e2 !! pass = Some o2
    /\ (c ∉ Components_GameThread o2)
    /\ renderQueue e2 = renderQueue e1
    /\ subsystem e2 = subsystem e1.
Proof.
  assert (Hget : exists pass ea oa,
             GetPass th passType true e = Some (Some pass, ea)
             /\ passes (subsystem ea) !! passType = Some pass
             /\ passObjects ea !! pass = Some oa
             /\ worldScene ea = Some scene).
  { destruct (passes (subsystem e) !! passType) as [found|] eqn:E.
    - destruct (Hobjects found eq_refl) as [oa Hoa].
      exists found, e, oa.
      split; [exact (GetPass_found th passType scene found true e Hth Hworld E)|].
      auto.
    - rewrite (GetPass_creates th passType scene e Hth Hworld E).
      eexists _, _, _. split; [reflexivity|]. simpl.
      split; [apply lookup_insert_eq|]. split; [apply lookup_insert_eq|exact Hworld]. }
  destruct Hget as (pass & ea & oa & Hget & Hpa & Hoa & Hwa).
  rewrite (BeginPlay_run th c passType scene pass e ea oa Hworld Hget Hoa).
  rewrite bind_unfold, (RegisterPassComponent_run th pass c ea oa Hth Hoa).
  cbn [set_pass ret].
  set (o1 := with_Components_GameThread oa (TSet_Add c (Components_GameThread oa))).
  set (e1 := {| worldScene := worldScene ea |}).
  assert (Ho1 : passObjects e1 !! pass = Some o1) by apply lookup_insert_eq.
  assert (Hget1 : GetPass th passType true e1 = Some (Some pass, e1)).
  { apply (GetPass_found th passType scene); [exact Hth|exact Hwa|exact Hpa]. }
  set (o2 := with_Components_GameThread o1 (TSet_Remove c (Components_GameThread o1))).
  assert (Hrun : forall hook : M float unit,
             EndPlay th c passType hook e1
             = hook {| worldScene := worldScene e1; subsystem := subsystem e1;
                       passObjects := <[pass := o2]> (passObjects e1);
                       componentObjects := componentObjects e1;
                       renderQueue := renderQueue e1;
                       completedFences := completedFences e1;
                       nextObject := nextObject e1;
                       engineLog := engineLog e1 |}).
  { intros hook.
    rewrite (EndPlay_run th c passType scene pass hook e1 e1 o1 Hwa Hget1 Ho1).
    rewrite bind_unfold, (UnregisterPassComponent_run th pass c e1 o1 Hth Ho1).
    reflexivity. }
  match type of Hrun with forall hook, _ = hook ?x => set (e2 := x) in * end.
  exists e1, pass, o1, e2, o2.
  split; [reflexivity|]. split; [exact Hpa|]. split; [exact Ho1|].
  split; [apply TSet_Add_elem; auto|]. split; [exact Hrun|].
  split; [apply lookup_insert_eq|]. split; [apply TSet_Remove_not_in|].
  split; reflexivity.
Qed.

(** X25. [EndPlay] asks for the pass with [createIfNeeded] set. When the
    pass of the component's type is gone (destroyed, or never made), the
    component's end of play therefore creates a new pass object for the
    type and posts its initialisation, only to unregister from it; the
    destructor hook then runs in that state. *)
Theorem EndPlay_recreates_a_missing_pass
    (th : ThreadCtx) (c passType scene : Z) (e : Engine)
    (Hth : IsInGameThread th = true)
    (Hworld : worldScene e = Some scene)
    (Hgone : passes (subsystem e) !! passType = None) :
  exists e1,
    EndPlay th c passType (ret tt) e = Some (tt, e1)
    /\ passes (subsystem e1) !! passType = Some (nextObject e)
    /\ passObjects e1 !! nextObject e = Some (NewObject_pass passType)
    /\ renderQueue e1 = renderQueue e ++ [InitPass (nextObject e)]
    /\ nextObject e1 = nextObject e + 1
    /\ forall DestructProxyData_GameThread : M float unit,
         EndPlay th c passType DestructProxyData_GameThread e
         = DestructProxyData_GameThread e1.
Proof.
  pose proof (GetPass_creates th passType scene e Hth Hworld Hgone) as Hget.
  match type of Hget with _ = Some (_, ?x) => set (ea := x) in * end.
  assert (Hoa : passObjects ea !! nextObject e = Some (NewObject_pass passType))
    by apply lookup_insert_eq.
  assert (Hrun : forall hook : M float unit,
             EndPlay th c passType hook e
             = hook {| worldScene := worldScene ea; subsystem := subsystem ea;
                       passObjects :=
                         <[nextObject e := NewObject_pass passType]> (passObjects ea);
                       componentObjects := componentObjects ea;
                       renderQueue := renderQueue ea;
                       completedFences := completedFences ea;
                       nextObject := nextObject ea;
                       engineLog := engineLog ea |}).
  { intros hook.
    rewrite (EndPlay_run th c passType scene (nextObject e) hook e ea _ Hworld Hget Hoa).
    rewrite bind_unfold, (UnregisterPassComponent_run th _ c ea _ Hth Hoa).
    reflexivity. }
  match type of Hrun with forall hook, _ = hook ?x => set (e1 := x) in * end.
  exists e1. split; [exact (Hrun (ret tt))|].
  split; [apply lookup_insert_eq|]. split; [apply lookup_insert_eq|].
  split; [reflexivity|]. split; [reflexivity|]. exact Hrun.
Qed.

End ComponentPlayFacts.

(** ** Mesh batches *)

Section MeshBatchFacts.

Import MeshBatches.

Lemma at_index_Some {A} (l : list A) (i : Z) (x : A) :
  at_index l i = Some x <-> 0 <= i /\ l !! Z.to_nat i = Some x.
Proof.
  unfold at_index. destruct (i <? 0) eqn:E.
  - apply Z.ltb_lt in E. split; [discriminate | intros [H _]; lia].
  - apply Z.ltb_ge in E. tauto.
Qed.

(** X26. On a view whose three per-primitive arrays have one slot per
    primitive, [GetDynamicMeshElementRange] never asserts, whatever the
    index. For a primitive of the view it answers the primitive's
    element range [X, Y) when the primitive is visible and has dynamic
    relevance, and the empty range otherwise; either way both bounds of
    the answer are closed or exclusive, never open. *)
Theorem GetDynamicMeshElementRange_on_consistent_view
    (info : FViewInfo) (primitiveIndex : N)
    (Hconsistent : consistent_view info) :
  exists range lower upper,
    GetDynamicMeshElementRange info primitiveIndex = Some range
    /\ GetLowerBoundValue range = Some lower
    /\ GetUpperBoundValue range = Some upper
    /\ forall visible relevance bounds,
         PrimitiveVisibilityMap info !! N.to_nat primitiveIndex = Some visible ->
         PrimitiveViewRelevanceMap info !! N.to_nat primitiveIndex = Some relevance ->
         DynamicMeshElementRanges info !! N.to_nat primitiveIndex = Some bounds ->
         range = if visible && bDynamicRelevance relevance
                 then FInt32Range_make bounds.1 bounds.2
                 else FInt32Range_Empty.
Proof.
  destruct Hconsistent as [Hvis Hranges].
  unfold GetDynamicMeshElementRange.
  destruct (N.of_nat (length (PrimitiveViewRelevanceMap info)) <=? primitiveIndex)%N
    eqn:E.
  - apply N.leb_le in E. exists FInt32Range_Empty, 0, 0.
    repeat split. intros visible relevance bounds _ Hrel _.
    apply lookup_lt_Some in Hrel. lia.
  - apply N.leb_gt in E.
    assert (Hlt : (N.to_nat primitiveIndex < length (PrimitiveViewRelevanceMap info))%nat)
      by lia.
    destruct (lookup_lt_is_Some_2 (PrimitiveVisibilityMap info) (N.to_nat primitiveIndex))
      as [visible Hv]; [lia|].
    destruct (lookup_lt_is_Some_2 (PrimitiveViewRelevanceMap info) (N.to_nat primitiveIndex))
      as [relevance Hr]; [lia|].
    destruct (lookup_lt_is_Some_2 (DynamicMeshElementRanges info) (N.to_nat primitiveIndex))
      as [bounds Hb]; [lia|].
    rewrite Hv. simpl. rewrite Hr, Hb. simpl.
    destruct visible, (bDynamicRelevance relevance) eqn:Hd; simpl;
      (do 3 eexists; split; [reflexivity|]; split; [reflexivity|];
       split; [reflexivity|];
       intros v' r' b' [= <-] [= <-] [= <-]; rewrite ?Hd; reflexivity).
Qed.

Lemma static_loop_calls (StaticMeshVisibilityMap : list bool)
    (staticMeshes : list FStaticMeshBatch) :
  forall (first : Z) (calls : list BatchCall),
    static_loop StaticMeshVisibilityMap staticMeshes first = Some calls ->
    Forall (fun call =>
              elementMask call = all_elements_mask
              /\ exists staticMesh,
                   callBatch call = StaticBatch staticMesh
                   /\ callProxy call = ownerProxy staticMesh
                   /\ at_index StaticMeshVisibilityMap (Id staticMesh) = Some true
                   /\ first <= staticMeshIDIfApplicable call
                   /\ staticMeshes !! Z.to_nat (staticMeshIDIfApplicable call - first)
                      = Some staticMesh) calls.
Proof.
  induction staticMeshes as [|m rest IH]; intros first calls; simpl.
  - intros [= <-]. constructor.
  - destruct (at_index StaticMeshVisibilityMap (Id m)) as [visible|] eqn:Hv;
      [|discriminate]. simpl.
    destruct (static_loop StaticMeshVisibilityMap rest (first + 1)) as [calls'|] eqn:Hr;
      [|discriminate]. simpl.
    intros [= <-].
    assert (Hrest : Forall (fun call =>
              elementMask call = all_elements_mask
              /\ exists staticMesh,
                   callBatch call = StaticBatch staticMesh
                   /\ callProxy call = ownerProxy staticMesh
                   /\ at_index StaticMeshVisibilityMap (Id staticMesh) = Some true
                   /\ first <= staticMeshIDIfApplicable call
                   /\ (m :: rest) !! Z.to_nat (staticMeshIDIfApplicable call - first)
                      = Some staticMesh) calls').
    { eapply Forall_impl; [exact (IH _ _ Hr)|].
      intros call (Hmask & sm & Hb & Hp & Hvis & Hle & Hlook).
      split; [exact Hmask|]. exists sm. repeat split; try assumption; [lia|].
      replace (Z.to_nat (staticMeshIDIfApplicable call - first))
        with (S (Z.to_nat (staticMeshIDIfApplicable call - (first + 1)))) by lia.
      exact Hlook. }
    destruct visible; [|exact Hrest].
    constructor; [|exact Hrest]. simpl. split; [reflexivity|].
    exists m. repeat split; try assumption; [lia|].
    rewrite Z.sub_diag. reflexivity.
Qed.

Lemma dynamic_loop_calls (DynamicMeshElements : list FMeshBatchAndRelevance)
    (count : nat) :
  forall (first : Z) (calls : list BatchCall),
    dynamic_loop DynamicMeshElements first count = Some calls ->
    length calls = count
    /\ Forall (fun call =>
                 elementMask call = all_elements_mask
                 /\ staticMeshIDIfApplicable call = -1
                 /\ exists batchI data,
                      first <= batchI < first + Z.of_nat count
                      /\ at_index DynamicMeshElements batchI = Some data
                      /\ callBatch call = DynamicBatch (Mesh data)
                      /\ callProxy call = PrimitiveSceneProxy data) calls.
Proof.
  induction count as [|n IH]; intros first calls; simpl.
  - intros [= <-]. split; [reflexivity | constructor].
  - destruct (at_index DynamicMeshElements first) as [data|] eqn:Hd; [|discriminate].
    simpl.
    destruct (dynamic_loop DynamicMeshElements (first + 1) n) as [calls'|] eqn:Hr;
      [|discriminate]. simpl.
    intros [= <-]. destruct (IH _ _ Hr) as [Hlen Hall].
    split; [simpl; congruence|].
    constructor.
    + simpl. split; [reflexivity|]. split; [reflexivity|].
      exists first, data. repeat split; try assumption; lia.
    + eapply Forall_impl; [exact Hall|].
      intros call (Hmask & Hid & i & d & Hrange & Hat & Hb & Hp).
      split; [exact Hmask|]. split; [exact Hid|].
      exists i, d. repeat split; try assumption; lia.
Qed.

(** X27. Whatever [ForEachBatch] hands to the batch processor carries
    the full element mask. A static batch comes with its index in the
    primitive's [StaticMeshes], is visible in the view's static mesh
    visibility map and is passed with the proxy of its owner; a dynamic
    batch comes with the id -1, and is an element of the view's
    [DynamicMeshElements] passed with the proxy recorded there. *)
Theorem ForEachBatch_calls
    (viewInfo : FViewInfo) (StaticMeshVisibilityMap : list bool)
    (DynamicMeshElements : list FMeshBatchAndRelevance)
    (proxy : option FPrimitiveSceneProxy) (calls : list BatchCall)
    (Hrun : ForEachBatch viewInfo StaticMeshVisibilityMap DynamicMeshElements proxy
            = Some calls) :
  Forall (fun call =>
            elementMask call = all_elements_mask
            /\ match callBatch call with
               | StaticBatch staticMesh =>
                   callProxy call = ownerProxy staticMesh
                   /\ at_index StaticMeshVisibilityMap (Id staticMesh) = Some true
                   /\ exists p sceneInfo,
                        proxy = Some p
                        /\ GetPrimitiveSceneInfo p = Some sceneInfo
                        /\ at_index (StaticMeshes sceneInfo)
                                    (staticMeshIDIfApplicable call)
                           = Some staticMesh
               | DynamicBatch mesh =>
                   staticMeshIDIfApplicable call = -1
                   /\ exists batchI data,
                        at_index DynamicMeshElements batchI = Some data
                        /\ Mesh data = mesh
                        /\ PrimitiveSceneProxy data = callProxy call
               end) calls.
Proof.
  unfold ForEachBatch in Hrun.
  destruct proxy as [p|]; [|injection Hrun as <-; constructor].
  destruct (GetPrimitiveSceneInfo p) as [sceneInfo|] eqn:Hinfo;
    [|injection Hrun as <-; constructor].
  destruct (IsIndexValid sceneInfo); simpl in Hrun;
    [|injection Hrun as <-; constructor].
  destruct (at_index (PrimitiveVisibilityMap viewInfo) (GetIndex sceneInfo))
    as [visible|]; [|discriminate]. simpl in Hrun.
  destruct visible; simpl in Hrun; [|injection Hrun as <-; constructor].
  destruct (at_index (PrimitiveViewRelevanceMap viewInfo) (GetIndex sceneInfo))
    as [relevance|]; [|discriminate]. simpl in Hrun.
  match type of Hrun with
  | (?st ≫= _) = _ => destruct st as [staticCalls|] eqn:Hst; [|discriminate]
  end.
  simpl in Hrun.
  match type of Hrun with
  | (?dy ≫= _) = _ => destruct dy as [dynamicCalls|] eqn:Hdy; [|discriminate]
  end.
  simpl in Hrun. injection Hrun as <-.
  apply Forall_app. split.
  - destruct (bStaticRelevance relevance).
    + eapply Forall_impl; [exact (static_loop_calls _ _ _ _ Hst)|].
      intros call (Hmask & sm & Hb & Hp & Hvis & Hle & Hlook).
      split; [exact Hmask|]. rewrite Hb. split; [exact Hp|]. split; [exact Hvis|].
      exists p, sceneInfo. split; [reflexivity|]. split; [exact Hinfo|].
      apply at_index_Some. split; [lia|]. rewrite Z.sub_0_r in Hlook. exact Hlook.
    + injection Hst as <-. constructor.
  - destruct (bDynamicRelevance relevance).
    + match type of Hdy with
      | (?r ≫= _) = _ => destruct r as [range|]; [|discriminate]
      end.
      simpl in Hdy.
      destruct (GetLowerBoundValue range) as [lower|]; [|discriminate]. simpl in Hdy.
      destruct (GetUpperBoundValue range) as [upper|]; [|discriminate]. simpl in Hdy.
      destruct (dynamic_loop_calls _ _ _ _ Hdy) as [_ Hall].
      eapply Forall_impl; [exact Hall|].
      intros call (Hmask & Hid & i & d & _ & Hat & Hb & Hp).
      split; [exact Hmask|]. rewrite Hb. split; [exact Hid|].
      exists i, d. auto.
    + injection Hdy as <-. constructor.
Qed.

(** X28. For a visible primitive of the view, the range that
    [ForEachBatch] works out inline is the one
    [GetDynamicMeshElementRange] answers for the primitive's index: the
    calls are those for the primitive's visible static batches (when it
    has static relevance) followed by one call per element of that
    range, and both functions assert on the same inputs. *)
Theorem ForEachBatch_uses_the_dynamic_element_range
    (viewInfo : FViewInfo) (StaticMeshVisibilityMap : list bool)
    (DynamicMeshElements : list FMeshBatchAndRelevance)
    (proxy : FPrimitiveSceneProxy) (sceneInfo : FPrimitiveSceneInfo)
    (relevance : FPrimitiveViewRelevance)
    (Hinfo : GetPrimitiveSceneInfo proxy = Some sceneInfo)
    (Hvalid : IsIndexValid sceneInfo = true)
    (Hvisible : at_index (PrimitiveVisibilityMap viewInfo) (GetIndex sceneInfo)
                = Some true)
    (Hrelevance : at_index (PrimitiveViewRelevanceMap viewInfo) (GetIndex sceneInfo)
                  = Some relevance) :
  ForEachBatch viewInfo StaticMeshVisibilityMap DynamicMeshElements (Some proxy)
  = (staticCalls ←
       (if bStaticRelevance relevance
        then static_loop StaticMeshVisibilityMap (StaticMeshes sceneInfo) 0
        else Some []);
     dynamicElementRange ←
       GetDynamicMeshElementRange viewInfo (Z.to_N (GetIndex sceneInfo));
     lower ← GetLowerBoundValue dynamicElementRange;
     upper ← GetUpperBoundValue dynamicElementRange;
     dynamicCalls ← dynamic_loop DynamicMeshElements lower (Z.to_nat (upper - lower));
     Some (staticCalls ++ dynamicCalls)).
Proof.
  unfold ForEachBatch. rewrite Hinfo, Hvalid. simpl. rewrite Hvisible. simpl.
  rewrite Hrelevance. simpl.
  apply at_index_Some in Hvisible as [Hge Hvis].
  apply at_index_Some in Hrelevance as [_ Hrel].
  assert (Hguard : (N.of_nat (length (PrimitiveViewRelevanceMap viewInfo))
                    <=? Z.to_N (GetIndex sceneInfo))%N = false).
  { apply N.leb_gt. apply lookup_lt_Some in Hrel. lia. }
  unfold GetDynamicMeshElementRange. rewrite Hguard.
  replace (N.to_nat (Z.to_N (GetIndex sceneInfo))) with (Z.to_nat (GetIndex sceneInfo))
    by lia.
  rewrite Hvis. simpl. rewrite Hrel. simpl.
  destruct (if bStaticRelevance relevance
            then static_loop StaticMeshVisibilityMap (StaticMeshes sceneInfo) 0
            else Some []) as [staticCalls|]; simpl; [|reflexivity].
  destruct (bDynamicRelevance relevance); simpl.
  - unfold at_index at 1. destruct (GetIndex sceneInfo <? 0) eqn:E;
      [apply Z.ltb_lt in E; lia|].
    destruct (DynamicMeshElementRanges viewInfo !! Z.to_nat (GetIndex sceneInfo))
      as [bounds|]; simpl; reflexivity.
  - rewrite app_nil_r. reflexivity.
Qed.

(** X29. [GetStaticMeshElements] asks the proxy for the mesh description
    of its LOD and returns the mask with exactly the LOD's bit set: for
    a LOD from 0 to 63 the output grows by the description of that LOD
    and bit [i] of the mask is set just when [i] is the LOD. Any other
    LOD (a negative one becomes a huge unsigned count) shifts by 64 or
    more. *)
Theorem GetStaticMeshElements_mask
    (proxy : FPrimitiveSceneProxy) (output : list Z)
    (Hint : Int32.in_range (GetLOD proxy)) :
  if (0 <=? GetLOD proxy) && (GetLOD proxy <? 64) then
    exists mask,
      GetStaticMeshElements proxy output
      = Some (mask, output ++ GetMeshDescription proxy (GetLOD proxy))
      /\ 0 < mask < 2 ^ 64
      /\ forall i, 0 <= i -> Z.testbit mask i = (i =? GetLOD proxy)
  else GetStaticMeshElements proxy output = None.
Proof.
  unfold Int32.in_range, Int32.min_int, Int32.max_int in Hint.
  unfold GetStaticMeshElements.
  destruct ((0 <=? GetLOD proxy) && (GetLOD proxy <? 64)) eqn:E.
  - apply andb_true_iff in E as [E1 E2]. apply Z.leb_le in E1. apply Z.ltb_lt in E2.
    rewrite (Z.mod_small (GetLOD proxy) (2 ^ 64)) by lia.
    rewrite (proj2 (Z.ltb_lt _ _) E2).
    assert (Hw : Int32.wrap32 (GetLOD proxy) = GetLOD proxy).
    { unfold Int32.wrap32. rewrite Z.mod_small; lia. }
    rewrite Hw. eexists. split; [reflexivity|].
    rewrite Z.shiftl_1_l. split.
    + split; [apply Z.pow_pos_nonneg; lia|]. apply Z.pow_lt_mono_r; lia.
    + intros i Hi. rewrite Z.pow2_bits_eqb by lia. apply Z.eqb_sym.
  - assert (Hbig : (GetLOD proxy mod 2 ^ 64 <? 64) = false).
    { apply Z.ltb_ge. apply andb_false_iff in E as [E|E].
      - apply Z.leb_gt in E.
        replace (GetLOD proxy) with ((GetLOD proxy + 2 ^ 64) + (-1) * 2 ^ 64) by lia.
        rewrite Z.mod_add by lia. rewrite Z.mod_small; lia.
      - apply Z.ltb_ge in E. rewrite Z.mod_small; lia. }
    rewrite Hbig. reflexivity.
Qed.

End MeshBatchFacts.

(** ** The render-pass properties on the sample worlds *)

Section RenderPassExamples.

Import RenderPasses Samples.

Lemma sample_passes_have_objects (enabled : bool) :
  forall type pass,
    passes (subsystem (engine_with_components enabled)) !! type = Some pass ->
    is_Some (passObjects (engine_with_components enabled) !! pass).
Proof.
  intros type pass H. simpl in H. apply lookup_singleton_Some in H as [_ <-].
  simpl. rewrite lookup_singleton_eq. eauto.
Qed.

Lemma GetPass_creates_a_pass_once_witness :
  exists pass e1,
    GetPass GameThread 6 true engine_with_pass = Some (Some pass, e1)
    /\ passes (subsystem e1) !! 6 = Some pass
    /\ (forall createIfNeeded,
          GetPass GameThread 6 createIfNeeded e1 = Some (Some pass, e1))
    /\ match passes (subsystem engine_with_pass) !! 6 with
       | Some found => pass = found /\ e1 = engine_with_pass
       | None =>
           pass = nextObject engine_with_pass
           /\ GetPass GameThread 6 false engine_with_pass
              = Some (None, engine_with_pass)
           /\ passObjects e1 !! pass = Some (NewObject_pass 6)
           /\ renderQueue e1 = renderQueue engine_with_pass ++ [InitPass pass]
           /\ nextObject e1 = nextObject engine_with_pass + 1
           /\ (forall other, other <> 6 ->
                 passes (subsystem e1) !! other
                 = passes (subsystem engine_with_pass) !! other)
           /\ dyingPassFences (subsystem e1)
              = dyingPassFences (subsystem engine_with_pass)
       end.
Proof.
  apply (GetPass_creates_a_pass_once GameThread 6 100 engine_with_pass);
    reflexivity.
Defined.

Lemma registration_is_a_set_witness :
  exists e1 o1 e2 o2,
    RegisterPassComponent GameThread 1 12 (engine_with_components true)
      = Some (tt, e1)
    /\ passObjects e1 !! 1 = Some o1
    /\ (forall c', c' ∈ Components_GameThread o1
                   <-> c' = 12 \/ c' ∈ Components_GameThread pass_with_10_11)
    /\ (NoDup (Components_GameThread pass_with_10_11)
        -> NoDup (Components_GameThread o1))
    /\ RegisterPassComponent GameThread 1 12 e1 = Some (tt, e1)
    /\ UnregisterPassComponent GameThread 1 12 e1 = Some (tt, e2)
    /\ passObjects e2 !! 1 = Some o2
    /\ (forall c', c' ∈ Components_GameThread o2
                   <-> c' <> 12 /\ c' ∈ Components_GameThread pass_with_10_11)
    /\ UnregisterPassComponent GameThread 1 12 e2 = Some (tt, e2)
    /\ (12 ∉ Components_GameThread pass_with_10_11
        -> e2 = engine_with_components true).
Proof.
  apply (registration_is_a_set GameThread 1 12 (engine_with_components true)
           pass_with_10_11).
  - reflexivity.
  - apply lookup_singleton_eq.
Defined.

Lemma destroyed_pass_is_replaced_by_a_new_one_witness :
  exists e1 e2 pass',
    DestroyPass_GameThread GameThread 5 engine_with_pass = Some (true, e1)
    /\ DestroyPass_GameThread GameThread 5 e1 = Some (false, e1)
    /\ GetPass GameThread 5 true e1 = Some (Some pass', e2)
    /\ pass' <> 1
    /\ passes (subsystem e2) !! 5 = Some pass'
    /\ passObjects e2 !! pass' = Some (NewObject_pass 5)
    /\ dyingPassFences (subsystem e2) !! 1 = Some (nextObject engine_with_pass)
    /\ renderQueue e2
       = renderQueue engine_with_pass
         ++ [CleanupPass 1 true; RenderFence (nextObject engine_with_pass);
             InitPass pass'].
Proof.
  apply (destroyed_pass_is_replaced_by_a_new_one GameThread engine_with_pass 5 1 100).
  - reflexivity.
  - reflexivity.
  - apply lookup_singleton_eq.
  - reflexivity.
  - simpl. lia.
Defined.

(** Fence 4 of the destroyed pass is complete before the render thread
    runs the two queued commands, and still is afterwards. *)
Lemma render_thread_keeps_readiness_witness :
  IsReadyForFinishDestroy engine_after_cleanup_idle = true
  /\ subsystem engine_after_cleanup_idle = subsystem engine_after_cleanup
  /\ forall f, f ∈ completedFences engine_after_cleanup
               -> f ∈ completedFences engine_after_cleanup_idle.
Proof.
  apply (render_thread_keeps_readiness Tick_RenderThread_base 2
           engine_after_cleanup engine_after_cleanup_idle).
  - vm_compute. reflexivity.
  - vm_compute. reflexivity.
Defined.

Lemma engine_after_cleanup_has_a_complete_fence :
  dyingPassFences (subsystem engine_after_cleanup) !! 3 = Some 4
  /\ 4 ∈ completedFences engine_after_cleanup
  /\ length (renderQueue engine_after_cleanup) = 2%nat.
Proof.
  split; [apply lookup_singleton_eq|]. split; [|reflexivity].
  apply elem_of_singleton. reflexivity.
Qed.

Lemma two_passes_have_objects :
  forall type pass,
    passes (subsystem engine_with_two_passes) !! type = Some pass ->
    is_Some (passObjects engine_with_two_passes !! pass).
Proof.
  intros type pass H. simpl in H.
  apply lookup_insert_Some in H as [[_ <-]|[_ H]].
  - simpl. rewrite lookup_insert_eq. eauto.
  - apply lookup_singleton_Some in H as [_ <-].
    simpl. rewrite lookup_insert_ne by discriminate.
    rewrite lookup_singleton_eq. eauto.
Qed.

(** The pass made first is ticked first: the update of object 1 is
    queued before that of object 2. *)
Lemma Tick_posts_one_update_per_pass_witness :
  let e := engine_with_two_passes in
  exists e',
    Tick (filled_in_order [6; 5]) tt e = Some (tt, e')
    /\ renderQueue e'
       = renderQueue e
         ++ ((fun pass => UpdateCustomRenderPassProxies pass 100 tt
                            (valid_components e pass))
               <$> (filled_in_order [6; 5] (passes (subsystem e))).*2)
    /\ length (renderQueue e')
       = (length (renderQueue e) + size (passes (subsystem e)))%nat
    /\ (forall type pass,
          passes (subsystem e) !! type = Some pass ->
          UpdateCustomRenderPassProxies pass 100 tt (valid_components e pass)
            ∈ renderQueue e')
    /\ subsystem e' = subsystem e
    /\ componentObjects e' = componentObjects e
    /\ completedFences e' = completedFences e.
Proof.
  intros e.
  apply (Tick_posts_one_update_per_pass (filled_in_order [6; 5]) tt e 100).
  - reflexivity.
  - unfold enumerates. vm_compute. apply perm_swap.
  - exact two_passes_have_objects.
Defined.

Lemma two_passes_are_ticked_in_creation_order :
  (filled_in_order [6; 5] (passes (subsystem engine_with_two_passes))).*2 = [1; 2].
Proof. vm_compute. reflexivity. Qed.

Lemma proxy_reaches_table_in_frame_order_witness :
  let e := engine_with_components true in
  let co := component true [Byte.x01] in
  let IsA_UPrimitiveComponent := fun object => object =? 20 in
  let newTarget :=
    if negb (GetAttachParent co =? 0)
       && IsA_UPrimitiveComponent (GetAttachParent co)
    then GetAttachParent co else 0 in
  (exists e1 o1,
     bind (TickComponent IsA_UPrimitiveComponent 10 [Byte.x07]) (fun _ =>
     bind (Tick_GameThread 1 100 tt) (fun _ =>
     render_thread_steps Tick_RenderThread_base 2)) e = Some (tt, e1)
     /\ renderQueue e1 = []
     /\ passObjects e1 !! 1 = Some (Tick_RenderThread_base o1 100 tt)
     /\ ComponentProxies_RenderThread o1 !! 10 = Some [Byte.x07]
     /\ renderThreadTarget <$> componentObjects e1 !! 10 = Some newTarget)
  /\ (exists e2 o2,
     bind (Tick_GameThread 1 100 tt) (fun _ =>
     bind (TickComponent IsA_UPrimitiveComponent 10 [Byte.x07]) (fun _ =>
     render_thread_steps Tick_RenderThread_base 2)) e = Some (tt, e2)
     /\ renderQueue e2 = []
     /\ passObjects e2 !! 1 = Some (Tick_RenderThread_base o2 100 tt)
     /\ ComponentProxies_RenderThread o2 !! 10 = Some (renderThreadProxy co)
     /\ renderThreadProxy <$> componentObjects e2 !! 10 = Some [Byte.x07]
     /\ renderThreadTarget <$> componentObjects e2 !! 10 = Some newTarget).
Proof.
  intros e co IsA_UPrimitiveComponent.
  apply (proxy_reaches_table_in_frame_order Tick_RenderThread_base
           IsA_UPrimitiveComponent 1 10 100 tt [Byte.x07] e pass_with_10_11 co).
  - reflexivity.
  - apply lookup_singleton_eq.
  - apply lookup_insert_eq.
  - reflexivity.
  - simpl. left.
Defined.

Lemma destroyed_pass_stops_rendering_witness :
  exists e2 o2,
    bind (DestroyPass_GameThread GameThread 5)
         (fun _ => render_thread_steps Tick_RenderThread_base 2)
         (engine_with_components true) = Some (tt, e2)
    /\ renderQueue e2 = []
    /\ passObjects e2 !! 1 = Some o2
    /\ stopAllRendering o2 = true
    /\ (forall World,
          ViewFilter.testWorld World (stopAllRendering pass_with_10_11) World = None)
    /\ (forall World contextWorld,
          ViewFilter.testWorld World (stopAllRendering o2) contextWorld = Some false).
Proof.
  apply (destroyed_pass_stops_rendering Tick_RenderThread_base GameThread
           (engine_with_components true) 5 1 100 pass_with_10_11).
  - reflexivity.
  - reflexivity.
  - apply lookup_singleton_eq.
  - reflexivity.
  - reflexivity.
  - apply lookup_singleton_eq.
  - reflexivity.
Defined.

Lemma proxy_table_in_rebuild_order :
  enumerates (filled_in_order [10; 11; 12]) proxy_table.
Proof. unfold enumerates. vm_compute. apply perm_swap. Qed.

Lemma ForEachComponent_visits_components_with_scene_proxies_witness :
  let table := ComponentProxies_RenderThread pass_with_table in
  exists visits,
    ForEachComponent_RenderThread RenderThread true SceneProxy_of
      (filled_in_order [10; 11; 12]) 1 engine_rendering
      = Some (visits, engine_rendering)
    /\ ForEachComponent_RenderThread RenderThread false SceneProxy_of
         (filled_in_order [10; 11; 12]) 1 engine_rendering
       = None
    /\ NoDup (visitedComponent <$> visits)
    /\ (forall v, v ∈ visits ->
          table !! visitedComponent v = Some (visitedProxy v)
          /\ IsValid_ptr engine_rendering (visitedComponent v) = true
          /\ has_scene_proxy engine_rendering SceneProxy_of (visitedComponent v) = true
          /\ renderThreadTarget <$> componentObjects engine_rendering !! visitedComponent v
             = Some (visitedPrimitive v)
          /\ visitedSceneProxy v = SceneProxy_of (visitedPrimitive v))
    /\ ((forall c, is_Some (table !! c) -> IsValid_ptr engine_rendering c = true ->
                   has_scene_proxy engine_rendering SceneProxy_of c = true) ->
        forall c b, table !! c = Some b -> IsValid_ptr engine_rendering c = true ->
                    exists v, v ∈ visits
                              /\ visitedComponent v = c /\ visitedProxy v = b).
Proof.
  intros table.
  apply (ForEachComponent_visits_components_with_scene_proxies
           engine_rendering SceneProxy_of (filled_in_order [10; 11; 12])
           RenderThread 1 pass_with_table).
  - reflexivity.
  - apply lookup_singleton_eq.
  - exact proxy_table_in_rebuild_order.
Defined.

(** The table was rebuilt from components 10, 11 and 12 in that order.
    Component 10 is visited; component 11 has no target, so the loop
    ends there and component 12 is not visited although it has a scene
    proxy. *)
Lemma ForEachComponent_stops_at_first_missing_scene_proxy_witness :
  let pre := [(10, [Byte.x01])] in
  let post := [(12, [Byte.x03])] in
  exists visits,
    ForEachComponent_RenderThread RenderThread true SceneProxy_of
      (filled_in_order [10; 11; 12]) 1 engine_rendering
      = Some (visits, engine_rendering)
    /\ (forall v, v ∈ visits -> visitedComponent v ∈ pre.*1)
    /\ ((forall c' b', (c', b') ∈ pre -> IsValid_ptr engine_rendering c' = true ->
                       has_scene_proxy engine_rendering SceneProxy_of c' = true) ->
        forall c' b', (c', b') ∈ pre -> IsValid_ptr engine_rendering c' = true ->
                      c' ∈ visitedComponent <$> visits)
    /\ (forall c', c' ∈ post.*1 -> c' ∉ visitedComponent <$> visits)
    /\ (11 ∉ visitedComponent <$> visits).
Proof.
  intros pre post.
  apply (ForEachComponent_stops_at_first_missing_scene_proxy
           engine_rendering SceneProxy_of (filled_in_order [10; 11; 12])
           RenderThread 1 pass_with_table pre post 11 [Byte.x02]).
  - reflexivity.
  - apply lookup_singleton_eq.
  - exact proxy_table_in_rebuild_order.
  - vm_compute. reflexivity.
  - vm_compute. reflexivity.
  - vm_compute. reflexivity.
Defined.

Lemma ForEachComponent_on_the_sample_table :
  visitedComponent
    <$> ForEachComponent_loop engine_rendering SceneProxy_of
          (filled_in_order [10; 11; 12] proxy_table)
  = [10].
Proof. vm_compute. reflexivity. Qed.

Lemma BeginPlay_registers_with_the_pass_of_its_type_witness :
  exists e1 pass o1 e2 o2,
    BeginPlay GameThread 12 5 (engine_with_components true) = Some ([], e1)
    /\ passes (subsystem e1) !! 5 = Some pass
    /\ passObjects e1 !! pass = Some o1
    /\ 12 ∈ Components_GameThread o1
    /\ (forall DestructProxyData_GameThread : M unit unit,
          EndPlay GameThread 12 5 DestructProxyData_GameThread e1
          = DestructProxyData_GameThread e2)
    /\ passObjects e2 !! pass = Some o2
    /\ (12 ∉ Components_GameThread o2)
    /\ renderQueue e2 = renderQueue e1
    /\ subsystem e2 = subsystem e1.
Proof.
  apply (BeginPlay_registers_with_the_pass_of_its_type GameThread 12 5 100
           (engine_with_components true)).
  - reflexivity.
  - reflexivity.
  - intros pass. exact (sample_passes_have_objects true 5 pass).
Defined.

Lemma EndPlay_recreates_a_missing_pass_witness :
  exists e1,
    EndPlay GameThread 10 6 (ret tt) engine_with_pass = Some (tt, e1)
    /\ passes (subsystem e1) !! 6 = Some (nextObject engine_with_pass)
    /\ passObjects e1 !! nextObject engine_with_pass = Some (NewObject_pass 6)
    /\ renderQueue e1
       = renderQueue engine_with_pass ++ [InitPass (nextObject engine_with_pass)]
    /\ nextObject e1 = nextObject engine_with_pass + 1
    /\ forall DestructProxyData_GameThread : M unit unit,
         EndPlay GameThread 10 6 DestructProxyData_GameThread engine_with_pass
         = DestructProxyData_GameThread e1.
Proof.
  apply (EndPlay_recreates_a_missing_pass GameThread 10 6 100 engine_with_pass);
    reflexivity.
Defined.

End RenderPassExamples.

(** ** The mesh-batch properties on the sample view *)

Section MeshBatchExamples.

Import MeshBatches Samples.

Lemma GetDynamicMeshElementRange_on_consistent_view_witness :
  exists range lower upper,
    GetDynamicMeshElementRange mesh_view 0 = Some range
    /\ GetLowerBoundValue range = Some lower
    /\ GetUpperBoundValue range = Some upper
    /\ forall visible relevance bounds,
         PrimitiveVisibilityMap mesh_view !! N.to_nat 0 = Some visible ->
         PrimitiveViewRelevanceMap mesh_view !! N.to_nat 0 = Some relevance ->
         DynamicMeshElementRanges mesh_view !! N.to_nat 0 = Some bounds ->
         range = if visible && bDynamicRelevance relevance
                 then FInt32Range_make bounds.1 bounds.2
                 else FInt32Range_Empty.
Proof.
  apply (GetDynamicMeshElementRange_on_consistent_view mesh_view 0).
  split; reflexivity.
Defined.

Lemma ForEachBatch_calls_witness :
  exists calls,
    ForEachBatch mesh_view static_visibility dynamic_elements (Some primitive_proxy)
      = Some calls
    /\ length calls = 4%nat
    /\ Forall (fun call =>
            elementMask call = all_elements_mask
            /\ match callBatch call with
               | StaticBatch staticMesh =>
                   callProxy call = ownerProxy staticMesh
                   /\ at_index static_visibility (Id staticMesh) = Some true
                   /\ exists p sceneInfo,
                        Some primitive_proxy = Some p
                        /\ GetPrimitiveSceneInfo p = Some sceneInfo
                        /\ at_index (StaticMeshes sceneInfo)
                                    (staticMeshIDIfApplicable call)
                           = Some staticMesh
               | DynamicBatch mesh =>
                   staticMeshIDIfApplicable call = -1
                   /\ exists batchI data,
                        at_index dynamic_elements batchI = Some data
                        /\ Mesh data = mesh
                        /\ PrimitiveSceneProxy data = callProxy call
               end) calls.
Proof.
  eexists. split; [reflexivity|]. split; [reflexivity|].
  apply (ForEachBatch_calls mesh_view static_visibility dynamic_elements
           (Some primitive_proxy)).
  reflexivity.
Defined.

Lemma ForEachBatch_uses_the_dynamic_element_range_witness :
  ForEachBatch mesh_view static_visibility dynamic_elements (Some primitive_proxy)
  = (staticCalls ←
       (if bStaticRelevance {| bStaticRelevance := true; bDynamicRelevance := true |}
        then static_loop static_visibility (StaticMeshes primitive_scene_info) 0
        else Some []);
     dynamicElementRange ←
       GetDynamicMeshElementRange mesh_view (Z.to_N (GetIndex primitive_scene_info));
     lower ← GetLowerBoundValue dynamicElementRange;
     upper ← GetUpperBoundValue dynamicElementRange;
     dynamicCalls ← dynamic_loop dynamic_elements lower (Z.to_nat (upper - lower));
     Some (staticCalls ++ dynamicCalls)).
Proof.
  apply (ForEachBatch_uses_the_dynamic_element_range mesh_view static_visibility
           dynamic_elements primitive_proxy primitive_scene_info
           {| bStaticRelevance := true; bDynamicRelevance := true |});
    reflexivity.
Defined.

Lemma GetStaticMeshElements_mask_witness :
  exists mask,
    GetStaticMeshElements primitive_proxy [40; 41]
    = Some (mask, [40; 41] ++ GetMeshDescription primitive_proxy 2)
    /\ 0 < mask < 2 ^ 64
    /\ forall i, 0 <= i -> Z.testbit mask i = (i =? 2).
Proof.
  apply (GetStaticMeshElements_mask primitive_proxy [40; 41]).
  unfold Int32.in_range, Int32.min_int, Int32.max_int. simpl. lia.
Defined.

End MeshBatchExamples.
